(** * The Rehearsal AI: dialogue engine, conversation server, script routes,
      authentication and analysis-response parser

    A shallow embedding of

    - [public/js/conversation.js]  ([ConversationModule], the dialogue engine),
      with the scenario selection and the state set up at page load,
    - [server.js]                  (the in-memory conversation routes,
                                    [detectCrisis], [generateAIResponse],
                                    [generateFeedback]),
    - [api/routes/scripts.ts]      ([calculateNathanLevel], the script routes
                                    and their order, [generateScriptAnalysis],
                                    [calculateRehearsalCount]),
    - [api/middleware/auth.ts]     ([authenticateToken], [optionalAuth],
                                    [requireRole]),
    - the AI service               ([AIService.parseAnalysisResponse],
                                    [AIService.generateProductionNotes]),
    - [public/js/analytics.js]     ([getMostFrequent]),

    followed by the properties proved about them.

    Conventions of the embedding.

    - A JavaScript string is a [string] of code units below 256 (U+0000 to
      U+00FF).  Whitespace is the part of the ECMAScript [WhiteSpace] and
      [LineTerminator] sets in that range: 9-13, 32 and the no-break space
      160.  [toLowerCase] maps [A-Z] and the Latin-1 capitals (192-222
      without 215) to the code unit 32 above; every other code unit is
      carried unchanged.
    - Integral JavaScript numbers are [Z] (or [N] where the code can only
      produce naturals).  Where the code can produce [NaN] the type [num]
      makes that explicit.  The halves and quarters of [generateFeedback]
      are rationals, which the doubles of the source represent exactly.
    - [new Date()], [uuidv4()] and [Math.random()] are inputs of the function
      that calls them.  A value of [Math.random()] is [r / 2^53] for an
      integer [0 <= r < 2^53]; products with it are taken exactly (the
      rounded product of the source can be the next double, and its floor one
      higher within the same range).  [parseInt] is exact, as the source is
      for values up to [2^53]; the theorems on parsed numbers bound them.
    - A plain object used as a table is a [gmap] over its own properties.  A
      lookup by a property name inherited from [Object.prototype] finds the
      inherited value instead; the theorems about tables indexed by a
      caller's key exclude those names ([own_key]).
    - DOM writes and console output are outside the state and are not
      modelled; every DOM access of the engine is guarded by a null check.
    - A JavaScript exception is an explicit result ([Threw], [None], or an
      error value of the route).
    - The database of the script routes is one table keyed by script id; the
      [jsonwebtoken] package is a parameter. *)

From Stdlib Require Import ZArith NArith List Ascii String Lia Bool.
From Stdlib Require Import DecimalString DecimalN DecimalPos.
From Stdlib Require QArith Qround Qminmax Lqa.
From stdpp Require Import base option gmap strings list.

Set Default Proof Using "Type".

(* ===================================================================== *)
(** * Part I: the embedding *)
(* ===================================================================== *)

(** ** JavaScript values shared by the modules *)

Module Js.

(** A number that may be [NaN]. *)
Inductive num := Int (z : Z) | NaN.

Definition num_add (a b : num) : num :=
  match a, b with
  | Int x, Int y => Int (x + y)
  | _, _ => NaN
  end.

(** [Math.min] and [Math.max] return [NaN] as soon as one argument is [NaN]. *)
Definition Math_min (a b : num) : num :=
  match a, b with
  | Int x, Int y => Int (Z.min x y)
  | _, _ => NaN
  end.

Definition Math_max (a b : num) : num :=
  match a, b with
  | Int x, Int y => Int (Z.max x y)
  | _, _ => NaN
  end.

(** [Math.floor(Math.random() * len)] for the draw [r / 2^53]. *)
Definition random_index (r : Z) (len : nat) : nat :=
  Z.to_nat ((r * Z.of_nat len) / 2 ^ 53).

(** The contract of [Math.random()]: a value in [[0, 1)]. *)
Definition is_random (r : Z) : Prop := (0 <= r < 2 ^ 53)%Z.

(** [arr[Math.floor(Math.random() * arr.length)]]; [None] is [undefined]. *)
Definition random_pick {A} (r : Z) (arr : list A) : option A :=
  arr !! random_index r (length arr).

(** The property names a plain object inherits from [Object.prototype].  A
    lookup [obj[key]] with one of them finds the inherited function or
    object, which is no entry of the table; a [gmap] describes the lookups
    by every other key. *)
Definition Object_prototype_keys : list string :=
  [ "constructor"; "__proto__"; "hasOwnProperty"; "isPrototypeOf";
    "propertyIsEnumerable"; "toLocaleString"; "toString"; "valueOf";
    "__defineGetter__"; "__defineSetter__"; "__lookupGetter__";
    "__lookupSetter__" ]%string.

(** A key whose lookup in a plain object sees the object's own properties
    only. *)
Definition own_key (k : string) : bool :=
  negb (existsb (String.eqb k) Object_prototype_keys).

End Js.

(** ** [public/js/conversation.js]: the dialogue engine *)

Module Conversation.
Import Js.

(** [appState.currentScene] starts as the number [0] and holds scene ids
    afterwards. *)
Inductive SceneRef := SceneIndex (z : Z) | SceneId (s : string).

Record Choice := {
  text : string;
  impact : option (list (string * Z));   (* entries of the impact object *)
  next : option string;
  choice_isEnd : bool
}.

Record Scene := {
  id : string;
  scene_text : string;
  dialogue : option string;
  choices : list Choice;
  isBreakthrough : bool;
  isEnd : bool;
  outcome : option string
}.

Record Scenario := {
  title : string;
  scenes : list Scene
}.

(** One entry of [appState.conversationHistory]. *)
Record HistoryRecord := {
  h_scene : SceneRef;
  h_choice : string;
  h_impact : option (list (string * Z));
  h_timestamp : Z
}.

Record Breakthrough := {
  b_scenario : option string;
  b_scene : string;
  b_timestamp : Z;
  b_description : string
}.

(** A callback handed to [setTimeout] and not yet run. *)
Inductive Task :=
| TaskDisplayScene (s : Scene)
| TaskShowCharacterDialogue (s : Scene)
| TaskDisplayChoices (cs : list Choice)
| TaskEndConversation (isSuccess : bool).

Record AppState := {
  currentScenario : option string;
  currentScene : SceneRef;
  playerStats : gmap string num;
  conversationHistory : list HistoryRecord;
  breakthroughs : list Breakthrough;
  rehearsalAttempts : gmap string Z;
  scenarios : gmap string Scenario;
  nathanNotes : list string;
  timers : list Task                      (* pending [setTimeout] callbacks *)
}.

Definition with_history (h : list HistoryRecord) (st : AppState) : AppState :=
  {| currentScenario := currentScenario st; currentScene := currentScene st;
     playerStats := playerStats st; conversationHistory := h;
     breakthroughs := breakthroughs st; rehearsalAttempts := rehearsalAttempts st;
     scenarios := scenarios st; nathanNotes := nathanNotes st; timers := timers st |}.

Definition with_stats (p : gmap string num) (st : AppState) : AppState :=
  {| currentScenario := currentScenario st; currentScene := currentScene st;
     playerStats := p; conversationHistory := conversationHistory st;
     breakthroughs := breakthroughs st; rehearsalAttempts := rehearsalAttempts st;
     scenarios := scenarios st; nathanNotes := nathanNotes st; timers := timers st |}.

Definition with_scene (r : SceneRef) (st : AppState) : AppState :=
  {| currentScenario := currentScenario st; currentScene := r;
     playerStats := playerStats st; conversationHistory := conversationHistory st;
     breakthroughs := breakthroughs st; rehearsalAttempts := rehearsalAttempts st;
     scenarios := scenarios st; nathanNotes := nathanNotes st; timers := timers st |}.

Definition with_breakthroughs (b : list Breakthrough) (st : AppState) : AppState :=
  {| currentScenario := currentScenario st; currentScene := currentScene st;
     playerStats := playerStats st; conversationHistory := conversationHistory st;
     breakthroughs := b; rehearsalAttempts := rehearsalAttempts st;
     scenarios := scenarios st; nathanNotes := nathanNotes st; timers := timers st |}.

Definition with_timers (t : list Task) (st : AppState) : AppState :=
  {| currentScenario := currentScenario st; currentScene := currentScene st;
     playerStats := playerStats st; conversationHistory := conversationHistory st;
     breakthroughs := breakthroughs st; rehearsalAttempts := rehearsalAttempts st;
     scenarios := scenarios st; nathanNotes := nathanNotes st; timers := t |}.

(** [setTimeout(cb, delay)]. *)
Definition setTimeout (t : Task) (st : AppState) : AppState :=
  with_timers (timers st ++ [t]) st.

(** How a method call ends. *)
Inductive Completion := Returned | Threw.

(** [appState.scenarios[appState.currentScenario]]: a [null] key is the
    property name ["null"]. *)
Definition current_scenario (st : AppState) : option Scenario :=
  scenarios st !! default "null"%string (currentScenario st).

(** [appState.playerStats[stat] + value]; a missing stat is [undefined], and
    [undefined + value] is [NaN]. *)
Definition stat_plus (stats : gmap string num) (stat : string) (value : Z) : num :=
  num_add (default NaN (stats !! stat)) (Int value).

(** The body of the [forEach] over [Object.entries(choice.impact)]. *)
Definition applyStat (stats : gmap string num) (entry : string * Z) : gmap string num :=
  <[ entry.1 := Math_max (Int 0) (Math_min (Int 10) (stat_plus stats entry.1 entry.2)) ]> stats.

Definition applyImpact (entries : list (string * Z)) (stats : gmap string num)
  : gmap string num :=
  fold_left applyStat entries stats.

(** [scenario.scenes.find(s => s.id === choice.next)]. *)
Definition find_scene (nxt : option string) (ss : list Scene) : option Scene :=
  List.find (fun s => match nxt with
                      | Some n => String.eqb (id s) n
                      | None => false
                      end) ss.

Definition history_record (now : Z) (choice : Choice) (st : AppState) : HistoryRecord :=
  {| h_scene := currentScene st; h_choice := text choice;
     h_impact := impact choice; h_timestamp := now |}.

(** [makeChoice(choice)], with [now] the value of [new Date()]. *)
Definition makeChoice (now : Z) (choice : Choice) (st : AppState)
  : AppState * Completion :=
  (* Record the choice *)
  let st := with_history (conversationHistory st ++ [history_record now choice st]) st in
  (* Apply stat changes *)
  let st := match impact choice with
            | Some entries => with_stats (applyImpact entries (playerStats st)) st
            | None => st
            end in
  (* Move to next scene *)
  match current_scenario st with
  | None => (st, Threw)                 (* [scenario.scenes] of [undefined] *)
  | Some scenario =>
      match find_scene (next choice) (scenes scenario) with
      | Some nextScene =>
          (setTimeout (TaskDisplayScene nextScene)
             (with_scene (SceneId (id nextScene)) st), Returned)
      | None =>
          if bool_decide (next choice = Some "success"%string) || choice_isEnd choice
          then (setTimeout (TaskEndConversation true) st, Returned)
          else (setTimeout (TaskEndConversation false) st, Returned)
      end
  end.

(** [recordBreakthrough(scene)]. *)
Definition recordBreakthrough (now : Z) (scene : Scene) (st : AppState)
  : AppState * Completion :=
  match current_scenario st with
  | None => (st, Threw)                 (* [.title] of [undefined] *)
  | Some scenario =>
      (with_breakthroughs
         (breakthroughs st ++
            [{| b_scenario := currentScenario st; b_scene := id scene;
                b_timestamp := now;
                b_description := "Breakthrough moment in " +:+ title scenario |}]) st,
       Returned)
  end.

(** [displayScene(scene)]. *)
Definition displayScene (now : Z) (scene : Scene) (st : AppState)
  : AppState * Completion :=
  (* Update character dialogue if present: an empty string is falsy *)
  let st := match dialogue scene with
            | Some d => if String.eqb d EmptyString then st
                        else setTimeout (TaskShowCharacterDialogue scene) st
            | None => st
            end in
  let st := match choices scene with
            | [] => st
            | _ :: _ => setTimeout (TaskDisplayChoices (choices scene)) st
            end in
  let '(st, c) := if isBreakthrough scene then recordBreakthrough now scene st
                  else (st, Returned) in
  match c with
  | Threw => (st, Threw)
  | Returned =>
      if isEnd scene
      then (setTimeout
              (TaskEndConversation (bool_decide (outcome scene = Some "success"%string))) st,
            Returned)
      else (st, Returned)
  end.

(** What [endConversation] reports in the completion analysis. *)
Record Analysis := {
  a_success : bool;
  a_title : string;
  a_attempts : Z;
  a_total : num;
  a_empathy : option num;
  a_trust : option num;
  a_effectiveness : option num;
  a_conversations : nat;
  a_breakthroughs : nat;
  a_confidence : Z;
  a_note : option string
}.

(** [endConversation(isSuccess)]; [None] when it throws.  [r] is the draw of
    [Math.random()] that selects the note. *)
Definition endConversation (r : Z) (isSuccess : bool) (st : AppState) : option Analysis :=
  let stat s := playerStats st !! s in
  let totalScore :=
    num_add (num_add (default NaN (stat "empathy"%string))
                     (default NaN (stat "trust"%string)))
            (default NaN (stat "effectiveness"%string)) in
  let attempts :=
    match rehearsalAttempts st !! default "null"%string (currentScenario st) with
    | Some a => if (a =? 0)%Z then 1%Z else a
    | None => 1%Z
    end in
  match current_scenario st with
  | None => None                        (* [scenario.title] of [undefined] *)
  | Some scenario =>
      Some {| a_success := isSuccess; a_title := title scenario;
              a_attempts := attempts; a_total := totalScore;
              a_empathy := stat "empathy"%string; a_trust := stat "trust"%string;
              a_effectiveness := stat "effectiveness"%string;
              a_conversations := length (conversationHistory st);
              a_breakthroughs := length (breakthroughs st);
              a_confidence := Z.min (attempts * 15) 95;
              a_note := random_pick r (nathanNotes st) |}
  end.

(** [startConversation(scenario)]. *)
Definition startConversation (now : Z) (scenario : Scenario) (st : AppState)
  : AppState * Completion :=
  match find_scene (Some "intro"%string) (scenes scenario) with
  | Some firstScene => displayScene now firstScene st
  | None =>
      match scenes scenario with
      | firstScene :: _ => displayScene now firstScene st
      | [] => (st, Returned)
      end
  end.

(** [ScenariosModule.selectScenario(scenarioId)], which starts a run. *)
Definition selectScenario (now : Z) (scenarioId : string) (st : AppState)
  : AppState * Completion :=
  match scenarios st !! scenarioId with
  | None => (st, Returned)
  | Some scenario =>
      startConversation now scenario
        {| currentScenario := Some scenarioId;
           currentScene := SceneId "intro";
           playerStats := <["empathy"%string := Int 0]>
                            (<["trust"%string := Int 0]>
                               (<["effectiveness"%string := Int 0]> ∅));
           conversationHistory := [];
           breakthroughs := [];
           rehearsalAttempts :=
             <[scenarioId := (default 0 (rehearsalAttempts st !! scenarioId) + 1)%Z]>
               (rehearsalAttempts st);
           scenarios := scenarios st;
           nathanNotes := nathanNotes st;
           timers := timers st |}
  end.

(** What can happen during a run of the engine: the user picks a choice, or
    a pending timer fires. *)
Inductive Event :=
| EvChoice (now : Z) (c : Choice)
| EvTimer (now : Z) (i : nat).

(** Running the [i]-th pending callback.  The callbacks that only write to
    the DOM leave the state as it is. *)
Definition fire (now : Z) (i : nat) (st : AppState) : AppState :=
  match timers st !! i with
  | None => st
  | Some t =>
      let st := with_timers (delete i (timers st)) st in
      match t with
      | TaskDisplayScene s => (displayScene now s st).1
      | TaskShowCharacterDialogue _ => st
      | TaskDisplayChoices _ => st
      | TaskEndConversation _ => st
      end
  end.

Definition step (st : AppState) (e : Event) : AppState :=
  match e with
  | EvChoice now c => (makeChoice now c st).1
  | EvTimer now i => fire now i st
  end.

Definition run (evs : list Event) (st : AppState) : AppState :=
  fold_left step evs st.

Definition is_choice (e : Event) : bool :=
  match e with EvChoice _ _ => true | EvTimer _ _ => false end.

(** The number of choices made during [evs]. *)
Definition choices_made (evs : list Event) : nat :=
  length (List.filter is_choice evs).

(** The three stats of the player all hold a number within [[0, 10]]. *)
Definition stat_ok (stats : gmap string num) (stat : string) : Prop :=
  exists z, stats !! stat = Some (Int z) /\ (0 <= z <= 10)%Z.

Definition stats_ok (stats : gmap string num) : Prop :=
  stat_ok stats "empathy" /\ stat_ok stats "trust" /\ stat_ok stats "effectiveness".

(** Example data: a scenario of two scenes. *)
Definition ex_intro : Scene :=
  {| id := "intro"; scene_text := "You text Alex."; dialogue := Some "Hey...";
     choices := []; isBreakthrough := false; isEnd := false; outcome := None |}.

Definition ex_open_up : Scene :=
  {| id := "open-up"; scene_text := "Alex opens up."; dialogue := None;
     choices := []; isBreakthrough := true; isEnd := true; outcome := Some "success" |}.

Definition ex_scenario : Scenario :=
  {| title := "Checking on a Friend"; scenes := [ex_intro; ex_open_up] |}.

(** A state at the start of a run of 'friend-checkin'. *)
Definition ex_state : AppState :=
  {| currentScenario := Some "friend-checkin"; currentScene := SceneId "intro";
     playerStats := <["empathy" := Int 0]> (<["trust" := Int 0]>
                      (<["effectiveness" := Int 0]> ∅));
     conversationHistory := []; breakthroughs := [];
     rehearsalAttempts := <["friend-checkin" := 1%Z]> ∅;
     scenarios := <["friend-checkin" := ex_scenario]> ∅;
     nathanNotes := ["Document everything."]; timers := [] |}.

Definition ex_choice_big : Choice :=
  {| text := "Listen"; impact := Some [("empathy", 250%Z); ("trust", (-40)%Z)];
     next := Some "open-up"; choice_isEnd := false |}.

(** A choice whose [next] is the success marker, which is no scene id. *)
Definition ex_choice_success : Choice :=
  {| text := "Thank them"; impact := None; next := Some "success";
     choice_isEnd := false |}.

(** A choice whose [next] names no scene and is no marker. *)
Definition ex_choice_dangling : Choice :=
  {| text := "Change the subject"; impact := Some [("trust", (-1)%Z)];
     next := Some "scene-that-does-not-exist"; choice_isEnd := false |}.

End Conversation.

(** ** Strings: the [String.prototype] methods the code uses *)

Module Text.

Definition chars (s : string) : list ascii := list_ascii_of_string s.
Definition str (l : list ascii) : string := string_of_list_ascii l.

Definition code (c : ascii) : N := N_of_ascii c.

(** The line feed, [\n]. *)
Definition nl : ascii := "010"%char.

(** The no-break space, U+00A0. *)
Definition nbsp : ascii := "160"%char.

(** [\s], and what [trim] strips: the code units of [WhiteSpace] and
    [LineTerminator] below 256, which are 9 to 13, 32 and the no-break space
    160. *)
Definition is_space (c : ascii) : bool :=
  ((9 <=? code c) && (code c <=? 13) || (code c =? 32) || (code c =? 160))%N.

(** What [.] does not match. *)
Definition is_line_terminator (c : ascii) : bool :=
  ((code c =? 10) || (code c =? 13))%N.

(** [\d]. *)
Definition is_digit (c : ascii) : bool :=
  ((48 <=? code c) && (code c <=? 57))%N.

(** The lower case of a code unit below 256: [A-Z], and the capital letters
    192 to 222 of Latin-1 without the multiplication sign 215. *)
Definition lower (c : ascii) : ascii :=
  if ((65 <=? code c) && (code c <=? 90)
      || (192 <=? code c) && (code c <=? 222) && negb (code c =? 215))%N
  then ascii_of_N (code c + 32) else c.

(** [s.toLowerCase()]. *)
Definition toLowerCase (s : string) : string := str (map lower (chars s)).

(** [s.startsWith(t)], on characters. *)
Fixpoint starts_with (t s : list ascii) : bool :=
  match t, s with
  | [], _ => true
  | _ :: _, [] => false
  | a :: t', b :: s' => Ascii.eqb a b && starts_with t' s'
  end.

Fixpoint includes_chars (s t : list ascii) : bool :=
  starts_with t s ||
  match s with
  | [] => false
  | _ :: s' => includes_chars s' t
  end.

(** [s.includes(t)]. *)
Definition includes (s t : string) : bool := includes_chars (chars s) (chars t).

Fixpoint drop_spaces (l : list ascii) : list ascii :=
  match l with
  | [] => []
  | c :: l' => if is_space c then drop_spaces l' else l
  end.

Definition trim_chars (l : list ascii) : list ascii :=
  rev (drop_spaces (rev (drop_spaces l))).

(** [s.trim()]. *)
Definition trim (s : string) : string := str (trim_chars (chars s)).

(** A string that [trim] leaves as it is. *)
Definition trimmed (l : list ascii) : Prop := trim_chars l = l.

(** The first character of [s] exists and satisfies [p]. *)
Definition head_is (p : ascii -> bool) (s : list ascii) : bool :=
  match s with
  | [] => false
  | c :: _ => p c
  end.

End Text.

(** ** Regular expressions: the backtracking matcher of [RegExp.prototype.exec]

    Only the constructs the code's patterns use.  Alternatives are tried in
    the order ECMAScript tries them: the left branch of [|] first, one more
    iteration of a greedy quantifier before its continuation, the
    continuation of a lazy quantifier before one more iteration. *)

Module RegExp.
Import Text.

Inductive re :=
| Eps
| Chr (c : ascii)                         (* a literal character *)
| Cls (p : ascii -> bool)                 (* a character class *)
| Seq (r1 r2 : re)
| Alt (r1 r2 : re)                        (* [r1|r2] *)
| Star (greedy : bool) (r : re)           (* [r*] and [r*?] *)
| Group (r : re)                          (* the capture group [(r)] of the pattern *)
| Ahead (r : re)                          (* [(?=r)] *)
| Eoi.                                    (* [$], no [m] flag *)

Definition Plus (r : re) : re := Seq r (Star true r).         (* [r+] *)
Definition Opt (r : re) : re := Alt r Eps.                    (* [r?] *)
Definition Dot : re := Cls (fun c => negb (is_line_terminator c)).   (* [.] *)
Definition Space : re := Cls is_space.                         (* [\s] *)
Definition Digit : re := Cls is_digit.                         (* [\d] *)

Fixpoint Lit (l : list ascii) : re :=
  match l with
  | [] => Eps
  | c :: l' => Seq (Chr c) (Lit l')
  end.

(** The rest of the input after a match, and what group 1 captured. *)
Definition result : Type := list ascii * option (list ascii).
Definition cont : Type := list ascii -> option (list ascii) -> option result.
Definition matcher : Type := list ascii -> option (list ascii) -> cont -> option result.

(** The iterations of a quantifier.  Each iteration has to consume input,
    so [length s] iterations are enough on the input [s]. *)
Fixpoint star_loop (body : matcher) (greedy : bool) (k : cont)
    (n : nat) (s : list ascii) (cap : option (list ascii)) : option result :=
  let more :=
    match n with
    | 0 => None
    | S n' =>
        body s cap (fun s1 c1 =>
          if length s1 <? length s then star_loop body greedy k n' s1 c1 else None)
    end in
  if greedy
  then match more with Some x => Some x | None => k s cap end
  else match k s cap with Some x => Some x | None => more end.

(** [mt r s cap k]: match [r] at the head of [s], then continue with [k]. *)
Fixpoint mt (r : re) (s : list ascii) (cap : option (list ascii)) (k : cont)
  : option result :=
  match r with
  | Eps => k s cap
  | Chr c =>
      match s with
      | a :: s' => if Ascii.eqb a c then k s' cap else None
      | [] => None
      end
  | Cls p =>
      match s with
      | a :: s' => if p a then k s' cap else None
      | [] => None
      end
  | Seq r1 r2 => mt r1 s cap (fun s1 c1 => mt r2 s1 c1 k)
  | Alt r1 r2 =>
      match mt r1 s cap k with
      | Some x => Some x
      | None => mt r2 s cap k
      end
  | Star greedy r1 => star_loop (mt r1) greedy k (length s) s cap
  | Group r1 =>
      mt r1 s cap (fun s1 _ => k s1 (Some (take (length s - length s1) s)))
  | Ahead r1 =>
      match mt r1 s cap (fun s1 c1 => Some (s1, c1)) with
      | Some (_, c1) => k s c1
      | None => None
      end
  | Eoi =>
      match s with
      | [] => k s cap
      | _ :: _ => None
      end
  end.

Definition accept : cont := fun s cap => Some (s, cap).

(** A successful match: the input from the index of the match on, the input
    after the match, and group 1. *)
Record Match := {
  m_input : list ascii;
  m_after : list ascii;
  m_group : option (list ascii)
}.

(** [re.exec(s)] for a pattern without flags: the first index, from the
    left, at which the pattern matches. *)
Fixpoint exec (r : re) (s : list ascii) : option Match :=
  match mt r s None accept with
  | Some (s', cap) => Some {| m_input := s; m_after := s'; m_group := cap |}
  | None =>
      match s with
      | [] => None
      | _ :: s' => exec r s'
      end
  end.

(** The number of matches [s.match(re)] returns for a pattern with the [g]
    flag: after a match the search resumes where the match ended, one
    character further on after an empty match. *)
Fixpoint count_matches (fuel : nat) (r : re) (s : list ascii) : nat :=
  match fuel with
  | 0 => 0
  | S fuel' =>
      match exec r s with
      | None => 0
      | Some m =>
          if length (m_after m) <? length (m_input m)
          then S (count_matches fuel' r (m_after m))
          else match m_after m with
               | [] => 1
               | _ :: s' => S (count_matches fuel' r s')
               end
      end
  end.

Definition match_count (r : re) (s : list ascii) : nat :=
  count_matches (S (length s)) r s.

(** [s.split(re)]: [piece] is the text since the last separator, reversed. *)
Fixpoint split_loop (fuel : nat) (r : re) (piece : list ascii) (s : list ascii)
  : list (list ascii) :=
  match fuel with
  | 0 => [rev piece ++ s]
  | S fuel' =>
      match s with
      | [] => [rev piece]
      | c :: s' =>
          match mt r s None accept with
          | None => split_loop fuel' r (c :: piece) s'
          | Some (s1, _) =>
              if (length s1 =? length s) && (length piece =? 0)
              then split_loop fuel' r (c :: piece) s'
              else rev piece :: split_loop fuel' r [] s1
          end
      end
  end.

Definition split (r : re) (s : list ascii) : list (list ascii) :=
  match s with
  | [] => match mt r [] None accept with Some _ => [] | None => [[]] end
  | _ :: _ => split_loop (S (2 * length s)) r [] s
  end.

(** [s.split(sep)] for a one-character string [sep]. *)
Fixpoint split_on (sep : ascii) (s : list ascii) : list (list ascii) :=
  match s with
  | [] => [[]]
  | c :: s' =>
      if Ascii.eqb c sep then [] :: split_on sep s'
      else match split_on sep s' with
           | piece :: pieces => (c :: piece) :: pieces
           | [] => [[c]]
           end
  end.

(** [new RegExp(source)] for a source whose only metacharacter is [.]. *)
Definition RegExp_of_source (source : string) : re :=
  fold_right (fun c r => Seq (if Ascii.eqb c "."%char then Dot else Chr c) r)
             Eps (chars source).

(** The first index at which [t] occurs in [s]. *)
Fixpoint indexOf (t s : list ascii) : option nat :=
  if starts_with t s then Some 0
  else match s with
       | [] => None
       | _ :: s' => S <$> indexOf t s'
       end.

End RegExp.

(** ** [api/routes/scripts.ts]: script scoring and the update route *)

Module Scripts.
Import Text RegExp.

Definition awkwardPhrases : list string := ["um"; "uh"; "so..."; "actually"; "interesting"].
Definition preparationWords : list string := ["plan"; "strategy"; "calculated"; "rehearse"; "practice"].
Definition statisticsWords : list string := ["percent"; "%"; "study"; "research"; "data"].

(** [(script.toLowerCase().match(new RegExp(phrase, 'g')) || []).length]. *)
Definition phrase_count (script phrase : string) : Z :=
  Z.of_nat (match_count (RegExp_of_source phrase) (chars (toLowerCase script))).

(** One of the three [forEach] loops: [level += count * weight]. *)
Definition add_counts (script : string) (weight : Z) (phrases : list string) (level : Z) : Z :=
  fold_left (fun level phrase => (level + phrase_count script phrase * weight)%Z) phrases level.

(** [script.split(/\s+/).length]. *)
Definition wordCount (script : string) : Z :=
  Z.of_nat (length (split (Plus Space) (chars script))).

Definition calculateNathanLevel (script : string) (enhancements : list string) : Z :=
  let level := 20%Z in                                      (* Base level *)
  (* Word count bonus *)
  let level := (level + Z.min 20 (wordCount script / 50))%Z in
  (* Content analysis bonus *)
  let level := add_counts script 2 awkwardPhrases level in
  let level := add_counts script 3 preparationWords level in
  let level := add_counts script 4 statisticsWords level in
  (* Enhancement bonus *)
  let level := (level + Z.of_nat (length enhancements) * 5)%Z in
  (* Special bonuses *)
  let level := if includes script "flowchart" || includes script "diagram"
               then (level + 10)%Z else level in
  let level := if includes script "replica" || includes script "build"
               then (level + 12)%Z else level in
  let level := if includes script "147" || includes script "73"
               then (level + 8)%Z else level in
  Z.min 100 level.

Record Frame := { emoji : string; frame_description : string }.

(** A row of the script table.  The JSON text columns are held as the values
    they serialize. *)
Record Script := {
  id : string;
  userId : string;
  title : string;
  originalScript : string;
  enhancedScript : option string;
  template : string;
  enhancements : list string;
  nathanLevel : Z;
  draftNumber : Z;
  productionNotes : list string;
  storyboardFrames : list Frame;
  status : string;
  createdAt : Z;
  updatedAt : Z
}.

(** A request body of the right types for [updateScriptSchema]. *)
Record UpdateBody := {
  u_title : option string;
  u_originalScript : option string;
  u_enhancedScript : option string;
  u_enhancements : option (list string);
  u_productionNotes : option (list string);
  u_storyboardFrames : option (list Frame)
}.

(** The length constraints of [updateScriptSchema]. *)
Definition updateScriptSchema (b : UpdateBody) : bool :=
  match u_title b with
  | Some t => 1 <=? String.length t
  | None => true
  end &&
  match u_originalScript b with
  | Some s => ((10 <=? Z.of_nat (String.length s))
               && (Z.of_nat (String.length s) <=? 10000))%Z
  | None => true
  end.

(** A string-valued optional field, as the condition of an [if] or the left
    operand of [||]: absent and empty are falsy. *)
Definition truthy (o : option string) : option string :=
  match o with
  | Some s => if String.eqb s EmptyString then None else Some s
  | None => None
  end.

Record UpdateReply := {
  r_id : string;
  r_title : string;
  r_nathanLevel : Z;
  r_draftNumber : Z;
  r_updatedAt : Z
}.

Inductive PutResult :=
| PutError (code : string) (statusCode : Z)
| PutOk (script : UpdateReply).

(** The row after [prisma.script.update({ where: { id }, data: updates })]. *)
Definition apply_updates (now : Z) (updateData : UpdateBody) (existingScript : Script) : Script :=
  let text := default (originalScript existingScript) (truthy (u_originalScript updateData)) in
  {| id := id existingScript;
     userId := userId existingScript;
     title := default (title existingScript) (truthy (u_title updateData));
     originalScript := text;
     enhancedScript :=
       match truthy (u_enhancedScript updateData) with
       | Some e => Some e
       | None => enhancedScript existingScript
       end;
     template := template existingScript;
     enhancements := default (enhancements existingScript) (u_enhancements updateData);
     nathanLevel :=
       match u_enhancements updateData with
       | Some enh => calculateNathanLevel text enh     (* Recalculate Nathan level *)
       | None => nathanLevel existingScript
       end;
     draftNumber :=
       (* Increment draft number if content changed *)
       match truthy (u_originalScript updateData), truthy (u_enhancedScript updateData) with
       | None, None => draftNumber existingScript
       | _, _ => (draftNumber existingScript + 1)%Z
       end;
     productionNotes := default (productionNotes existingScript) (u_productionNotes updateData);
     storyboardFrames := default (storyboardFrames existingScript) (u_storyboardFrames updateData);
     status := status existingScript;
     createdAt := createdAt existingScript;
     updatedAt := now |}.

(** [PUT /api/scripts/:id] for the authenticated user [user]. *)
Definition putScript (now : Z) (user : string) (scriptId : string) (body : UpdateBody)
    (db : gmap string Script) : PutResult * gmap string Script :=
  if negb (updateScriptSchema body)
  then (PutError "VALIDATION_ERROR" 400, db)
  else
    (* Verify ownership *)
    match db !! scriptId with
    | Some existingScript =>
        if String.eqb (userId existingScript) user
        then
          let updatedScript := apply_updates now body existingScript in
          (PutOk {| r_id := id updatedScript; r_title := title updatedScript;
                    r_nathanLevel := nathanLevel updatedScript;
                    r_draftNumber := draftNumber updatedScript;
                    r_updatedAt := updatedAt updatedScript |},
           <[scriptId := updatedScript]> db)
        else (PutError "SCRIPT_NOT_FOUND" 404, db)
    | None => (PutError "SCRIPT_NOT_FOUND" 404, db)
    end.

(** Example data: a script created at level 43 and enhanced once since. *)
Definition ex_script : Script :=
  {| id := "s-1"; userId := "u-1"; title := "Checking in";
     originalScript := "So... um, I made a plan to practice this talk 147 times.";
     enhancedScript := None; template := "custom"; enhancements := ["awkwardness"];
     nathanLevel := 48; draftNumber := 3; productionNotes := []; storyboardFrames := [];
     status := "DRAFT"; createdAt := 1700000000000; updatedAt := 1700000000000 |}.

Definition ex_db : gmap string Script := <["s-1" := ex_script]> ∅.

(** An update of the title alone. *)
Definition ex_update_title : UpdateBody :=
  {| u_title := Some "Checking in, again"; u_originalScript := None;
     u_enhancedScript := None; u_enhancements := None;
     u_productionNotes := None; u_storyboardFrames := None |}.

(** An update of the text and of the enhancement list. *)
Definition ex_update_text : UpdateBody :=
  {| u_title := None;
     u_originalScript := Some "I built a replica of the room and a flowchart of the talk.";
     u_enhancedScript := None; u_enhancements := Some ["diagrams"; "replicas"];
     u_productionNotes := None; u_storyboardFrames := None |}.

End Scripts.

(** ** The AI service: [AIService.parseAnalysisResponse] *)

Module AIService.
Import Text RegExp.

Record Breakdown := {
  dialogueQuality : N;
  preparationLevel : N;
  awkwardnessAuthenticity : N;
  statisticalCredibility : N
}.

Record AnalysisResult := {
  awkwardnessScore : N;
  complexityRating : N;
  optimalityScore : N;
  nathanObservation : string;
  improvementSuggestions : list string;
  breakdown : Breakdown
}.

Definition defaultValues : AnalysisResult :=
  {| awkwardnessScore := 73;
     complexityRating := 67;
     optimalityScore := 81;
     nathanObservation := "This script shows promise but needs more statistical backing and at least 47 additional rehearsals.";
     improvementSuggestions :=
       [ "Add more specific timing for awkward pauses";
         "Include backup dialogue for when the first option fails";
         "Consider building a scale model of the location" ];
     breakdown :=
       {| dialogueQuality := 75; preparationLevel := 68;
          awkwardnessAuthenticity := 82; statisticalCredibility := 45 |} |}.

(** The pattern for a score: the label, [\s*], and [\d+] as group 1. *)
Definition score_re (label : string) : re :=
  Seq (Lit (chars label)) (Seq (Star true Space) (Group (Plus Digit))).

(** The pattern for the observation: the label, [\s*], as group 1 a lazy
    run of [.], and the lookahead for [\n\n], [\nIMPROVEMENT_SUGGESTIONS] or
    the end of the input. *)
Definition paragraph_end : re :=
  Alt (Lit [nl; nl]) (Alt (Lit (nl :: chars "IMPROVEMENT_SUGGESTIONS")) Eoi).

Definition observation_re : re :=
  Seq (Lit (chars "NATHAN_OBSERVATION:"))
    (Seq (Star true Space)
       (Seq (Group (Star false Dot)) (Ahead paragraph_end))).

(** The body of the repeated group: an optional [\n], a dash, a greedy run
    of [.]. *)
Definition dash_line : re := Seq (Opt (Chr nl)) (Seq (Chr "-") (Star true Dot)).

(** The pattern for the suggestions: the label, [\s*], and as group 1 one
    or more repetitions of the dash line. *)
Definition suggestions_re : re :=
  Seq (Lit (chars "IMPROVEMENT_SUGGESTIONS:"))
    (Seq (Star true Space) (Group (Plus dash_line))).

(** [parseInt] on a capture of [\d+], a non-empty string of digits: the
    number the digits denote, which is what the source returns up to
    [2^53]. *)
Definition parseInt (digits : list ascii) : N :=
  match NilEmpty.uint_of_string (str digits) with
  | Some d => N.of_uint d
  | None => 0
  end.

(** Group 1 of [response.match(r)], when the pattern matches. *)
Definition capture (r : re) (response : string) : option (list ascii) :=
  match exec r (chars response) with
  | Some m => Some (default [] (m_group m))
  | None => None
  end.

(** [match ? parseInt(match[1]) : fallback]. *)
Definition score (label : string) (fallback : N) (response : string) : N :=
  match capture (score_re label) response with
  | Some digits => parseInt digits
  | None => fallback
  end.

(** [line.replace(/^-\s*/, '')]. *)
Definition strip_dash (line : list ascii) : list ascii :=
  match mt (Seq (Chr "-") (Star true Space)) line None accept with
  | Some (rest, _) => rest
  | None => line
  end.

(** [match[1].split('\n').filter(...).map(...)]. *)
Definition dash_items (group : list ascii) : list string :=
  map (fun line => str (trim_chars (strip_dash line)))
      (List.filter (fun line => starts_with ["-"%char] (trim_chars line))
                   (split_on nl group)).

(** [parseAnalysisResponse(response)].  No call in the [try] block throws,
    so its [catch] branch is never taken. *)
Definition parseAnalysisResponse (response : string) : AnalysisResult :=
  let suggestions :=
    match capture suggestions_re response with
    | Some group => dash_items group
    | None => improvementSuggestions defaultValues
    end in
  {| awkwardnessScore :=
       score "AWKWARDNESS_SCORE:" (awkwardnessScore defaultValues) response;
     complexityRating :=
       score "COMPLEXITY_RATING:" (complexityRating defaultValues) response;
     optimalityScore :=
       score "OPTIMALITY_SCORE:" (optimalityScore defaultValues) response;
     nathanObservation :=
       match capture observation_re response with
       | Some text => str (trim_chars text)
       | None => nathanObservation defaultValues
       end;
     improvementSuggestions := take 5 suggestions;
     breakdown :=
       {| dialogueQuality :=
            score "DIALOGUE_QUALITY:" (dialogueQuality (breakdown defaultValues)) response;
          preparationLevel :=
            score "PREPARATION_LEVEL:" (preparationLevel (breakdown defaultValues)) response;
          awkwardnessAuthenticity :=
            score "AWKWARDNESS_AUTHENTICITY:"
                  (awkwardnessAuthenticity (breakdown defaultValues)) response;
          statisticalCredibility :=
            score "STATISTICAL_CREDIBILITY:"
                  (statisticalCredibility (breakdown defaultValues)) response |} |}.

(** *** Well-formed labeled blocks *)

(** The decimal numeral of [n]. *)
Definition decimal (n : N) : list ascii :=
  chars (NilEmpty.string_of_uint (N.to_uint n)).

(** [response] labels the number [n] with [label]: at the first occurrence
    of the label, the label is followed by optional whitespace and the
    numeral of [n], and the numeral ends there.  The bound on [n] is the
    range in which the double that [parseInt] returns is exact. *)
Definition labels_score (label : string) (n : N) (response : string) : Prop :=
  exists pre ws rest,
    chars response = pre ++ chars label ++ ws ++ decimal n ++ rest /\
    indexOf (chars label) (chars response) = Some (length pre) /\
    Forall (fun c => is_space c = true) ws /\
    head_is is_digit rest = false /\
    (n <= 2 ^ 53)%N.

Definition no_line_terminator (l : list ascii) : Prop :=
  Forall (fun c => is_line_terminator c = false) l.

(** [response] labels the one-line, trimmed, non-empty paragraph [text] as
    the observation: it follows the first occurrence of the label after
    optional whitespace, and is followed by a blank line, by the suggestions
    label on the next line, or by the end of the response. *)
Definition labels_observation (text : string) (response : string) : Prop :=
  exists pre ws rest,
    chars response = pre ++ chars "NATHAN_OBSERVATION:" ++ ws ++ chars text ++ rest /\
    indexOf (chars "NATHAN_OBSERVATION:") (chars response) = Some (length pre) /\
    Forall (fun c => is_space c = true) ws /\
    chars text <> [] /\
    trimmed (chars text) /\
    no_line_terminator (chars text) /\
    (rest = [] \/ starts_with [nl; nl] rest = true
     \/ starts_with (nl :: chars "IMPROVEMENT_SUGGESTIONS") rest = true).

(** A suggestion line: the dash, blanks, and the item. *)
Definition dash_text (line : list ascii * string) : list ascii :=
  "-"%char :: line.1 ++ chars line.2.

(** Further suggestion lines, each on a line of its own. *)
Definition more_lines (lines : list (list ascii * string)) : list ascii :=
  concat (map (fun l => nl :: dash_text l) lines).

(** Suggestion lines, one under the other. *)
Definition dash_block (lines : list (list ascii * string)) : list ascii :=
  match lines with
  | [] => []
  | line :: lines' => dash_text line ++ more_lines lines'
  end.

(** Where the suggestion lines end: at the end of the response, or at a line
    terminator that no dash follows. *)
Definition line_end (rest : list ascii) : Prop :=
  rest = [] \/
  (head_is is_line_terminator rest = true /\ starts_with [nl; "-"%char] rest = false).

Definition line_ok (line : list ascii * string) : Prop :=
  Forall (fun c => is_space c = true) line.1 /\
  no_line_terminator line.1 /\
  trimmed (chars line.2) /\
  no_line_terminator (chars line.2).

(** [response] labels the items [items] as the suggestions: after the first
    occurrence of the label and optional whitespace come the dash lines of
    the items, one per line, and the line after them, if any, starts with no
    dash. *)
Definition labels_suggestions (items : list string) (response : string) : Prop :=
  exists pre ws lines rest,
    items = map snd lines /\
    lines <> [] /\
    chars response
      = pre ++ chars "IMPROVEMENT_SUGGESTIONS:" ++ ws ++ dash_block lines ++ rest /\
    indexOf (chars "IMPROVEMENT_SUGGESTIONS:") (chars response) = Some (length pre) /\
    Forall (fun c => is_space c = true) ws /\
    Forall line_ok lines /\
    line_end rest.

(** Example data: a reply in the format the prompt asks for, and a reply
    without any label. *)
Definition unlines (ls : list string) : string :=
  match ls with
  | [] => EmptyString
  | l :: ls' => fold_left (fun acc x => acc +:+ String nl x) ls' l
  end.

Definition ex_block : string :=
  unlines
    [ "AWKWARDNESS_SCORE: 85";
      "COMPLEXITY_RATING: 70";
      "OPTIMALITY_SCORE: 90";
      EmptyString;
      "DIALOGUE_QUALITY: 80";
      "PREPARATION_LEVEL: 75";
      "AWKWARDNESS_AUTHENTICITY: 88";
      "STATISTICAL_CREDIBILITY: 60";
      EmptyString;
      "NATHAN_OBSERVATION: This reminds me of rehearsal attempt 147.";
      EmptyString;
      "IMPROVEMENT_SUGGESTIONS:";
      "- Add a 3.7 second pause";
      "- Build a replica of the room";
      "- Hire 73 actors" ]%string.

Definition ex_analysis : AnalysisResult :=
  {| awkwardnessScore := 85;
     complexityRating := 70;
     optimalityScore := 90;
     nathanObservation := "This reminds me of rehearsal attempt 147.";
     improvementSuggestions :=
       [ "Add a 3.7 second pause"; "Build a replica of the room"; "Hire 73 actors" ];
     breakdown :=
       {| dialogueQuality := 80; preparationLevel := 75;
          awkwardnessAuthenticity := 88; statisticalCredibility := 60 |} |}.

Definition ex_unlabeled : string := "I am sorry, I cannot analyze this script.".

End AIService.

(** ** [server.js]: the in-memory conversation server *)

Module Server.
Import Js Text.

Record Responses := {
  initial : string;
  patterns : gmap string (list string)
}.

Record Scenario := {
  title : string;
  description : string;
  difficulty : string;
  initialMessage : string;
  aiPersona : string;
  responses : Responses
}.

(** The scenario table. *)
Definition scenario_friend_checkin : Scenario :=
  {| title := "Checking on a Friend";
     description := "You've noticed your friend Alex has been quieter lately, missing social gatherings, and seems withdrawn. Practice reaching out with empathy and active listening.";
     difficulty := "beginner";
     initialMessage := "You decide to text Alex, who you haven't heard from in a few weeks...";
     aiPersona := "You are Alex, someone who has been struggling with depression but hasn't talked to anyone about it. You're hesitant to open up but gradually open up if the person shows real empathy and doesn't try to 'fix' everything immediately.";
     responses :=
       {| initial := "Hey... I'm okay I guess. Just been really busy with work lately.";
          patterns := list_to_map [
            ("empathy", ["Thanks for asking... it means a lot that you noticed.";
               "I appreciate you checking in. I have been struggling a bit."]);
            ("questions", ["I've been feeling pretty overwhelmed lately, to be honest.";
               "It's hard to explain... just feeling really down."]);
            ("solutions", ["I know you want to help, but I'm not ready for advice right now.";
               "Maybe... I just need someone to listen for now."])] |} |}.

Definition scenario_therapy_suggestion : Scenario :=
  {| title := "Suggesting Therapy";
     description := "Your friend has been sharing their struggles with anxiety and depression. You think therapy could help, but they've been resistant to the idea.";
     difficulty := "intermediate";
     initialMessage := "During a coffee chat, your friend mentions they've been having a really hard time lately...";
     aiPersona := "You are someone dealing with anxiety and depression who is resistant to therapy due to cost concerns, stigma, and doubt about its effectiveness.";
     responses :=
       {| initial := "I don't know... I've been thinking about therapy but it seems so expensive. And what if they just think I'm being dramatic?";
          patterns := list_to_map [
            ("cost", ["Yeah, the cost is really what's holding me back. I can barely afford rent as it is.";
               "I looked into it but even with insurance it's still expensive."]);
            ("stigma", ["I grew up thinking therapy was for 'crazy' people. It's hard to shake that feeling.";
               "What if people find out? I'm worried about being judged."]);
            ("effectiveness", ["How do I know it will even work? What if I'm just wasting money?";
               "I've heard mixed things about therapy. Some people say it helped, others say it didn't."])] |} |}.

Definition scenario_workplace_mental_health : Scenario :=
  {| title := "Workplace Mental Health";
     description := "A colleague seems to be struggling and their work performance has changed. Navigate this sensitive conversation with appropriate professional boundaries.";
     difficulty := "intermediate";
     initialMessage := "You notice a colleague has seemed overwhelmed and stressed lately...";
     aiPersona := "You are a coworker dealing with burnout and stress but trying to maintain professionalism. You're worried about job security.";
     responses :=
       {| initial := "I'm fine, just a lot on my plate right now. I can handle it.";
          patterns := list_to_map [
            ("workload", ["The deadlines have been really intense lately.";
               "I'm trying to keep up but there's just so much to do."]);
            ("support", ["I appreciate you asking... I guess I have been struggling to keep up.";
               "It's nice to know someone noticed. I've been trying to hide it."]);
            ("boundaries", ["I don't want to burden you with work problems.";
               "I'm not sure if I should be talking about this at work."])] |} |}.

Definition scenario_family_conversation : Scenario :=
  {| title := "Family Discussion";
     description := "You want to talk to a family member about mental health, but there are generational differences and potential stigma to navigate.";
     difficulty := "intermediate";
     initialMessage := "You're visiting family and want to check in with a relative who seems to be struggling...";
     aiPersona := "You are an older family member who believes in 'toughing things out' and sees therapy as a sign of weakness.";
     responses :=
       {| initial := "Mental health? We didn't have that when I was growing up. We just dealt with our problems.";
          patterns := list_to_map [
            ("generational", ["In my day, we didn't talk about feelings all the time.";
               "People are too soft nowadays. We just pushed through."]);
            ("concern", ["Maybe you're right... I have been feeling different lately.";
               "I suppose things were harder to talk about back then."]);
            ("resistance", ["I don't need a stranger telling me what's wrong with my life.";
               "I've made it this far without help, haven't I?"])] |} |}.

Definition scenario_crisis_response : Scenario :=
  {| title := "Crisis Response";
     description := "Someone has just expressed thoughts of suicide. This is a practice scenario for learning appropriate crisis intervention techniques.";
     difficulty := "advanced";
     initialMessage := "During a conversation, someone you care about mentions they've been having thoughts of ending their life...";
     aiPersona := "You are someone in emotional crisis who has been having suicidal thoughts. You're scared but also feel hopeless.";
     responses :=
       {| initial := "I've been thinking... maybe everyone would be better off if I wasn't here anymore.";
          patterns := list_to_map [
            ("direct", ["Yes... I have been thinking about ending my life.";
               "It scares me to say it out loud, but yes, I've been having those thoughts."]);
            ("support", ["Thank you for asking directly. It helps to know someone cares.";
               "I'm scared but I don't know what else to do."]);
            ("hopeless", ["I just don't see a way out of this pain.";
               "Everything feels impossible right now."])] |} |}.

Definition scenario_self_advocacy : Scenario :=
  {| title := "Self-Advocacy";
     description := "Practice asking for help and communicating your own mental health needs to friends, family, or healthcare providers.";
     difficulty := "beginner";
     initialMessage := "You've decided it's time to reach out for support with your mental health...";
     aiPersona := "You are a supportive friend who wants to help but isn't sure how.";
     responses :=
       {| initial := "Of course I want to help! What's going on? What can I do?";
          patterns := list_to_map [
            ("specific", ["That helps me understand. What kind of support would be most helpful?";
               "I appreciate you being specific about what you need."]);
            ("listening", ["I'm here to listen. Take your time.";
               "You don't have to explain everything at once."]);
            ("overwhelmed", ["This sounds like a lot to handle. I'm glad you reached out.";
               "I may not have all the answers, but I care about you."])] |} |}.

Definition scenario_going_to_doctor : Scenario :=
  {| title := "Going to the Doctor";
     description := "Practice advocating for your mental health with a healthcare provider who might not take your concerns seriously.";
     difficulty := "intermediate";
     initialMessage := "You're sitting in the doctor's office, waiting to discuss your mental health concerns...";
     aiPersona := "You are a busy doctor who sometimes dismisses mental health concerns or rushes through appointments. You need patients to be clear and persistent about their needs.";
     responses :=
       {| initial := "So what brings you in today? I see this is listed as a mental health consultation.";
          patterns := list_to_map [
            ("specific", ["Those are significant symptoms. How long have you been experiencing this?";
               "I can see this is affecting your quality of life. Let's discuss treatment options."]);
            ("vague", ["Can you be more specific about what you're experiencing?";
               "I need more details to understand how to help you."]);
            ("persistent", ["I appreciate you advocating for yourself. Let me refer you to a specialist.";
               "You're right to follow up on this. Mental health is important."])] |} |}.

Definition scenario_tough_work_conversation : Scenario :=
  {| title := "Tough Conversation at Work";
     description := "Navigate a difficult workplace discussion about requesting mental health accommodations with your manager.";
     difficulty := "intermediate";
     initialMessage := "You've scheduled a meeting with your manager to discuss mental health accommodations...";
     aiPersona := "You are a manager who cares about employee wellbeing but also needs to balance business needs. You appreciate clear communication and specific requests.";
     responses :=
       {| initial := "Thanks for scheduling this meeting. What did you want to discuss?";
          patterns := list_to_map [
            ("professional", ["I appreciate you being upfront about this. What accommodations would be helpful?";
               "Mental health is important. Let's work together on this."]);
            ("specific", ["Those sound like reasonable requests. Let me talk to HR about formalizing this.";
               "I can see how that would help. What's the timeline for implementing this?"]);
            ("vague", ["I want to support you, but I need more specifics about what you need.";
               "Help me understand what changes would make the biggest difference."])] |} |}.

Definition scenario_asking_someone_out : Scenario :=
  {| title := "Asking Someone Out";
     description := "Practice handling vulnerability and potential rejection while asking someone you're interested in on a date.";
     difficulty := "beginner";
     initialMessage := "You've been getting coffee with Alex from your book club for weeks. Today you want to ask them out...";
     aiPersona := "You are someone who enjoys spending time with the person but hasn't considered dating them yet. You appreciate honesty and directness.";
     responses :=
       {| initial := "I always enjoy our conversations! What's on your mind?";
          patterns := list_to_map [
            ("direct", ["Oh! I wasn't expecting that, but I'm flattered. Let me think about it.";
               "I appreciate you being honest about how you feel."]);
            ("respectful", ["I really value our friendship too. Thank you for being considerate about that.";
               "It means a lot that you'd put our friendship first."]);
            ("casual", ["That sounds fun! Are you thinking of this as a date, or just hanging out?";
               "I'd love to spend more time together. What did you have in mind?"])] |} |}.

Definition scenarios : gmap string Scenario :=
  list_to_map [
    ("friend-checkin", scenario_friend_checkin);
    ("therapy-suggestion", scenario_therapy_suggestion);
    ("workplace-mental-health", scenario_workplace_mental_health);
    ("family-conversation", scenario_family_conversation);
    ("crisis-response", scenario_crisis_response);
    ("self-advocacy", scenario_self_advocacy);
    ("going-to-doctor", scenario_going_to_doctor);
    ("tough-work-conversation", scenario_tough_work_conversation);
    ("asking-someone-out", scenario_asking_someone_out)].

(** Crisis keywords for detection. *)
Definition crisisKeywords : list string :=
  [ "suicide"; "kill myself"; "end it all"; "not worth living";
    "better off dead"; "hurt myself"; "self harm"; "cutting";
    "overdose"; "end my life"; "no point in living"; "worthless";
    "hopeless"; "give up"; "can't go on"; "want to die" ].

Record Message := {
  m_id : string;
  role : string;
  content : option string;                (* [None]: [undefined] *)
  timestamp : Z;
  m_isCrisis : option bool
}.

Record Conversation := {
  c_id : string;
  scenarioId : string;
  scenario : Scenario;
  messages : list Message;
  startTime : Z;
  state : string
}.

(** [conversation.messages.push(m)]. *)
Definition push_message (m : Message) (c : Conversation) : Conversation :=
  {| c_id := c_id c; scenarioId := scenarioId c; scenario := scenario c;
     messages := messages c ++ [m]; startTime := startTime c; state := state c |}.

Definition detectCrisis (message : string) : bool :=
  let lowerMessage := toLowerCase message in
  existsb (fun keyword => includes lowerMessage keyword) crisisKeywords.

(** The value of [responseCategory] after the [if]/[else if] chain. *)
Definition responseCategory (lowerMessage : string) : string :=
  if includes lowerMessage "sorry" || includes lowerMessage "understand"
     || includes lowerMessage "feel"
  then "empathy"
  else if includes lowerMessage "?"
  then "questions"
  else if includes lowerMessage "should" || includes lowerMessage "try"
          || includes lowerMessage "maybe"
  then "solutions"
  else "general".

(** Fallback to general responses. *)
Definition generalResponses : list string :=
  [ "I appreciate you saying that.";
    "That's helpful to hear.";
    "Can you tell me more about that?";
    "I'm glad we're talking about this." ].

(** The list bound to [possibleResponses].  An array is truthy even when
    empty, so only a missing property reaches the fallback. *)
Definition possibleResponses (sc : Scenario) (responseCategory : string) : list string :=
  match patterns (responses sc) !! responseCategory with
  | Some l => l
  | None => generalResponses
  end.

(** [generateAIResponse(conversation, userMessage)]; [r] is the draw of
    [Math.random()], and [None] is [undefined]. *)
Definition generateAIResponse (r : Z) (conversation : Conversation) (userMessage : string)
  : option string :=
  let lowerMessage := toLowerCase userMessage in
  random_pick r (possibleResponses (scenario conversation) (responseCategory lowerMessage)).

Record CrisisResources := {
  national : string;
  crisis : string;
  trevor : string
}.

(** What the message route sends back. *)
Inductive Reply :=
| ReplyError (status : Z) (error : string)
| ReplyCrisis (response : Message) (isCrisis : bool) (crisisResources : CrisisResources)
| ReplyMessage (response : Message) (isCrisis : bool).

(** The helpers a request ran, in order. *)
Inductive Call := CallDetectCrisis | CallGenerateAIResponse.

(** The inputs a request reads from its environment: two [uuidv4()] values,
    two [new Date()] values and one [Math.random()] draw. *)
Record Env := {
  uuid1 : string; uuid2 : string;
  now1 : Z; now2 : Z;
  random : Z
}.

(** The same environment with another [Math.random()] draw. *)
Definition with_random (r : Z) (env : Env) : Env :=
  {| uuid1 := uuid1 env; uuid2 := uuid2 env; now1 := now1 env; now2 := now2 env;
     random := r |}.

Record Outcome := {
  reply : Reply;
  store : gmap string Conversation;       (* the [conversations] map afterwards *)
  calls : list Call
}.

Definition crisisContent : string :=
  "I notice you mentioned something concerning. Your safety is the most important thing right now. Please consider reaching out to crisis resources.".

(** [!message || message.trim().length === 0], for a message that is absent
    or a string. *)
Definition message_is_empty (message : option string) : bool :=
  match message with
  | None => true
  | Some m => (String.length m =? 0)%nat || (String.length (trim m) =? 0)%nat
  end.

(** [POST /api/conversations/:id/messages]. *)
Definition postMessage (env : Env) (id : string) (message : option string)
    (conversations : gmap string Conversation) : Outcome :=
  match conversations !! id with
  | None =>
      {| reply := ReplyError 404 "Conversation not found";
         store := conversations; calls := [] |}
  | Some conversation =>
      if message_is_empty message
      then {| reply := ReplyError 400 "Message cannot be empty";
              store := conversations; calls := [] |}
      else
        let message := default EmptyString message in
        (* Add user message to conversation *)
        let userMessage :=
          {| m_id := uuid1 env; role := "user"; content := Some (trim message);
             timestamp := now1 env; m_isCrisis := None |} in
        let conversation := push_message userMessage conversation in
        (* Check for crisis content *)
        if detectCrisis message
        then
          let crisisResponse :=
            {| m_id := uuid2 env; role := "system"; content := Some crisisContent;
               timestamp := now2 env; m_isCrisis := Some true |} in
          {| reply := ReplyCrisis crisisResponse true
                        {| national := "988"; crisis := "741741";
                           trevor := "1-866-488-7386" |};
             store := <[id := push_message crisisResponse conversation]> conversations;
             calls := [CallDetectCrisis] |}
        else
          (* Generate AI response *)
          let aiResponse := generateAIResponse (random env) conversation message in
          let aiMessage :=
            {| m_id := uuid2 env; role := "ai"; content := aiResponse;
               timestamp := now2 env; m_isCrisis := None |} in
          {| reply := ReplyMessage aiMessage false;
             store := <[id := push_message aiMessage conversation]> conversations;
             calls := [CallDetectCrisis; CallGenerateAIResponse] |}
  end.

(** [POST /api/conversations/start], for a scenario id of the table. *)
Definition startConversation (uuid : string) (now : Z) (scenarioId : string)
    (conversations : gmap string Conversation)
  : option Conversation * gmap string Conversation :=
  match scenarios !! scenarioId with
  | None => (None, conversations)
  | Some sc =>
      let conversation :=
        {| c_id := uuid; scenarioId := scenarioId; scenario := sc; messages := [];
           startTime := now; state := "active" |} in
      (Some conversation, <[uuid := conversation]> conversations)
  end.

(** Every pattern list a scenario has is non-empty. *)
Definition patterns_nonempty (sc : Scenario) : Prop :=
  forall category l, patterns (responses sc) !! category = Some l -> l <> [].

(** Example data. *)
Definition ex_env : Env :=
  {| uuid1 := "3f2b8c1e-0001"; uuid2 := "3f2b8c1e-0002";
     now1 := 1700000000000; now2 := 1700000000001; random := 2 ^ 52 |}.

Definition ex_conversation (scenarioId : string) (sc : Scenario) : Conversation :=
  {| c_id := "c-1"; scenarioId := scenarioId; scenario := sc; messages := [];
     startTime := 1700000000000; state := "active" |}.

Definition ex_store : gmap string Conversation :=
  <["c-1" := ex_conversation "friend-checkin" scenario_friend_checkin]> ∅.

(** A scenario object whose empathy list is empty. *)
Definition scenario_empty_list : Scenario :=
  {| title := "Empty"; description := "A scenario with an empty pattern list.";
     difficulty := "beginner"; initialMessage := "..."; aiPersona := "...";
     responses := {| initial := "Hello."; patterns := <["empathy" := []]> ∅ |} |}.

(** The routes keep every stored conversation on a scenario whose pattern
    lists are non-empty. *)
Definition store_ok (conversations : gmap string Conversation) : Prop :=
  map_Forall (fun _ c => patterns_nonempty (scenario c)) conversations.

End Server.

(** ** The application around the engine: scenario selection and restart

    [ScenariosModule.selectScenario] is embedded with the engine above; here
    are the state set up at page load, the return to the scenario list, and
    the sequences of user actions and timer callbacks. *)

Module App.
Import Js Conversation.

(** [appState] after [initializeAppState()] and [loadScenarios()], with
    [data] the scenarios that were loaded. *)
Definition loadedState (data : gmap string Scenario) : AppState :=
  {| currentScenario := None;
     currentScene := SceneIndex 0;
     playerStats := <["empathy"%string := Int 5]>
                      (<["trust"%string := Int 5]>
                         (<["effectiveness"%string := Int 5]> ∅));
     conversationHistory := [];
     breakthroughs := [];
     rehearsalAttempts := ∅;
     scenarios := data;
     nathanNotes :=
       [ "This conversation structure mirrors episode 47 of my show, but with less awkward silence.";
         "Notice how the dialogue branches create exactly 1,024 possible outcomes? That's not a coincidence.";
         "In my experience, rehearsing conversations reduces real-world anxiety by approximately 73.4%.";
         "The key insight here is that every conversation is performance art, whether you realize it or not.";
         "I once rehearsed ordering coffee 127 times. This feels more important than that.";
         "Statistical analysis suggests you're developing genuine conversational confidence.";
         "Remember: in real life, there are no do-overs. But here, you can practice until perfect." ]%string;
     timers := [] |}.

(** [ScenariosModule.showScenarioSelection()], which [returnToScenarios]
    calls. *)
Definition showScenarioSelection (st : AppState) : AppState :=
  {| currentScenario := None;
     currentScene := SceneIndex 0;
     playerStats := playerStats st;
     conversationHistory := [];
     breakthroughs := breakthroughs st;
     rehearsalAttempts := rehearsalAttempts st;
     scenarios := scenarios st;
     nathanNotes := nathanNotes st;
     timers := timers st |}.

(** [ConversationModule.tryAgain()]: an empty id is falsy. *)
Definition tryAgain (now : Z) (st : AppState) : AppState :=
  match currentScenario st with
  | Some scenarioId =>
      if String.eqb scenarioId EmptyString then st
      else (selectScenario now scenarioId st).1
  | None => st
  end.

(** What the user and the timers can do to the state. *)
Inductive Action :=
| ASelect (now : Z) (scenarioId : string)   (* a scenario card is chosen *)
| ATryAgain (now : Z)
| AReturn
| AEngine (e : Event).

Definition act (st : AppState) (a : Action) : AppState :=
  match a with
  | ASelect now scenarioId => (selectScenario now scenarioId st).1
  | ATryAgain now => tryAgain now st
  | AReturn => showScenarioSelection st
  | AEngine e => step st e
  end.

Definition play (acts : list Action) (st : AppState) : AppState :=
  fold_left act acts st.

(** The actions whose lookups the maps describe: a selection by an id that
    is no inherited property name.  (A retry selects the id of an earlier
    selection.) *)
Definition selects_own (a : Action) : bool :=
  match a with
  | ASelect _ scenarioId => own_key scenarioId
  | _ => true
  end.

(** The scenario an action starts, if it starts one. *)
Definition starts (st : AppState) (a : Action) : option string :=
  match a with
  | ASelect _ scenarioId =>
      if bool_decide (is_Some (scenarios st !! scenarioId)) then Some scenarioId else None
  | ATryAgain _ =>
      match currentScenario st with
      | Some scenarioId =>
          if bool_decide (scenarioId <> EmptyString /\ is_Some (scenarios st !! scenarioId))
          then Some scenarioId else None
      | None => None
      end
  | AReturn => None
  | AEngine _ => None
  end.

(** The current scene names a scene of the scenario, or the entry ['intro']. *)
Definition scene_in (sc : Scenario) (r : SceneRef) : Prop :=
  r = SceneId "intro" \/ exists s, s ∈ scenes sc /\ r = SceneId (id s).

(** What holds in every state the application reaches from [loadedState data]. *)
Record reachable_ok (data : gmap string Scenario) (st : AppState) : Prop := {
  ok_scenarios : scenarios st = data;
  ok_current : forall scenarioId,
    currentScenario st = Some scenarioId -> is_Some (data !! scenarioId);
  ok_stats : stats_ok (playerStats st);
  ok_scene : forall scenarioId sc,
    currentScenario st = Some scenarioId -> data !! scenarioId = Some sc ->
    scene_in sc (currentScene st);
  ok_breakthroughs : forall scenarioId,
    currentScenario st = Some scenarioId ->
    Forall (fun b => b_scenario b = Some scenarioId) (breakthroughs st);
  ok_attempts : forall scenarioId n,
    rehearsalAttempts st !! scenarioId = Some n -> (1 <= n)%Z;
  ok_attempted : forall scenarioId,
    currentScenario st = Some scenarioId -> is_Some (rehearsalAttempts st !! scenarioId)
}.

(** Example data: a play over the scenario of the engine's examples. *)
Definition ex_data : gmap string Scenario := <["friend-checkin"%string := ex_scenario]> ∅.

Definition ex_listen : Choice :=
  {| text := "Listen"; impact := Some [("empathy"%string, 3%Z); ("trust"%string, 2%Z)];
     next := Some "open-up"%string; choice_isEnd := false |}.

Definition ex_play : list Action :=
  [ ASelect 1700000000000 "friend-checkin";
    AEngine (EvTimer 1700000001500 0);
    AEngine (EvChoice 1700000004000 ex_listen);
    AEngine (EvTimer 1700000005000 0);
    ATryAgain 1700000009000;
    AEngine (EvChoice 1700000012000 ex_choice_big) ].

End App.

(** ** The conversation routes of [server.js] as one service

    The four routes over the [conversations] map, the feedback computed when
    a conversation is ended, and the sequences of requests a server handles.
    The numbers of [generateFeedback] are multiples of a quarter, which the
    floating-point operations of the source keep exact; they are rationals
    here. *)

Module Routes.
Import Js Text Server.
Import QArith Qround Qminmax.
Local Close Scope Q_scope.

(** [Math.round]: the nearest integer, a tie going up. *)
Definition Math_round (x : Q) : Z := Qfloor (x + (1 # 2))%Q.

(** The [conversations] map, and beside it the [endTime] property that the
    end route adds to a conversation object. *)
Record Store := {
  conversations : gmap string Conversation;
  endTimes : gmap string Z
}.

Definition emptyStore : Store := {| conversations := ∅; endTimes := ∅ |}.

(** [conversation.state = s]. *)
Definition with_state (s : string) (c : Conversation) : Conversation :=
  {| c_id := c_id c; scenarioId := scenarioId c; scenario := scenario c;
     messages := messages c; startTime := startTime c; state := s |}.

(** The object [generateFeedback] returns; [None] is a property the object
    does not have. *)
Record Feedback := {
  overall : Z;
  empathy : Z;
  questions : Z;
  areas : option (list string);
  strengths : option (list string);
  improvements : option (list string);
  messageCount : option nat;
  conversationLength : option Z
}.

Definition empathyWords : list string :=
  [ "sorry"; "understand"; "feel"; "sounds difficult"; "here for you"; "care" ].

(** The value of [empathyScore] after the two nested [forEach] loops over
    the contents of the user messages. *)
Definition empathy_sum (contents : list string) : Q :=
  fold_left
    (fun empathyScore text =>
       fold_left
         (fun empathyScore word =>
            if includes (toLowerCase text) word
            then (empathyScore + (1 # 2))%Q else empathyScore)
         empathyWords empathyScore)
    contents 5%Q.

(** [conversation.messages.filter(msg => msg.role === 'user')]. *)
Definition userMessages (conversation : Conversation) : list Message :=
  List.filter (fun msg => String.eqb (role msg) "user") (messages conversation).

(** The pairs of a user message and an empathy word found in it, counted. *)
Definition empathy_hits (contents : list string) : nat :=
  list_sum
    (map (fun text =>
            length (List.filter (fun word => includes (toLowerCase text) word)
                                empathyWords))
         contents).

(** The user messages with a question mark, counted. *)
Definition question_count (contents : list string) : nat :=
  length (List.filter (fun text => includes text "?") contents).

(** [generateFeedback(conversation)], with [endTime] the property
    [conversation.endTime] that its caller has set.  [None]: a [TypeError],
    for a user message whose [content] is no string. *)
Definition generateFeedback (conversation : Conversation) (endTime : Z)
  : option Feedback :=
  let userMessages := userMessages conversation in
  if (length userMessages =? 0)%nat
  then Some {| overall := 5; empathy := 5; questions := 5;
               areas := Some ["Try to engage more in the conversation"%string];
               strengths := None; improvements := None;
               messageCount := None; conversationLength := None |}
  else
    contents ← mapM content userMessages;
    (* Calculate empathy score *)
    let empathyScore := Z.min 10 (Math_round (empathy_sum contents)) in
    (* Calculate question quality score *)
    let questionCount := question_count contents in
    let questionScore :=
      Qmin 10 (5 + inject_Z (Z.of_nat questionCount) * (3 # 2))%Q in
    let overallScore := Math_round ((inject_Z empathyScore + questionScore) / 2)%Q in
    let empathic := (7 <=? empathyScore)%Z in
    let inquiring := Qle_bool 7 questionScore in
    Some {| overall := overallScore;
            empathy := empathyScore;
            questions := Math_round questionScore;
            areas := None;
            strengths := Some
              ((if empathic then ["Excellent use of empathetic language"%string] else [])
               ++ (if inquiring then ["Great use of open-ended questions"%string] else [])
               ++ (if (5 <=? length userMessages)%nat
                   then ["Good engagement and conversation length"%string] else []));
            improvements := Some
              ((if empathic then []
                else ["Try to use more validating and empathetic phrases"%string])
               ++ (if inquiring then []
                   else ["Ask more open-ended questions to encourage sharing"%string]));
            messageCount := Some (length userMessages);
            conversationLength := Some (endTime - startTime conversation)%Z |}.

(** What a route sends back. *)
Inductive Response :=
| RError (status : Z) (error : string)
| RStarted (conversationId : string)
           (title description initialMessage initialResponse : string)
| RMessage (reply : Reply)
| RConversation (conversation : Conversation) (endTime : option Z)
| REnded (feedback : Feedback) (duration : Z) (messageCount : nat) (scenario : string).

(** [POST /api/conversations/start]. *)
Definition postStart (uuid : string) (now : Z) (scenarioId : string) (st : Store)
  : Store * Response :=
  match startConversation uuid now scenarioId (conversations st) with
  | (None, _) => (st, RError 400 "Invalid scenario ID")
  | (Some conversation, conversations') =>
      let sc := scenario conversation in
      ({| conversations := conversations'; endTimes := delete uuid (endTimes st) |},
       RStarted uuid (title sc) (description sc) (initialMessage sc)
                (initial (responses sc)))
  end.

(** [POST /api/conversations/:id/messages]. *)
Definition postMessages (env : Env) (id : string) (message : option string) (st : Store)
  : Store * Response :=
  let out := postMessage env id message (conversations st) in
  ({| conversations := store out; endTimes := endTimes st |}, RMessage (reply out)).

(** [GET /api/conversations/:id]. *)
Definition getConversation (id : string) (st : Store) : Store * Response :=
  match conversations st !! id with
  | None => (st, RError 404 "Conversation not found")
  | Some conversation => (st, RConversation conversation (endTimes st !! id))
  end.

(** [POST /api/conversations/:id/end].  An exception of [generateFeedback]
    reaches the error middleware, after the two assignments. *)
Definition postEnd (now : Z) (id : string) (st : Store) : Store * Response :=
  match conversations st !! id with
  | None => (st, RError 404 "Conversation not found")
  | Some conversation =>
      let conversation := with_state "completed" conversation in
      let st := {| conversations := <[id := conversation]> (conversations st);
                   endTimes := <[id := now]> (endTimes st) |} in
      match generateFeedback conversation now with
      | None => (st, RError 500 "Something went wrong!")
      | Some feedback =>
          (st, REnded feedback (now - startTime conversation)
                      (length (messages conversation))
                      (title (scenario conversation)))
      end
  end.

Inductive Request :=
| PostStart (uuid : string) (now : Z) (scenarioId : string)
| PostMessages (env : Env) (id : string) (message : option string)
| GetConversation (id : string)
| PostEnd (now : Z) (id : string).

Definition handle (st : Store) (rq : Request) : Store * Response :=
  match rq with
  | PostStart uuid now scenarioId => postStart uuid now scenarioId st
  | PostMessages env id message => postMessages env id message st
  | GetConversation id => getConversation id st
  | PostEnd now id => postEnd now id st
  end.

(** The store after a sequence of requests. *)
Definition serve (rqs : list Request) (st : Store) : Store :=
  fold_left (fun st rq => (handle st rq).1) rqs st.

(** The requests the embedding describes: the scenario id of a start request
    is no inherited property name of the [scenarios] object, and a draw of
    [Math.random()] lies in [[0, 1)]. *)
Definition well_formed (rq : Request) : Prop :=
  match rq with
  | PostStart _ _ scenarioId => own_key scenarioId = true
  | PostMessages env _ _ => is_random (random env)
  | _ => True
  end.

(** The conversation a request is addressed to. *)
Definition target (rq : Request) : string :=
  match rq with
  | PostStart uuid _ _ => uuid
  | PostMessages _ id _ => id
  | GetConversation id => id
  | PostEnd _ id => id
  end.

(** A text that begins and ends with a character that is no whitespace. *)
Definition solid (t : list ascii) : bool :=
  head_is (fun c => negb (is_space c)) t &&
  head_is (fun c => negb (is_space c)) (rev t).

(** A message the message route stores for the user: trimmed and not empty. *)
Definition user_message (u : Message) : Prop :=
  role u = "user"%string /\
  exists text, content u = Some text /\ text <> EmptyString /\ trimmed (chars text).

(** The reply the message route stores after the user message [u]: the
    crisis notice when the stored text has a crisis keyword, and otherwise
    one of the responses for the category of the stored text. *)
Definition reply_to (sc : Scenario) (u r : Message) : Prop :=
  exists text, content u = Some text /\
    if detectCrisis text
    then role r = "system"%string /\ content r = Some crisisContent
         /\ m_isCrisis r = Some true
    else role r = "ai"%string /\ m_isCrisis r = None /\
         exists answer, content r = Some answer /\
           answer ∈ possibleResponses sc (responseCategory (toLowerCase text)).

(** A message list made of exchanges: a user message, then its reply. *)
Inductive exchanges (sc : Scenario) : list Message -> Prop :=
| exchanges_nil : exchanges sc []
| exchanges_snoc l u r :
    exchanges sc l -> user_message u -> reply_to sc u r ->
    exchanges sc (l ++ [u; r]).

(** What holds of every conversation in the store. *)
Record conversation_ok (id : string) (c : Conversation) : Prop := {
  ok_id : c_id c = id;
  ok_scenario : scenarios !! scenarioId c = Some (scenario c);
  ok_messages : exchanges (scenario c) (messages c);
  ok_state : state c = "active"%string \/ state c = "completed"%string
}.

Definition store_exchanges (st : Store) : Prop :=
  map_Forall conversation_ok (conversations st).

(** Example data. *)
Definition ex_requests : list Request :=
  [ PostStart "c-1" 1700000000000 "friend-checkin";
    PostMessages ex_env "c-1" (Some "  I'm sorry, how do you feel?  "%string);
    PostMessages (with_random 0 ex_env) "c-1" (Some "Are you OK?"%string);
    PostMessages ex_env "c-2" (Some "Hello"%string);
    PostEnd 1700000090000 "c-1";
    PostMessages ex_env "c-1" (Some "I feel hopeless too"%string) ].

(** A conversation of two exchanges. *)
Definition ex_talk : Conversation :=
  {| c_id := "c-1"; scenarioId := "friend-checkin"; scenario := scenario_friend_checkin;
     messages :=
       [ {| m_id := "m-1"; role := "user";
            content := Some "I'm sorry, how do you feel?"%string;
            timestamp := 1700000010000; m_isCrisis := None |};
         {| m_id := "m-2"; role := "ai";
            content := Some "I appreciate you checking in. I have been struggling a bit."%string;
            timestamp := 1700000010001; m_isCrisis := None |};
         {| m_id := "m-3"; role := "user";
            content := Some "I understand. Are you OK?"%string;
            timestamp := 1700000020000; m_isCrisis := None |};
         {| m_id := "m-4"; role := "ai";
            content := Some "I've been feeling pretty overwhelmed lately, to be honest."%string;
            timestamp := 1700000020001; m_isCrisis := None |} ];
     startTime := 1700000000000; state := "active" |}.

Definition ex_talk_contents : list string :=
  [ "I'm sorry, how do you feel?"; "I understand. Are you OK?" ]%string.

End Routes.

(** ** The script routes of [api/routes/scripts.ts] as one service

    The routes that write the script table, over the rows of one table keyed
    by script id.  The user is the one [authenticateToken] attached to the
    request.  The columns a route does not set are filled in by the
    database: the fresh id and the two dates of a new row are inputs.  The
    enhancement log and the stored analyses are other tables and are not
    modelled; the text the AI service returns is an input. *)

Module ScriptRoutes.
Import Js Text Scripts.
Import QArith.
Local Close Scope Q_scope.

(** A request body of the right types for [createScriptSchema]. *)
Record CreateBody := {
  n_title : string;
  n_originalScript : string;
  n_template : option string;
  n_enhancements : option (list string)
}.

(** The length constraints of [createScriptSchema]. *)
Definition createScriptSchema (b : CreateBody) : bool :=
  (1 <=? String.length (n_title b)) &&
  ((10 <=? Z.of_nat (String.length (n_originalScript b)))
   && (Z.of_nat (String.length (n_originalScript b)) <=? 10000))%Z.

(** A request body of the right types for [enhanceScriptSchema]. *)
Record EnhanceBody := {
  enhancementType : string;
  intensity : option Q;
  context : option string
}.

Definition enhancementTypes : list string :=
  [ "awkwardness"; "overthinking"; "preparation"; "diagrams"; "statistics";
    "replicas" ].

Definition enhanceScriptSchema (b : EnhanceBody) : bool :=
  existsb (String.eqb (enhancementType b)) enhancementTypes &&
  match intensity b with
  | Some i => Qle_bool 1 i && Qle_bool i 10
  | None => true
  end.

(** [prisma.script.findFirst({ where: { id, userId } })]. *)
Definition findFirst (scriptId user : string) (db : gmap string Script) : option Script :=
  match db !! scriptId with
  | Some script => if String.eqb (userId script) user then Some script else None
  | None => None
  end.

(** What a route answers: a [RehearsalError] as the error handler reports
    it, another exception, or the [script] part of the success reply. *)
Inductive Reply :=
| Failed (code : string) (statusCode : Z)
| Threw
| Created (script : Script)
| Found (script : Script)
| Updated (script : UpdateReply)
| Enhanced (enhancedScript : string) (nathanLevel draftNumber : Z)
| Deleted (deletedScriptId : string).

(** [POST /api/scripts].  A row with the id [newId] makes the insert fail. *)
Definition postScript (newId : string) (now : Z) (user : string) (body : CreateBody)
    (db : gmap string Script) : Reply * gmap string Script :=
  if negb (createScriptSchema body)
  then (Failed "VALIDATION_ERROR" 400, db)
  else
    let enhancements := default [] (n_enhancements body) in
    (* Calculate initial Nathan level *)
    let initialNathanLevel := calculateNathanLevel (n_originalScript body) enhancements in
    match db !! newId with
    | Some _ => (Threw, db)
    | None =>
        let script :=
          {| id := newId; userId := user; title := n_title body;
             originalScript := n_originalScript body; enhancedScript := None;
             template := default "custom"%string (truthy (n_template body));
             enhancements := enhancements;
             nathanLevel := initialNathanLevel;
             draftNumber := 1;
             productionNotes := []; storyboardFrames := [];
             status := "DRAFT"; createdAt := now; updatedAt := now |} in
        (Created script, <[newId := script]> db)
    end.

(** [GET /api/scripts/:id]. *)
Definition getScript (user scriptId : string) (db : gmap string Script)
  : Reply * gmap string Script :=
  match findFirst scriptId user db with
  | None => (Failed "SCRIPT_NOT_FOUND" 404, db)
  | Some script => (Found script, db)
  end.

(** [POST /api/scripts/:id/enhance]; [ai] is the [content] that
    [aiService.enhanceScript] resolves to, [None] when it rejects. *)
Definition postEnhance (now : Z) (user scriptId : string) (body : EnhanceBody)
    (ai : option string) (db : gmap string Script) : Reply * gmap string Script :=
  if negb (enhanceScriptSchema body)
  then (Failed "VALIDATION_ERROR" 400, db)
  else
    (* Verify script ownership *)
    match findFirst scriptId user db with
    | None => (Failed "SCRIPT_NOT_FOUND" 404, db)
    | Some script =>
        match ai with
        | None => (Threw, db)
        | Some content =>
            (* Update script with enhancement *)
            let updatedScript :=
              {| id := id script; userId := userId script; title := title script;
                 originalScript := originalScript script;
                 enhancedScript := Some content;
                 template := template script;
                 enhancements := enhancements script;
                 nathanLevel := Z.min 100 (nathanLevel script + 5);
                 draftNumber := (draftNumber script + 1)%Z;
                 productionNotes := productionNotes script;
                 storyboardFrames := storyboardFrames script;
                 status := status script; createdAt := createdAt script;
                 updatedAt := now |} in
            (Enhanced content (nathanLevel updatedScript) (draftNumber updatedScript),
             <[scriptId := updatedScript]> db)
        end
    end.

(** [DELETE /api/scripts/:id]. *)
Definition deleteScript (user scriptId : string) (db : gmap string Script)
  : Reply * gmap string Script :=
  match findFirst scriptId user db with
  | None => (Failed "SCRIPT_NOT_FOUND" 404, db)
  | Some script => (Deleted scriptId, delete scriptId db)
  end.

(** [PUT /api/scripts/:id], as a reply of the service. *)
Definition putReply (r : PutResult) : Reply :=
  match r with
  | PutError code statusCode => Failed code statusCode
  | PutOk script => Updated script
  end.

Inductive Request :=
| PostScript (newId : string) (now : Z) (body : CreateBody)
| GetScript (scriptId : string)
| PutScript (now : Z) (scriptId : string) (body : UpdateBody)
| PostEnhance (now : Z) (scriptId : string) (body : EnhanceBody) (ai : option string)
| DeleteScript (scriptId : string).

(** A request of the authenticated user [user]. *)
Definition handle (db : gmap string Script) (rq : string * Request)
  : Reply * gmap string Script :=
  let user := rq.1 in
  match rq.2 with
  | PostScript newId now body => postScript newId now user body db
  | GetScript scriptId => getScript user scriptId db
  | PutScript now scriptId body =>
      let out := putScript now user scriptId body db in (putReply out.1, out.2)
  | PostEnhance now scriptId body ai => postEnhance now user scriptId body ai db
  | DeleteScript scriptId => deleteScript user scriptId db
  end.

(** The table after a sequence of requests, each with its user. *)
Definition serve (rqs : list (string * Request)) (db : gmap string Script)
  : gmap string Script :=
  fold_left (fun db rq => (handle db rq).2) rqs db.

(** What holds of every row of the table. *)
Record script_ok (scriptId : string) (s : Script) : Prop := {
  ok_id : id s = scriptId;
  ok_level : (20 <= nathanLevel s <= 100)%Z;
  ok_draft : (1 <= draftNumber s)%Z;
  ok_title : title s <> EmptyString;
  ok_text : (10 <= Z.of_nat (String.length (originalScript s)) <= 10000)%Z;
  ok_template : template s <> EmptyString;
  ok_status : status s = "DRAFT"%string
}.

(** Example data. *)
Definition ex_create : CreateBody :=
  {| n_title := "Checking in";
     n_originalScript := "So... um, I made a plan to practice this talk 147 times.";
     n_template := None; n_enhancements := Some ["awkwardness"%string] |}.

Definition ex_enhance : EnhanceBody :=
  {| enhancementType := "statistics"; intensity := Some (15 # 2)%Q; context := None |}.

Definition ex_script_requests : list (string * Request) :=
  [ ("u-1", PostScript "s-1" 1700000000000 ex_create);
    ("u-2", PutScript 1700000100000 "s-1" ex_update_text);
    ("u-1", PutScript 1700000200000 "s-1" ex_update_title);
    ("u-1", PostEnhance 1700000300000 "s-1" ex_enhance
              (Some "So... um, 73 percent of plans need practice."));
    ("u-2", DeleteScript "s-1");
    ("u-1", PutScript 1700000400000 "s-1" ex_update_text) ]%string.

End ScriptRoutes.

(** ** [api/middleware/auth.ts] and the router of [api/routes/scripts.ts]

    [verify] of the [jsonwebtoken] package and the class tests of its errors
    are parameters.  A request header is a string or absent. *)

Module Auth.
Import Js Text RegExp Scripts.

(** The four fields of a token payload that become [req.user]. *)
Record User := {
  user_id : string;
  email : string;
  name : string;
  role : string
}.

(** What [verify] throws. *)
Inductive VerifyError :=
| JsonWebTokenError
| NotBeforeError
| TokenExpiredError
| OtherError.

(** What a middleware does with a request. *)
Inductive Outcome :=
| Next (user : option User)               (* [next()], with [req.user] *)
| Rejected (code : string) (statusCode : Z)   (* a [RehearsalError] *)
| Rethrown (error : VerifyError).

(** [authHeader && authHeader.split(' ')[1]], as the condition [!token]
    reads it: [None] when the value is falsy. *)
Definition bearer_token (authHeader : option string) : option string :=
  match authHeader with
  | None => None
  | Some h =>
      if String.eqb h EmptyString then None
      else truthy (str <$> split_on " "%char (chars h) !! 1%nat)
  end.

Section Middleware.

(** [verify(token, secret)]. *)
Variable verify : string -> string -> User + VerifyError.

(** [error instanceof JsonWebTokenError], [error instanceof TokenExpiredError]. *)
Variable instanceof_JsonWebTokenError : VerifyError -> bool.
Variable instanceof_TokenExpiredError : VerifyError -> bool.

(** [authenticateToken(req, res, next)], with [secret] the value of
    [process.env.JWT_SECRET]. *)
Definition authenticateToken (secret : option string) (authHeader : option string)
  : Outcome :=
  match bearer_token authHeader with
  | None => Rejected "UNAUTHORIZED" 401
  | Some token =>
      match truthy secret with
      | None =>
          (* thrown inside [try]: it is no token error, and is thrown again *)
          Rejected "CONFIG_ERROR" 500
      | Some secret =>
          match verify token secret with
          | inl decoded => Next (Some decoded)
          | inr error =>
              if instanceof_JsonWebTokenError error
              then Rejected "INVALID_TOKEN" 401
              else if instanceof_TokenExpiredError error
              then Rejected "TOKEN_EXPIRED" 401
              else Rethrown error
          end
      end
  end.

(** [optionalAuth(req, res, next)]. *)
Definition optionalAuth (secret : option string) (authHeader : option string)
  : Outcome :=
  match bearer_token authHeader with
  | None => Next None
  | Some token =>
      match truthy secret with
      | None => Next None
      | Some secret =>
          match verify token secret with
          | inl decoded => Next (Some decoded)
          | inr _ => Next None
          end
      end
  end.

End Middleware.

(** [requireRole(role)(req, res, next)], with [user] the value of
    [req.user]. *)
Definition requireRole (required : string) (user : option User) : Outcome :=
  match user with
  | None => Rejected "UNAUTHORIZED" 401
  | Some u =>
      if negb (String.eqb (role u) required) && negb (String.eqb (role u) "admin")
      then Rejected "FORBIDDEN" 403
      else Next user
  end.

Definition requireAdmin (user : option User) : Outcome := requireRole "admin" user.

(** The class tests as the package defines them: [NotBeforeError] and
    [TokenExpiredError] extend [JsonWebTokenError]. *)
Definition jwt_instanceof_JsonWebTokenError (e : VerifyError) : bool :=
  match e with
  | JsonWebTokenError | NotBeforeError | TokenExpiredError => true
  | OtherError => false
  end.

Definition jwt_instanceof_TokenExpiredError (e : VerifyError) : bool :=
  match e with
  | TokenExpiredError => true
  | _ => false
  end.

(** Example data: a verifier that accepts one token. *)
Definition ex_user : User :=
  {| user_id := "u-1"; email := "nathan@example.org"; name := "Nathan"; role := "user" |}.

Definition ex_verify (token secret : string) : User + VerifyError :=
  if String.eqb secret "s3cret" then
    if String.eqb token "tok-1" then inl ex_user
    else if String.eqb token "tok-old" then inr TokenExpiredError
    else inr JsonWebTokenError
  else inr JsonWebTokenError.

End Auth.

(** *** The router: every script route behind [authenticateToken] *)

Module Api.
Import Js Text Scripts Auth.

Inductive Method := GET | POST | PUT | DELETE.

(** A path segment of a route: a literal, or a parameter such as [:id]. *)
Inductive Segment := Lit (s : string) | Param (name : string).

Inductive Handler :=
| CreateScript | ListScripts | ReadScript | UpdateScript
| EnhanceScript | AnalyzeScript | RemoveScript | ListTemplates.

(** The routes of the router, in the order of their registration. *)
Definition routes : list (Method * list Segment * Handler) :=
  [ (POST, [], CreateScript);
    (GET, [], ListScripts);
    (GET, [Param "id"], ReadScript);
    (PUT, [Param "id"], UpdateScript);
    (POST, [Param "id"; Lit "enhance"], EnhanceScript);
    (POST, [Param "id"; Lit "analyze"], AnalyzeScript);
    (DELETE, [Param "id"], RemoveScript);
    (GET, [Lit "templates"], ListTemplates) ].

Definition Method_eqb (a b : Method) : bool :=
  match a, b with
  | GET, GET | POST, POST | PUT, PUT | DELETE, DELETE => true
  | _, _ => false
  end.

(** Whether a route path matches a request path, given as its segments,
    none of them empty.  A literal is compared without regard to letter
    case; a parameter takes one segment. *)
Fixpoint matches (pattern : list Segment) (path : list string) : bool :=
  match pattern, path with
  | [], [] => true
  | Lit s :: pattern', seg :: path' =>
      String.eqb (toLowerCase s) (toLowerCase seg) && matches pattern' path'
  | Param _ :: pattern', seg :: path' =>
      negb (String.eqb seg EmptyString) && matches pattern' path'
  | _, _ => false
  end.

(** The handler that answers a request: the first route that matches.  No
    handler of the router passes the request on; it answers or throws. *)
Definition dispatch (m : Method) (path : list string) : option Handler :=
  snd <$> List.find (fun r => Method_eqb r.1.1 m && matches r.1.2 path) routes.

Section Service.

Variable verify : string -> string -> User + VerifyError.
Variable instanceof_JsonWebTokenError : VerifyError -> bool.
Variable instanceof_TokenExpiredError : VerifyError -> bool.

(** A request to one of the modelled routes: [authenticateToken], then the
    handler for the user of the token. *)
Definition api (secret authHeader : option string) (rq : ScriptRoutes.Request)
    (db : gmap string Script) : ScriptRoutes.Reply * gmap string Script :=
  match authenticateToken verify instanceof_JsonWebTokenError
                          instanceof_TokenExpiredError secret authHeader with
  | Next (Some user) => ScriptRoutes.handle db (user_id user, rq)
  | Next None => (ScriptRoutes.Threw, db)
  | Rejected code statusCode => (ScriptRoutes.Failed code statusCode, db)
  | Rethrown _ => (ScriptRoutes.Threw, db)
  end.

End Service.

End Api.

(** ** [public/js/analytics.js]: the most frequent item *)

Module Analytics.
Import Js.

(** [array.filter(x => x === item).length]. *)
Definition countOccurrences (array : list string) (item : string) : nat :=
  length (List.filter (fun x => String.eqb x item) array).

(** The three variables of [getMostFrequent]. *)
Record Tally := {
  frequency : gmap string Z;
  maxCount : Z;
  mostFrequent : option string            (* [None]: [undefined] *)
}.

(** The body of the [forEach] callback. *)
Definition tally (t : Tally) (item : string) : Tally :=
  let count := (default 0 (frequency t !! item) + 1)%Z in
  let frequency := <[item := count]> (frequency t) in
  if (maxCount t <? count)%Z
  then {| frequency := frequency; maxCount := count; mostFrequent := Some item |}
  else {| frequency := frequency; maxCount := maxCount t;
          mostFrequent := mostFrequent t |}.

(** [getMostFrequent(array)], for an array of strings. *)
Definition getMostFrequent (array : list string) : option string :=
  mostFrequent
    (fold_left tally array
               {| frequency := ∅; maxCount := 0; mostFrequent := head array |}).

(** An analytics event, as far as [getMostAttemptedScenario] reads it. *)
Record AnalyticsEvent := {
  type : string;
  data_scenario : string
}.

(** [getMostAttemptedScenario()], with [analytics] the value of
    [appState.analytics]; [None] is a falsy value. *)
Definition getMostAttemptedScenario (analytics : option (list AnalyticsEvent))
  : option string :=
  let scenarioEvents :=
    match analytics with
    | Some events =>
        List.filter (fun e => String.eqb (type e) "scenario_selected") events
    | None => []
    end in
  if (length scenarioEvents =? 0)%nat then Some "None"%string
  else getMostFrequent (map data_scenario scenarioEvents).

(** What holds of the three variables after the items [seen]. *)
Record tally_ok (seen : list string) (t : Tally) : Prop := {
  ok_frequency : forall x,
    default 0%Z (frequency t !! x) = Z.of_nat (countOccurrences seen x);
  ok_max : forall x, (Z.of_nat (countOccurrences seen x) <= maxCount t)%Z;
  ok_empty : seen = [] -> maxCount t = 0%Z;
  ok_most : seen <> [] ->
    exists item, mostFrequent t = Some item /\ item ∈ seen /\
                 maxCount t = Z.of_nat (countOccurrences seen item) /\
                 exists before after,
                   seen = before ++ item :: after /\
                   maxCount t = Z.of_nat (countOccurrences (before ++ [item]) item) /\
                   forall x, (Z.of_nat (countOccurrences before x) < maxCount t)%Z
}.

(** Example data. *)
Definition ex_events : list AnalyticsEvent :=
  [ {| type := "scenario_selected"; data_scenario := "friend-checkin" |};
    {| type := "choice_made"; data_scenario := "friend-checkin" |};
    {| type := "scenario_selected"; data_scenario := "crisis-response" |};
    {| type := "scenario_selected"; data_scenario := "crisis-response" |};
    {| type := "scenario_selected"; data_scenario := "friend-checkin" |} ].

End Analytics.

(** ** The AI service: [AIService.generateProductionNotes] *)

Module ProductionNotes.
Import Text RegExp AIService.

Definition defaultNotes : list string :=
  [ "Build 1:1 scale replica of conversation location in controlled environment";
    "Hire professional actors to play all potential responses, including 47 variations of 'hmm'";
    "Create detailed timing charts for optimal pause lengths (3.7 seconds proven most effective)";
    "Install hidden cameras to document the documentation process";
    "Prepare 147 backup conversation starters in case of total social breakdown" ].

(** The notes [generateProductionNotes] extracts from the text [response]
    of the completion: the dash lines, at most five, or the five default
    notes when there is none. *)
Definition generateProductionNotes (response : string) : list string :=
  let notes := take 5 (dash_items (chars response)) in
  if (0 <? length notes)%nat then notes else defaultNotes.

(** Example data: a preamble, three dash lines, one of them indented. *)
Definition ex_notes_response : string :=
  str (chars "Here are the notes:" ++ nl :: chars "- Build a replica of the office"
       ++ nl :: chars "  - Hire 73 background actors"
       ++ nl :: chars "-Rehearse the handshake").

End ProductionNotes.

(** ** [api/routes/scripts.ts]: the local script analysis *)

Module ScriptAnalysis.
Import Js Text.
Import QArith Qround.
Local Close Scope Q_scope.

(** [Math.floor(Math.random() * n)] for the draw [r / 2^53]. *)
Definition random_floor (r : Z) (n : Z) : Z := (r * n / 2 ^ 53)%Z.

Record Analysis := {
  awkwardnessScore : Z;
  rehearsalCount : Z;
  complexityRating : Z;
  nathanObservation : option string;      (* [None]: [undefined] *)
  improvementSuggestions : list string;
  optimalityScore : Z
}.

Definition observations : list string :=
  [ "This script captures the precise awkwardness of human interaction.";
    "I see potential for at least 47 different blocking variations.";
    "The dialogue authenticity is 73.4% - within acceptable parameters.";
    "Consider adding more statistical references for credibility.";
    "This reminds me of rehearsal attempt #147 from season 2.";
    "The preparation level shows proper Nathan methodology." ].

Definition suggestions : list string :=
  [ "Add more specific timing for awkward pauses";
    "Include backup dialogue for when the first option fails";
    "Consider building a scale model of the location";
    "Research actual statistics to make fake ones more believable";
    "Plan for 12 different emotional reactions from other person";
    "Document the documentation process" ].

(** [generateScriptAnalysis(script, enhancements)]; [r1] to [r5] are the
    five draws of [Math.random()], in the order of the calls.  The sum under
    [Math.floor] is taken exactly. *)
Definition generateScriptAnalysis (r1 r2 r3 r4 r5 : Z) (script : string)
    (enhancements : list string) : Analysis :=
  let baseAwkwardness := 47%Z in
  let enhancementMultiplier := (Z.of_nat (length enhancements) * 13)%Z in
  let randomFactor := random_floor r1 20 in
  let awkwardnessScore :=
    Z.min 100 (baseAwkwardness + enhancementMultiplier + randomFactor) in
  let complexityRating :=
    Qfloor ((Z.of_nat (String.length script) # 100)
            + inject_Z (Z.of_nat (length enhancements) * 5)
            + (r2 * 15 # 2 ^ 53))%Q in
  let rehearsalCount := (73 + complexityRating * 2 + random_floor r3 50)%Z in
  {| awkwardnessScore := awkwardnessScore;
     rehearsalCount := rehearsalCount;
     complexityRating := complexityRating;
     nathanObservation := random_pick r4 observations;
     improvementSuggestions := take (Z.to_nat (3 + random_floor r5 3)) suggestions;
     optimalityScore := Z.max 0 (100 - Z.abs (rehearsalCount - 147)) |}.

(** [calculateRehearsalCount(complexityRating)], for an integral rating. *)
Definition calculateRehearsalCount (r : Z) (complexityRating : Z) : Z :=
  Z.max 47 (73 + complexityRating * 2 + random_floor r 50).

End ScriptAnalysis.

(* ===================================================================== *)
(** * Part II: the properties *)
(* ===================================================================== *)

Module ConversationSpec.
Import Js Conversation.

Lemma applyStat_stat_ok stats entry stat :
  stat_ok stats stat -> stat_ok (applyStat stats entry) stat.
Proof.
  intros (z & Hz & Hr). unfold stat_ok, applyStat.
  destruct (decide (entry.1 = stat)) as [-> | Hne].
  - rewrite lookup_insert_eq. unfold stat_plus. rewrite Hz. simpl.
    eexists. split; [reflexivity | lia].
  - rewrite lookup_insert_ne by done. eauto.
Qed.

Lemma applyImpact_stat_ok entries : forall stats stat,
  stat_ok stats stat -> stat_ok (applyImpact entries stats) stat.
Proof.
  induction entries as [| e es IH]; intros stats stat H; simpl; [done |].
  apply IH. by apply applyStat_stat_ok.
Qed.

Lemma applyImpact_stats_ok entries stats :
  stats_ok stats -> stats_ok (applyImpact entries stats).
Proof.
  intros (He & Ht & Hf). repeat split; by apply applyImpact_stat_ok.
Qed.

Lemma makeChoice_playerStats now choice st :
  playerStats (makeChoice now choice st).1 =
  match impact choice with
  | Some entries => applyImpact entries (playerStats st)
  | None => playerStats st
  end.
Proof.
  unfold makeChoice.
  destruct (impact choice) as [entries |]; simpl;
    (destruct (current_scenario _) as [sc |]; [| done]);
    (destruct (find_scene _ _); [done |]);
    destruct (_ || _); done.
Qed.

(** C1.  Whatever the deltas of the selected choice, [makeChoice] leaves
    each of empathy, trust and effectiveness within [[0, 10]] when they were
    so before. *)
Theorem makeChoice_stats_in_range now choice st :
  stats_ok (playerStats st) ->
  stats_ok (playerStats (makeChoice now choice st).1).
Proof.
  intros H. rewrite makeChoice_playerStats.
  destruct (impact choice); [by apply applyImpact_stats_ok | done].
Qed.

Lemma makeChoice_stats_in_range_witness :
  stats_ok (playerStats ex_state) /\
  stats_ok (playerStats (makeChoice 1700000000000 ex_choice_big ex_state).1).
Proof.
  assert (H : stats_ok (playerStats ex_state)).
  { repeat split; eexists; (split; [vm_compute; reflexivity | lia]). }
  split; [exact H | exact (makeChoice_stats_in_range _ _ _ H)].
Defined.

(** The deltas +250 and -40 on stats at 0 leave empathy at 10 and trust at 0. *)
Example makeChoice_clamps :
  let stats := playerStats (makeChoice 1700000000000 ex_choice_big ex_state).1 in
  stats !! "empathy"%string = Some (Int 10) /\
  stats !! "trust"%string = Some (Int 0) /\
  stats !! "effectiveness"%string = Some (Int 0).
Proof. repeat split; vm_compute; reflexivity. Qed.

Lemma current_scenario_after_record now choice st :
  current_scenario
    (match impact choice with
     | Some entries =>
         with_stats (applyImpact entries
            (playerStats (with_history
               (conversationHistory st ++ [history_record now choice st]) st)))
           (with_history (conversationHistory st ++ [history_record now choice st]) st)
     | None => with_history (conversationHistory st ++ [history_record now choice st]) st
     end) = current_scenario st.
Proof. by destruct (impact choice). Qed.

(** C2, as stated: a choice whose [next] matches no scene id.  On the
    success marker the engine ends the conversation as a success. *)
Lemma makeChoice_unresolved_next_counterexample :
  current_scenario ex_state = Some ex_scenario /\
  find_scene (next ex_choice_success) (scenes ex_scenario) = None /\
  timers (makeChoice 1700000000000 ex_choice_success ex_state).1
    = [TaskEndConversation true] /\
  ~ In (TaskEndConversation false)
       (timers (makeChoice 1700000000000 ex_choice_success ex_state).1).
Proof.
  repeat split; try (vm_compute; reflexivity).
  vm_compute. intros [H | []]. discriminate H.
Qed.

(** C2, amended.  A choice whose [next] matches no scene id of the current
    scenario, is not the marker ['success'] and whose [isEnd] flag is not set
    makes [makeChoice] return normally after scheduling
    [endConversation(false)], and that call completes with a failure outcome. *)
Theorem makeChoice_unresolved_next now choice st scenario :
  current_scenario st = Some scenario ->
  find_scene (next choice) (scenes scenario) = None ->
  next choice <> Some "success"%string ->
  choice_isEnd choice = false ->
  exists st',
    makeChoice now choice st = (st', Returned) /\
    timers st' = timers st ++ [TaskEndConversation false] /\
    forall r, exists a, endConversation r false st' = Some a /\ a_success a = false.
Proof.
  intros Hsc Hfind Hnext Hend. unfold makeChoice.
  rewrite current_scenario_after_record, Hsc, Hfind, Hend.
  rewrite bool_decide_eq_false_2 by done. simpl.
  eexists. split; [reflexivity |]. split.
  - by destruct (impact choice).
  - intros r. unfold endConversation.
    replace (current_scenario (setTimeout _ _)) with (current_scenario st)
      by (by destruct (impact choice)).
    rewrite Hsc. eexists. split; [reflexivity | done].
Qed.

Lemma makeChoice_unresolved_next_witness :
  exists st',
    makeChoice 1700000000000 ex_choice_dangling ex_state = (st', Returned) /\
    timers st' = timers ex_state ++ [TaskEndConversation false] /\
    forall r, exists a, endConversation r false st' = Some a /\ a_success a = false.
Proof.
  apply (makeChoice_unresolved_next 1700000000000 ex_choice_dangling ex_state ex_scenario).
  - vm_compute; reflexivity.
  - vm_compute; reflexivity.
  - discriminate.
  - reflexivity.
Defined.

Lemma makeChoice_history now choice st :
  conversationHistory (makeChoice now choice st).1 =
  conversationHistory st ++ [history_record now choice st].
Proof.
  unfold makeChoice.
  destruct (impact choice) as [entries |]; simpl;
    (destruct (current_scenario _) as [sc |]; [| done]);
    (destruct (find_scene _ _); [done |]);
    destruct (_ || _); done.
Qed.

Lemma recordBreakthrough_history now scene st :
  conversationHistory (recordBreakthrough now scene st).1 = conversationHistory st.
Proof. unfold recordBreakthrough. by destruct (current_scenario st). Qed.

Lemma displayScene_history now scene st :
  conversationHistory (displayScene now scene st).1 = conversationHistory st.
Proof.
  unfold displayScene.
  set (st1 := match dialogue scene with Some _ => _ | None => st end).
  set (st2 := match choices scene with [] => st1 | _ :: _ => _ end).
  assert (H2 : conversationHistory st2 = conversationHistory st).
  { subst st2 st1.
    destruct (choices scene), (dialogue scene) as [d |];
      try destruct (String.eqb d EmptyString); done. }
  destruct (isBreakthrough scene).
  - pose proof (recordBreakthrough_history now scene st2) as Hb.
    destruct (recordBreakthrough now scene st2) as [st3 []]; simpl in *;
      [destruct (isEnd scene); simpl |]; congruence.
  - by destruct (isEnd scene).
Qed.

Lemma fire_history now i st :
  conversationHistory (fire now i st) = conversationHistory st.
Proof.
  unfold fire. destruct (timers st !! i) as [[s | s | cs | b] |]; try done.
  by rewrite displayScene_history.
Qed.

Lemma step_history st e :
  conversationHistory (step st e) =
  conversationHistory st ++
    match e with
    | EvChoice now c => [history_record now c st]
    | EvTimer _ _ => []
    end.
Proof.
  destruct e as [now c | now i]; simpl.
  - apply makeChoice_history.
  - by rewrite fire_history, app_nil_r.
Qed.

Lemma run_history evs : forall st,
  exists recs,
    conversationHistory (run evs st) = conversationHistory st ++ recs /\
    length recs = choices_made evs.
Proof.
  induction evs as [| e evs IH]; intros st.
  - exists []. by rewrite app_nil_r.
  - destruct (IH (step st e)) as (recs & Hrun & Hlen).
    unfold run in *. simpl. rewrite Hrun, step_history, <- app_assoc.
    eexists. split; [reflexivity |].
    rewrite length_app, Hlen. unfold choices_made.
    destruct e; simpl; lia.
Qed.

Lemma selectScenario_history now scenarioId st :
  is_Some (scenarios st !! scenarioId) ->
  conversationHistory (selectScenario now scenarioId st).1 = [].
Proof.
  intros [scenario Hsc]. unfold selectScenario, startConversation. rewrite Hsc.
  destruct (find_scene _ _); [by rewrite displayScene_history |].
  destruct (scenes scenario); [done | by rewrite displayScene_history].
Qed.

(** C4.  [makeChoice] appends exactly one record (scene, choice, impact,
    timestamp) to [conversationHistory]; over any run of the engine (choices
    and timer callbacks) the earlier records stay as a prefix, and the number
    of records added is the number of choices made, so that the length of the
    history of a run that [selectScenario] started is the number of choices
    made in it. *)
Theorem conversationHistory_append_only :
  (forall now choice st,
      conversationHistory (makeChoice now choice st).1 =
      conversationHistory st ++
        [{| h_scene := currentScene st; h_choice := text choice;
            h_impact := impact choice; h_timestamp := now |}]) /\
  (forall evs st,
      exists recs,
        conversationHistory (run evs st) = conversationHistory st ++ recs /\
        length recs = choices_made evs) /\
  (forall now scenarioId evs st,
      is_Some (scenarios st !! scenarioId) ->
      length (conversationHistory (run evs (selectScenario now scenarioId st).1))
        = choices_made evs).
Proof.
  split; [exact makeChoice_history |]. split; [exact (fun evs st => run_history evs st) |].
  intros now scenarioId evs st Hsc.
  destruct (run_history evs (selectScenario now scenarioId st).1) as (recs & -> & <-).
  by rewrite selectScenario_history.
Qed.

Lemma conversationHistory_append_only_witness :
  is_Some (scenarios ex_state !! "friend-checkin"%string) /\
  length (conversationHistory
            (run [ EvChoice 1700000000000 ex_choice_big; EvTimer 1700000000800 0;
                   EvChoice 1700000003000 ex_choice_dangling ]
                 (selectScenario 1699999990000 "friend-checkin" ex_state).1)) = 2.
Proof.
  assert (H : is_Some (scenarios ex_state !! "friend-checkin"%string))
    by (eexists; vm_compute; reflexivity).
  destruct conversationHistory_append_only as (_ & _ & Hrun).
  split; [exact H |]. rewrite (Hrun _ _ _ _ H). reflexivity.
Defined.

End ConversationSpec.

(** ** Facts about the string methods *)

Module TextFacts.
Import Text.

Lemma chars_str l : chars (str l) = l.
Proof. apply list_ascii_of_string_of_list_ascii. Qed.

Lemma str_chars s : str (chars s) = s.
Proof. apply string_of_list_ascii_of_string. Qed.

Lemma length_str l : String.length (str l) = length l.
Proof. induction l as [| c l IH]; simpl; [done | by rewrite IH]. Qed.

Lemma is_space_lower c : is_space (lower c) = is_space c.
Proof. destruct c as [[] [] [] [] [] [] [] []]; reflexivity. Qed.

Lemma chars_toLowerCase s : chars (toLowerCase s) = map lower (chars s).
Proof. unfold toLowerCase. apply chars_str. Qed.

Lemma starts_with_cons_In c t s : starts_with (c :: t) s = true -> In c s.
Proof.
  destruct s as [| b s]; simpl; [done |].
  intros [Hc _]%andb_true_iff. apply Ascii.eqb_eq in Hc. by left.
Qed.

Lemma includes_chars_In c t : forall s, includes_chars s (c :: t) = true -> In c s.
Proof.
  induction s as [| b s IH]; [done |].
  cbn [includes_chars]. intros [H | H]%orb_true_iff.
  - by apply starts_with_cons_In in H.
  - right. by apply IH.
Qed.

Lemma drop_spaces_all l :
  Forall (fun c => is_space c = true) l -> drop_spaces l = [].
Proof. induction 1 as [| c l Hc _ IH]; simpl; [done | by rewrite Hc]. Qed.

Lemma drop_spaces_keeps c l :
  In c l -> is_space c = false -> In c (drop_spaces l).
Proof.
  induction l as [| b l IH]; [done |]. intros Hin Hc. simpl.
  destruct (is_space b) eqn:Hb; [| exact Hin].
  destruct Hin as [-> | Hin]; [congruence | apply IH; assumption].
Qed.

Lemma trim_chars_all l :
  Forall (fun c => is_space c = true) l -> trim_chars l = [].
Proof. intros H. unfold trim_chars. by rewrite (drop_spaces_all l H). Qed.

Lemma trim_chars_keeps c l :
  In c l -> is_space c = false -> In c (trim_chars l).
Proof.
  intros Hin Hc. unfold trim_chars. apply -> in_rev.
  apply drop_spaces_keeps; [| done]. apply -> in_rev.
  by apply drop_spaces_keeps.
Qed.

(** A string with a character that is no whitespace is neither empty nor
    trimmed to the empty string. *)
Lemma trim_nonempty s c :
  In c (chars s) -> is_space c = false ->
  String.length s <> 0 /\ String.length (trim s) <> 0.
Proof.
  intros Hin Hc. split.
  - destruct s; [done | simpl; lia].
  - unfold trim. rewrite length_str.
    pose proof (trim_chars_keeps _ _ Hin Hc) as H.
    destruct (trim_chars (chars s)); [done | simpl; lia].
Qed.

Lemma trim_all_spaces s :
  Forall (fun c => is_space c = true) (chars s) -> trim s = EmptyString.
Proof. intros H. unfold trim. by rewrite trim_chars_all. Qed.

End TextFacts.

Module JsFacts.
Import Js.

Lemma random_index_lt r n : is_random r -> n <> 0 -> random_index r n < n.
Proof.
  unfold is_random, random_index. intros Hr Hn.
  assert (0 <= r * Z.of_nat n / 2 ^ 53 < Z.of_nat n)%Z; [| lia].
  split.
  - apply Z.div_pos; lia.
  - apply Z.div_lt_upper_bound; nia.
Qed.

Lemma random_pick_elem {A} r (arr : list A) :
  is_random r -> arr <> [] -> exists x, random_pick r arr = Some x /\ x ∈ arr.
Proof.
  intros Hr Hne. unfold random_pick.
  destruct (lookup_lt_is_Some_2 arr (random_index r (length arr))) as [x Hx].
  - apply random_index_lt; [done |]. by destruct arr.
  - exists x. split; [done |]. by eapply list_elem_of_lookup_2.
Qed.

End JsFacts.

(** ** Facts about the matcher *)

Module RegExpFacts.
Import Text RegExp TextFacts.

Lemma star_loop_unfold body greedy k n s cap :
  star_loop body greedy k n s cap =
  let more :=
    match n with
    | 0 => None
    | S n' =>
        body s cap (fun s1 c1 =>
          if length s1 <? length s then star_loop body greedy k n' s1 c1 else None)
    end in
  if greedy
  then match more with Some x => Some x | None => k s cap end
  else match k s cap with Some x => Some x | None => more end.
Proof. by destruct n. Qed.

Lemma mt_Eps s cap k : mt Eps s cap k = k s cap.
Proof. reflexivity. Qed.

Lemma mt_Seq r1 r2 s cap k :
  mt (Seq r1 r2) s cap k = mt r1 s cap (fun s1 c1 => mt r2 s1 c1 k).
Proof. reflexivity. Qed.

Lemma mt_Alt r1 r2 s cap k :
  mt (Alt r1 r2) s cap k =
  match mt r1 s cap k with Some x => Some x | None => mt r2 s cap k end.
Proof. reflexivity. Qed.

Lemma mt_Star greedy r s cap k :
  mt (Star greedy r) s cap k = star_loop (mt r) greedy k (length s) s cap.
Proof. reflexivity. Qed.

Lemma mt_Group r s cap k :
  mt (Group r) s cap k
  = mt r s cap (fun s1 _ => k s1 (Some (take (length s - length s1) s))).
Proof. reflexivity. Qed.

Lemma mt_Chr_cons c a s cap k :
  mt (Chr c) (a :: s) cap k = if Ascii.eqb a c then k s cap else None.
Proof. reflexivity. Qed.

Lemma mt_Cls_fail p s cap k : head_is p s = false -> mt (Cls p) s cap k = None.
Proof. destruct s as [| c s]; simpl; [done | by intros ->]. Qed.

(** A literal matches exactly where the input starts with it. *)
Lemma mt_Lit l : forall s cap k,
  mt (Lit l) s cap k = if starts_with l s then k (drop (length l) s) cap else None.
Proof.
  induction l as [| c l IH]; intros s cap k; simpl; [done |].
  destruct s as [| a s]; [done |]. simpl.
  rewrite (Ascii.eqb_sym c a). destruct (Ascii.eqb a c); [apply IH | done].
Qed.

Section ClassRun.
Variable p : ascii -> bool.
Variable k : cont.
Variable cap : option (list ascii).
Variable x : result.

(** A greedy run of a class takes every character of the class there is. *)
Lemma star_greedy_cls run : forall n rest,
  Forall (fun c => p c = true) run ->
  head_is p rest = false ->
  length (run ++ rest) <= n ->
  k rest cap = Some x ->
  star_loop (mt (Cls p)) true k n (run ++ rest) cap = Some x.
Proof.
  induction run as [| c run IH]; intros n rest Hrun Hrest Hn Hk;
    rewrite star_loop_unfold; cbv zeta; cbn [app].
  - destruct n; [by rewrite Hk |]. by rewrite mt_Cls_fail, Hk.
  - inversion Hrun as [| ? ? Hc Hrun']; subst.
    destruct n as [| n]; [simpl in Hn; lia |].
    cbn [mt]. rewrite Hc.
    assert (Hlt : (length (run ++ rest) <? length (c :: run ++ rest)) = true)
      by (apply Nat.ltb_lt; simpl; lia).
    rewrite Hlt, IH; [done | done | done | simpl in Hn; lia | done].
Qed.

(** A lazy run of a class stops at the first place where the continuation
    succeeds. *)
Lemma star_lazy_cls run : forall n rest,
  Forall (fun c => p c = true) run ->
  (forall a b, run = a ++ b -> b <> [] -> k (b ++ rest) cap = None) ->
  length (run ++ rest) <= n ->
  k rest cap = Some x ->
  star_loop (mt (Cls p)) false k n (run ++ rest) cap = Some x.
Proof.
  induction run as [| c run IH]; intros n rest Hrun Hfail Hn Hk;
    rewrite star_loop_unfold; cbv zeta; cbn [app].
  - by rewrite Hk.
  - inversion Hrun as [| ? ? Hc Hrun']; subst.
    pose proof (Hfail [] (c :: run) eq_refl ltac:(done)) as Hhere.
    cbn [app] in Hhere. rewrite Hhere.
    destruct n as [| n]; [simpl in Hn; lia |].
    cbn [mt]. rewrite Hc.
    assert (Hlt : (length (run ++ rest) <? length (c :: run ++ rest)) = true)
      by (apply Nat.ltb_lt; simpl; lia).
    rewrite Hlt.
    apply IH; [done | | simpl in Hn; lia | done].
    intros a b -> Hb. by apply (Hfail (c :: a) b).
Qed.
End ClassRun.

Lemma take_captured (g rest : list ascii) :
  take (length (g ++ rest) - length rest) (g ++ rest) = g.
Proof.
  rewrite length_app. replace (length g + length rest - length rest) with (length g) by lia.
  apply take_app_length.
Qed.

(** [exec] on a pattern that opens with a literal: the first occurrence of
    the literal is the match when the rest of the pattern matches there. *)
Lemma exec_Lit_first l r s' cap : forall s n,
  indexOf l s = Some n ->
  mt r (drop (n + length l) s) None accept = Some (s', cap) ->
  exec (Seq (Lit l) r) s
    = Some {| m_input := drop n s; m_after := s'; m_group := cap |}.
Proof.
  induction s as [| a s IH]; intros n Hidx Hmt.
  - simpl in Hidx. destruct (starts_with l []) eqn:Hl; [| done].
    injection Hidx as <-. simpl. rewrite mt_Lit, Hl.
    simpl in Hmt. by rewrite Hmt.
  - cbn [indexOf] in Hidx. cbn [exec mt]. rewrite mt_Lit.
    destruct (starts_with l (a :: s)) eqn:Hl.
    + injection Hidx as <-. simpl in Hmt. by rewrite Hmt.
    + destruct (indexOf l s) as [m |] eqn:Hm; [| done].
      injection Hidx as <-. by apply IH.
Qed.

(** ... and there is no match when the literal does not occur. *)
Lemma exec_Lit_absent l r : forall s,
  indexOf l s = None -> exec (Seq (Lit l) r) s = None.
Proof.
  induction s as [| a s IH]; cbn [indexOf exec mt]; rewrite mt_Lit;
    destruct (starts_with l _); try done.
  destruct (indexOf l s); [done |]. intros _. by apply IH.
Qed.

Lemma is_digit_not_space c : is_digit c = true -> is_space c = false.
Proof. destruct c as [[] [] [] [] [] [] [] []]; (reflexivity || discriminate). Qed.

Lemma not_line_terminator_nl c :
  is_line_terminator c = false -> Ascii.eqb c nl = false.
Proof. destruct c as [[] [] [] [] [] [] [] []]; (reflexivity || discriminate). Qed.

Lemma line_terminator_not_dash c :
  is_line_terminator c = true -> Ascii.eqb c "-" = false.
Proof. destruct c as [[] [] [] [] [] [] [] []]; (reflexivity || discriminate). Qed.

Lemma line_terminator_cases c :
  is_line_terminator c = true -> c = nl \/ Ascii.eqb c nl = false.
Proof. destruct c as [[] [] [] [] [] [] [] []]; (by left) || (by right). Qed.

Lemma length_drop_spaces l : length (drop_spaces l) <= length l.
Proof.
  induction l as [| c l IH]; simpl; [done |].
  destruct (is_space c); simpl; lia.
Qed.

(** A trimmed string does not start with whitespace. *)
Lemma trimmed_head l : trimmed l -> head_is is_space l = false.
Proof.
  unfold trimmed, trim_chars. destruct l as [| c l]; [done |]. simpl.
  destruct (is_space c) eqn:Hc; [| done]. intros H.
  apply (f_equal length) in H. rewrite length_rev in H. simpl in H.
  pose proof (length_drop_spaces (rev (drop_spaces l))) as H1.
  rewrite length_rev in H1. pose proof (length_drop_spaces l). lia.
Qed.

Lemma drop_spaces_snoc l c :
  is_space c = false -> drop_spaces (l ++ [c]) = drop_spaces l ++ [c].
Proof.
  intros Hc. induction l as [| a l IH]; simpl; [by rewrite Hc |].
  by destruct (is_space a).
Qed.

(** [trim] keeps a first character that is no whitespace. *)
Lemma trim_chars_head c l :
  is_space c = false -> exists l', trim_chars (c :: l) = c :: l'.
Proof.
  intros Hc. unfold trim_chars. simpl. rewrite Hc. simpl.
  rewrite drop_spaces_snoc by done. rewrite rev_app_distr. simpl. eauto.
Qed.

(** The decimal numeral of a natural number. *)
Lemma digits_string_of_uint d :
  Forall (fun c => is_digit c = true) (chars (NilEmpty.string_of_uint d)).
Proof. induction d; simpl; constructor; done. Qed.

Lemma string_of_uint_nonempty n :
  chars (NilEmpty.string_of_uint (N.to_uint n)) <> [].
Proof.
  destruct n as [| p]; [done |]. simpl.
  pose proof (Unsigned.to_uint_nonnil p) as H.
  destruct (Pos.to_uint p); [done | done..].
Qed.

End RegExpFacts.

(** ** The conversation server *)

Module ServerSpec.
Import Js Text Server TextFacts JsFacts.

Lemma crisisKeywords_head :
  Forall (fun keyword => exists c t, chars keyword = c :: t /\ is_space c = false)
         crisisKeywords.
Proof. repeat constructor; eexists _, _; (split; [reflexivity | reflexivity]). Qed.

(** A message in which a crisis keyword is found has a character that is no
    whitespace. *)
Lemma keyword_message_not_blank message keyword :
  keyword ∈ crisisKeywords ->
  includes (toLowerCase message) keyword = true ->
  exists c, In c (chars message) /\ is_space c = false.
Proof.
  intros Hk Hinc.
  pose proof crisisKeywords_head as Hall. rewrite Forall_forall in Hall.
  destruct (Hall _ Hk) as (c & t & Hkw & Hc).
  unfold includes in Hinc. rewrite Hkw, chars_toLowerCase in Hinc.
  apply includes_chars_In, in_map_iff in Hinc as (c0 & <- & Hin).
  exists c0. split; [done |]. by rewrite <- is_space_lower.
Qed.

Lemma detectCrisis_true message keyword :
  keyword ∈ crisisKeywords ->
  includes (toLowerCase message) keyword = true ->
  detectCrisis message = true.
Proof.
  intros Hk Hinc. unfold detectCrisis. apply existsb_exists.
  exists keyword. split; [by apply list_elem_of_In | done].
Qed.

(** C3.  A message to an existing conversation whose lower-cased text
    contains a crisis keyword gets the fixed safety response and the three
    crisis-resource identifiers; [generateAIResponse] is not called (the
    outcome is the same for every [Math.random()] draw), and the
    conversation gains the user message and the safety response only. *)
Theorem postMessage_crisis env id message conversations conversation keyword :
  conversations !! id = Some conversation ->
  keyword ∈ crisisKeywords ->
  includes (toLowerCase message) keyword = true ->
  let out := postMessage env id (Some message) conversations in
  exists response,
    reply out = ReplyCrisis response true
                  {| national := "988"; crisis := "741741"; trevor := "1-866-488-7386" |} /\
    role response = "system"%string /\
    content response = Some crisisContent /\
    m_isCrisis response = Some true /\
    (CallGenerateAIResponse ∉ calls out) /\
    (forall r, postMessage (with_random r env) id (Some message) conversations = out) /\
    exists userMessage conversation',
      store out !! id = Some conversation' /\
      content userMessage = Some (trim message) /\
      messages conversation' = messages conversation ++ [userMessage; response].
Proof.
  intros Hconv Hk Hinc out. subst out. unfold postMessage. rewrite Hconv.
  destruct (keyword_message_not_blank _ _ Hk Hinc) as (c & Hin & Hc).
  destruct (trim_nonempty _ _ Hin Hc) as [Hlen Htrim].
  unfold message_is_empty.
  apply Nat.eqb_neq in Hlen, Htrim. rewrite Hlen, Htrim. simpl.
  rewrite (detectCrisis_true _ _ Hk Hinc). simpl.
  eexists. split; [reflexivity |]. repeat split.
  - intros [Hcontra | Hcontra%elem_of_nil]%elem_of_cons; [discriminate | done].
  - eexists _, _. split; [apply lookup_insert_eq |]. split; [| simpl; by rewrite <- app_assoc].
    reflexivity.
Qed.

Lemma postMessage_crisis_witness :
  exists response,
    reply (postMessage ex_env "c-1" (Some "I feel HOPELESS today"%string) ex_store)
      = ReplyCrisis response true
          {| national := "988"; crisis := "741741"; trevor := "1-866-488-7386" |} /\
    content response = Some crisisContent.
Proof.
  destruct (postMessage_crisis ex_env "c-1" "I feel HOPELESS today" ex_store
              (ex_conversation "friend-checkin" scenario_friend_checkin) "hopeless")
    as (response & Hreply & _ & Hcontent & _).
  - vm_compute; reflexivity.
  - unfold crisisKeywords. set_solver.
  - vm_compute; reflexivity.
  - exists response. split; [exact Hreply | exact Hcontent].
Defined.

(** C9.  An empty or whitespace-only message to an existing conversation is
    answered with status 400, and the conversation map (so also the message
    list of the conversation) is left as it was.  Whitespace is what
    [message.trim()] strips: tabs, line terminators, spaces and no-break
    spaces. *)
Theorem postMessage_blank env id message conversations conversation :
  conversations !! id = Some conversation ->
  Forall (fun c => is_space c = true) (chars message) ->
  let out := postMessage env id (Some message) conversations in
  reply out = ReplyError 400 "Message cannot be empty" /\
  store out = conversations /\
  store out !! id = Some conversation /\
  calls out = [].
Proof.
  intros Hconv Hblank out. subst out. unfold postMessage. rewrite Hconv.
  unfold message_is_empty. rewrite (trim_all_spaces _ Hblank). simpl.
  rewrite orb_true_r. simpl. done.
Qed.

Lemma postMessage_blank_witness :
  let message := str [" "%char; "009"%char; nbsp; nl] in
  reply (postMessage ex_env "c-1" (Some message) ex_store)
    = ReplyError 400 "Message cannot be empty" /\
  store (postMessage ex_env "c-1" (Some message) ex_store) = ex_store.
Proof.
  intros message.
  destruct (postMessage_blank ex_env "c-1" message ex_store
              (ex_conversation "friend-checkin" scenario_friend_checkin))
    as (Hreply & Hstore & _).
  - vm_compute; reflexivity.
  - repeat constructor.
  - split; [exact Hreply | exact Hstore].
Defined.

Lemma generateAIResponse_elem r conversation userMessage :
  is_random r ->
  possibleResponses (scenario conversation) (responseCategory (toLowerCase userMessage)) <> [] ->
  exists x, generateAIResponse r conversation userMessage = Some x /\
            x ∈ possibleResponses (scenario conversation)
                  (responseCategory (toLowerCase userMessage)).
Proof. intros Hr Hne. unfold generateAIResponse. by apply random_pick_elem. Qed.

(** C7, as stated: the reply is drawn from the bucket's list in the
    scenario.  The scenario 'therapy-suggestion' has no empathy list; an
    empathy message there is answered from the general fallback list, with a
    string that is in none of the scenario's lists. *)
Lemma generateAIResponse_bucket_counterexample :
  let conversation := ex_conversation "therapy-suggestion" scenario_therapy_suggestion in
  let userMessage := "I am so sorry to hear that"%string in
  responseCategory (toLowerCase userMessage) = "empathy"%string /\
  patterns (responses (scenario conversation)) !! "empathy"%string = None /\
  generateAIResponse 0 conversation userMessage = Some "I appreciate you saying that."%string /\
  map_Forall (fun _ l => "I appreciate you saying that."%string ∉ l)
             (patterns (responses (scenario conversation))).
Proof.
  repeat split; try (vm_compute; reflexivity).
  simpl. unfold scenario_therapy_suggestion. simpl.
  repeat (apply map_Forall_insert_2;
          [intros H; repeat (apply elem_of_cons in H as [H | H]; [discriminate |]);
           by apply elem_of_nil in H |]).
  apply map_Forall_empty.
Qed.

(** C7, amended.  The message is put in exactly one bucket by substring
    presence, empathy cues first, then a question mark, then advice cues,
    else general; the reply is a string of the scenario's list for that
    bucket when the scenario has a non-empty one, and a string of the fixed
    general fallback list when the scenario has no list for the bucket. *)
Theorem generateAIResponse_classifies r conversation userMessage :
  is_random r ->
  let lowerMessage := toLowerCase userMessage in
  let empathy := includes lowerMessage "sorry" || includes lowerMessage "understand"
                 || includes lowerMessage "feel" in
  let question := includes lowerMessage "?" in
  let advice := includes lowerMessage "should" || includes lowerMessage "try"
                || includes lowerMessage "maybe" in
  let category := responseCategory lowerMessage in
  (empathy = true -> category = "empathy"%string) /\
  (empathy = false -> question = true -> category = "questions"%string) /\
  (empathy = false -> question = false -> advice = true -> category = "solutions"%string) /\
  (empathy = false -> question = false -> advice = false -> category = "general"%string) /\
  match patterns (responses (scenario conversation)) !! category with
  | Some l => l <> [] ->
              exists x, generateAIResponse r conversation userMessage = Some x /\ x ∈ l
  | None => exists x, generateAIResponse r conversation userMessage = Some x /\
                      x ∈ generalResponses
  end.
Proof.
  intros Hr lowerMessage empathy question advice category.
  repeat split.
  - intros H. subst category. unfold responseCategory. fold lowerMessage empathy. by rewrite H.
  - intros H1 H2. subst category. unfold responseCategory.
    fold lowerMessage empathy question. by rewrite H1, H2.
  - intros H1 H2 H3. subst category. unfold responseCategory.
    fold lowerMessage empathy question advice. by rewrite H1, H2, H3.
  - intros H1 H2 H3. subst category. unfold responseCategory.
    fold lowerMessage empathy question advice. by rewrite H1, H2, H3.
  - pose proof (generateAIResponse_elem r conversation userMessage Hr) as H.
    fold lowerMessage category in H. unfold possibleResponses in H.
    destruct (patterns (responses (scenario conversation)) !! category) as [l |].
    + exact H.
    + apply H. discriminate.
Qed.

Lemma generateAIResponse_classifies_witness :
  exists x,
    generateAIResponse (2 ^ 52) (ex_conversation "friend-checkin" scenario_friend_checkin)
      "Why do you feel that way?" = Some x /\
    x ∈ [ "Thanks for asking... it means a lot that you noticed.";
          "I appreciate you checking in. I have been struggling a bit." ]%string.
Proof.
  assert (Hr : is_random (2 ^ 52)) by (unfold is_random; lia).
  destruct (generateAIResponse_classifies (2 ^ 52)
              (ex_conversation "friend-checkin" scenario_friend_checkin)
              "Why do you feel that way?" Hr) as (_ & _ & _ & _ & H).
  vm_compute in H. vm_compute. apply H. discriminate.
Defined.

(** The guard of [generateAIResponse] tests the list for truthiness, and an
    empty array is truthy: a scenario with an empty list, which the table
    does not have, would be answered with [undefined]. *)
Lemma generateAIResponse_empty_list :
  let conversation := ex_conversation "empty" scenario_empty_list in
  let userMessage := "I understand"%string in
  detectCrisis userMessage = false /\
  is_random 0 /\
  patterns (responses (scenario conversation)) !! responseCategory (toLowerCase userMessage)
    = Some [] /\
  generateAIResponse 0 conversation userMessage = None.
Proof.
  repeat split; try (vm_compute; reflexivity); vm_compute; discriminate.
Qed.

(** Every pattern list of every scenario of the table is non-empty. *)
Lemma scenarios_patterns_nonempty scenarioId sc :
  scenarios !! scenarioId = Some sc -> patterns_nonempty sc.
Proof.
  intros Hsc category l Hl.
  apply elem_of_list_to_map_2 in Hsc.
  repeat (apply elem_of_cons in Hsc as [Hsc | Hsc];
          [ injection Hsc as _ ->; apply elem_of_list_to_map_2 in Hl;
            repeat (apply elem_of_cons in Hl as [Hl | Hl];
                    [injection Hl as _ ->; discriminate |]);
            by apply elem_of_nil in Hl |]).
  by apply elem_of_nil in Hsc.
Qed.

(** C10.  [generateAIResponse] has no throwing path, and for every scenario
    it is called with and every message, crisis or not, it returns a string
    that is a member of the scenario's list for the matched category, or of
    the four-string general fallback list when the scenario's patterns
    object has no list for the category.  The function is private to the
    module; its one caller passes [conversation.scenario], which the start
    route takes from the table of scenarios. *)
Theorem generateAIResponse_total r scenarioId conversation userMessage :
  is_random r ->
  scenarios !! scenarioId = Some (scenario conversation) ->
  let category := responseCategory (toLowerCase userMessage) in
  exists x,
    generateAIResponse r conversation userMessage = Some x /\
    match patterns (responses (scenario conversation)) !! category with
    | Some l => x ∈ l
    | None => x ∈ generalResponses /\ length generalResponses = 4
    end.
Proof.
  intros Hr Hsc category.
  pose proof (scenarios_patterns_nonempty _ _ Hsc) as Hne.
  destruct (generateAIResponse_elem r conversation userMessage Hr) as (x & Hx & Hin).
  - fold category. unfold possibleResponses.
    destruct (patterns (responses (scenario conversation)) !! category) as [l |] eqn:Hl;
      [by apply (Hne _ _ Hl) | discriminate].
  - exists x. split; [done |]. fold category in Hin. unfold possibleResponses in Hin.
    by destruct (patterns (responses (scenario conversation)) !! category).
Qed.

Lemma generateAIResponse_total_witness :
  (exists x,
     generateAIResponse (2 ^ 52)
       (ex_conversation "crisis-response" scenario_crisis_response)
       "Thank you for telling me" = Some x /\ x ∈ generalResponses) /\
  (exists x l,
     generateAIResponse 0
       (ex_conversation "friend-checkin" scenario_friend_checkin)
       "I understand" = Some x /\
     patterns (responses scenario_friend_checkin) !! "empathy"%string = Some l /\ x ∈ l).
Proof.
  assert (Hr : forall r, r = 0%Z \/ r = (2 ^ 52)%Z -> is_random r)
    by (intros r [-> | ->]; unfold is_random; lia).
  split.
  - destruct (generateAIResponse_total (2 ^ 52) "crisis-response"
                (ex_conversation "crisis-response" scenario_crisis_response)
                "Thank you for telling me") as (x & Hx & Hin);
      [apply Hr; by right | vm_compute; reflexivity |].
    exists x. split; [exact Hx |]. vm_compute in Hin. exact (proj1 Hin).
  - destruct (generateAIResponse_total 0 "friend-checkin"
                (ex_conversation "friend-checkin" scenario_friend_checkin)
                "I understand") as (x & Hx & Hin);
      [apply Hr; by left | vm_compute; reflexivity |].
    destruct (patterns (responses (scenario
                (ex_conversation "friend-checkin" scenario_friend_checkin)))
                !! responseCategory (toLowerCase "I understand")) as [l |] eqn:Hl;
      [| vm_compute in Hl; discriminate].
    exists x, l. split; [exact Hx |]. split; [| exact Hin].
    rewrite <- Hl. vm_compute. reflexivity.
Defined.

Lemma startConversation_store_ok uuid now scenarioId conversations :
  store_ok conversations ->
  store_ok (startConversation uuid now scenarioId conversations).2.
Proof.
  intros Hok. unfold startConversation.
  destruct (scenarios !! scenarioId) as [sc |] eqn:Hsc; [| done].
  apply map_Forall_insert_2; [| done]. by eapply scenarios_patterns_nonempty.
Qed.

Lemma postMessage_store_ok env id message conversations :
  store_ok conversations -> store_ok (store (postMessage env id message conversations)).
Proof.
  intros Hok. unfold postMessage.
  destruct (conversations !! id) as [conversation |] eqn:Hc; [| done].
  destruct (message_is_empty message); [done |].
  pose proof (Hok _ _ Hc) as Hsc.
  destruct (detectCrisis _); apply map_Forall_insert_2; done.
Qed.

(** On such a store every reply of the responder carries a string. *)
Lemma postMessage_reply_content env id message conversations response isCrisis :
  store_ok conversations ->
  is_random (random env) ->
  reply (postMessage env id message conversations) = ReplyMessage response isCrisis ->
  is_Some (content response).
Proof.
  intros Hok Hr. unfold postMessage.
  destruct (conversations !! id) as [conversation |] eqn:Hc; [| done].
  destruct (message_is_empty message); [done |].
  destruct (detectCrisis _); [done |]. intros [= <- _]. simpl.
  pose proof (Hok _ _ Hc) as Hsc.
  destruct (generateAIResponse_elem (random env)
              (push_message
                 {| m_id := uuid1 env; role := "user";
                    content := Some (trim (default EmptyString message));
                    timestamp := now1 env; m_isCrisis := None |} conversation)
              (default EmptyString message) Hr) as (x & -> & _); [| done].
  simpl. unfold possibleResponses.
  destruct (patterns (responses (scenario conversation)) !! _) as [l |] eqn:Hl;
    [by apply (Hsc _ _ Hl) | discriminate].
Qed.

End ServerSpec.

(** ** Script scoring and the update route *)

Module ScriptsSpec.
Import Text RegExp Scripts.
Local Open Scope Z_scope.

Lemma phrase_count_nonneg script phrase : 0 <= phrase_count script phrase.
Proof. unfold phrase_count. lia. Qed.

Lemma add_counts_ge script weight phrases : forall level,
  0 <= weight -> level <= add_counts script weight phrases level.
Proof.
  unfold add_counts.
  induction phrases as [| phrase phrases IH]; intros level Hw; simpl; [lia |].
  specialize (IH (level + phrase_count script phrase * weight) Hw).
  pose proof (phrase_count_nonneg script phrase). nia.
Qed.

Lemma wordCount_nonneg script : 0 <= wordCount script.
Proof. unfold wordCount. lia. Qed.

Lemma calculateNathanLevel_range script enhancements :
  20 <= calculateNathanLevel script enhancements <= 100.
Proof.
  unfold calculateNathanLevel.
  set (l1 := 20 + Z.min 20 (wordCount script / 50)).
  assert (H1 : 20 <= l1).
  { subst l1. pose proof (wordCount_nonneg script).
    assert (0 <= wordCount script / 50) by (apply Z.div_pos; lia). lia. }
  pose proof (add_counts_ge script 2 awkwardPhrases l1 ltac:(lia)) as H2.
  pose proof (add_counts_ge script 3 preparationWords
                (add_counts script 2 awkwardPhrases l1) ltac:(lia)) as H3.
  pose proof (add_counts_ge script 4 statisticsWords
                (add_counts script 3 preparationWords
                   (add_counts script 2 awkwardPhrases l1)) ltac:(lia)) as H4.
  repeat match goal with |- context [if ?b then _ else _] => destruct b end; lia.
Qed.

(** C5.  [calculateNathanLevel] is a function of the script text and the
    enhancement list alone (it reads no clock, no random source and no
    state), so equal inputs give equal scores; and every score lies within
    [[0, 100]]. *)
Theorem calculateNathanLevel_deterministic_bounded :
  (forall script1 enhancements1 script2 enhancements2,
      script1 = script2 -> enhancements1 = enhancements2 ->
      calculateNathanLevel script1 enhancements1
        = calculateNathanLevel script2 enhancements2) /\
  (forall script enhancements,
      0 <= calculateNathanLevel script enhancements <= 100).
Proof.
  split.
  - intros script1 enhancements1 script2 enhancements2 -> ->. reflexivity.
  - intros script enhancements.
    pose proof (calculateNathanLevel_range script enhancements). lia.
Qed.

Lemma calculateNathanLevel_deterministic_bounded_witness :
  calculateNathanLevel (originalScript ex_script) ["awkwardness"%string]
    = calculateNathanLevel "So... um, I made a plan to practice this talk 147 times."
        (enhancements ex_script) /\
  0 <= calculateNathanLevel (originalScript ex_script) (enhancements ex_script) <= 100.
Proof.
  split.
  - apply (proj1 calculateNathanLevel_deterministic_bounded); reflexivity.
  - apply (proj2 calculateNathanLevel_deterministic_bounded).
Defined.

(** C8, as stated: every successful update.  An update of the title alone
    succeeds, leaves the draft number as it was and does not touch the
    stored level, which here differs from the level of the text. *)
Lemma putScript_counterexample :
  exists reply db',
    putScript 1700000000500 "u-1" "s-1" ex_update_title ex_db = (PutOk reply, db') /\
    draftNumber ex_script = 3 /\
    r_draftNumber reply = 3 /\
    (draftNumber <$> db' !! "s-1"%string) = Some 3 /\
    r_nathanLevel reply = 48 /\
    calculateNathanLevel "So... um, I made a plan to practice this talk 147 times."
      ["awkwardness"%string] = 43.
Proof.
  eexists _, _. split; [reflexivity |].
  repeat split; vm_compute; reflexivity.
Qed.

(** C8, amended.  A successful [PUT /api/scripts/:id] stores a script whose
    draft number is the old one plus one when the request supplies a
    non-empty [originalScript] or [enhancedScript], and the old one
    otherwise; and when the request supplies an enhancement list, the stored
    level is [calculateNathanLevel] of the updated text and that list. *)
Theorem putScript_draft_and_level now user scriptId body db reply db' :
  putScript now user scriptId body db = (PutOk reply, db') ->
  exists existingScript updatedScript,
    db !! scriptId = Some existingScript /\
    db' !! scriptId = Some updatedScript /\
    r_draftNumber reply = draftNumber updatedScript /\
    r_nathanLevel reply = nathanLevel updatedScript /\
    draftNumber updatedScript =
      (if bool_decide (truthy (u_originalScript body) = None /\
                       truthy (u_enhancedScript body) = None)
       then draftNumber existingScript
       else draftNumber existingScript + 1) /\
    originalScript updatedScript =
      default (originalScript existingScript) (truthy (u_originalScript body)) /\
    forall enh,
      u_enhancements body = Some enh ->
      enhancements updatedScript = enh /\
      nathanLevel updatedScript = calculateNathanLevel (originalScript updatedScript) enh.
Proof.
  unfold putScript. intros H.
  destruct (negb (updateScriptSchema body)); [discriminate |].
  destruct (db !! scriptId) as [existingScript |] eqn:Hdb; [| discriminate].
  destruct (String.eqb (userId existingScript) user); [| discriminate].
  injection H as <- <-.
  exists existingScript, (apply_updates now body existingScript).
  split; [done |]. split; [apply lookup_insert_eq |].
  split; [done |]. split; [done |]. split.
  - simpl. destruct (truthy (u_originalScript body)), (truthy (u_enhancedScript body));
      simpl;
      first [ done
            | rewrite bool_decide_eq_false_2 by (intros [? ?]; discriminate); done
            | rewrite bool_decide_eq_true_2 by done; done ].
  - split; [done |]. intros enh Henh. simpl. by rewrite Henh.
Qed.

Lemma putScript_draft_and_level_witness :
  exists existingScript updatedScript,
    ex_db !! "s-1"%string = Some existingScript /\
    draftNumber updatedScript = draftNumber existingScript + 1 /\
    nathanLevel updatedScript =
      calculateNathanLevel "I built a replica of the room and a flowchart of the talk."
        ["diagrams"; "replicas"]%string.
Proof.
  destruct (putScript 1700000000500 "u-1" "s-1" ex_update_text ex_db) as [res db'] eqn:Hput.
  assert (Hok : exists reply, res = PutOk reply).
  { vm_compute in Hput. injection Hput as <- _. eexists; reflexivity. }
  destruct Hok as [reply ->].
  destruct (putScript_draft_and_level _ _ _ _ _ _ _ Hput)
    as (existingScript & updatedScript & Hdb & _ & _ & _ & Hdraft & Htext & Hlevel).
  exists existingScript, updatedScript. split; [exact Hdb |].
  assert (Hex : existingScript = ex_script).
  { vm_compute in Hdb. injection Hdb as <-. reflexivity. }
  subst existingScript. destruct (Hlevel _ eq_refl) as [_ Hlevel'].
  split; [exact Hdraft |]. rewrite Hlevel', Htext. reflexivity.
Defined.

End ScriptsSpec.

(** ** The analysis-response parser *)

Module AIServiceSpec.
Import Text RegExp AIService TextFacts RegExpFacts.

Lemma parseInt_decimal n : parseInt (decimal n) = n.
Proof.
  unfold parseInt, decimal. rewrite str_chars, NilEmpty.usu.
  apply DecimalN.Unsigned.of_to.
Qed.

Lemma decimal_digits n : Forall (fun c => is_digit c = true) (decimal n).
Proof. apply digits_string_of_uint. Qed.

Lemma decimal_nonempty n : decimal n <> [].
Proof. apply string_of_uint_nonempty. Qed.

(** [\s*(\d+)] on blanks followed by a numeral captures the numeral. *)
Lemma mt_score_tail ws ds rest :
  Forall (fun c => is_space c = true) ws ->
  Forall (fun c => is_digit c = true) ds ->
  ds <> [] ->
  head_is is_digit rest = false ->
  mt (Seq (Star true Space) (Group (Plus Digit))) (ws ++ ds ++ rest) None accept
    = Some (rest, Some ds).
Proof.
  intros Hws Hds Hne Hrest.
  destruct ds as [| d ds]; [done |]. inversion Hds as [| ? ? Hd Hds']; subst.
  cbn [mt]. apply star_greedy_cls; [done | | done |].
  - simpl. by apply is_digit_not_space.
  - cbn [app Plus mt Digit]. rewrite Hd.
    rewrite (star_greedy_cls is_digit _ None (rest, Some (d :: ds)) ds);
      [done | done | done | done |].
    unfold accept. do 3 f_equal.
    apply (take_captured (d :: ds) rest).
Qed.

Lemma score_labeled label fallback n response :
  labels_score label n response -> score label fallback response = n.
Proof.
  intros (pre & ws & rest & Hresp & Hidx & Hws & Hrest & _).
  unfold score, capture, score_re.
  rewrite (exec_Lit_first (chars label) _ rest (Some (decimal n))
             (chars response) (length pre) Hidx).
  - simpl. apply parseInt_decimal.
  - rewrite Hresp, <- length_app, app_assoc, drop_app_length.
    apply mt_score_tail; [done | apply decimal_digits | apply decimal_nonempty | done].
Qed.

Lemma score_default label fallback response :
  exec (score_re label) (chars response) = None ->
  score label fallback response = fallback.
Proof. intros H. unfold score, capture. by rewrite H. Qed.

(** Inside a line the lookahead of the observation pattern fails. *)
Lemma ahead_inside_line c t cap k :
  is_line_terminator c = false ->
  mt (Ahead paragraph_end) (c :: t) cap k = None.
Proof.
  intros Hc%not_line_terminator_nl. rewrite Ascii.eqb_sym in Hc.
  unfold paragraph_end. cbn [mt]. rewrite !mt_Lit.
  cbn [chars list_ascii_of_string starts_with]. by rewrite Hc.
Qed.

(** At the end of the paragraph it succeeds, and captures nothing. *)
Lemma ahead_paragraph_end rest cap k :
  rest = [] \/ starts_with [nl; nl] rest = true
  \/ starts_with (nl :: chars "IMPROVEMENT_SUGGESTIONS") rest = true ->
  mt (Ahead paragraph_end) rest cap k = k rest cap.
Proof.
  intros H. unfold paragraph_end. cbn [mt]. rewrite !mt_Lit.
  destruct H as [-> | [H | H]].
  - reflexivity.
  - by rewrite H.
  - rewrite H. by destruct (starts_with [nl; nl] rest).
Qed.

(** The observation pattern, after the label, on blanks, a one-line
    paragraph and the end of the paragraph: group 1 is the paragraph. *)
Lemma mt_observation_tail ws text rest :
  Forall (fun c => is_space c = true) ws ->
  text <> [] -> trimmed text -> no_line_terminator text ->
  rest = [] \/ starts_with [nl; nl] rest = true
  \/ starts_with (nl :: chars "IMPROVEMENT_SUGGESTIONS") rest = true ->
  mt (Seq (Star true Space) (Seq (Group (Star false Dot)) (Ahead paragraph_end)))
     (ws ++ text ++ rest) None accept
    = Some (rest, Some text).
Proof.
  intros Hws Hne Htrim Hline Hrest.
  rewrite mt_Seq, mt_Star. apply star_greedy_cls; [done | | done |].
  - pose proof (trimmed_head text Htrim) as Hhead.
    destruct text; [done | exact Hhead].
  - rewrite mt_Seq, mt_Group, mt_Star. apply star_lazy_cls.
    + eapply Forall_impl; [exact Hline |]. intros c Hc. simpl in Hc. by rewrite Hc.
    + intros a b -> Hb. destruct b as [| c b]; [done |].
      apply ahead_inside_line.
      unfold no_line_terminator in Hline. rewrite Forall_app, Forall_cons in Hline.
      tauto.
    + done.
    + rewrite ahead_paragraph_end by done. unfold accept.
      by rewrite take_captured.
Qed.

Lemma observation_labeled text response :
  labels_observation text response ->
  nathanObservation (parseAnalysisResponse response) = text.
Proof.
  intros (pre & ws & rest & Hresp & Hidx & Hws & Hne & Htrim & Hline & Hrest).
  unfold parseAnalysisResponse. cbn [nathanObservation].
  unfold capture, observation_re.
  rewrite (exec_Lit_first (chars "NATHAN_OBSERVATION:") _ rest (Some (chars text))
             (chars response) (length pre) Hidx).
  - cbn [m_group default from_option id]. unfold trimmed in Htrim.
    rewrite Htrim. apply str_chars.
  - rewrite Hresp, <- length_app, app_assoc, drop_app_length.
    by apply mt_observation_tail.
Qed.

Lemma observation_default response :
  exec observation_re (chars response) = None ->
  nathanObservation (parseAnalysisResponse response) = nathanObservation defaultValues.
Proof.
  intros H. unfold parseAnalysisResponse. cbn [nathanObservation].
  unfold capture. by rewrite H.
Qed.

(** *** The suggestions *)

Lemma line_end_head rest :
  line_end rest -> head_is (fun c => negb (is_line_terminator c)) rest = false.
Proof.
  intros [-> | [H _]]; [done |]. destruct rest as [| c rest]; [done |].
  simpl in *. by rewrite H.
Qed.

(** No dash line starts where the lines end. *)
Lemma mt_dash_line_stop rest cap k : line_end rest -> mt dash_line rest cap k = None.
Proof.
  intros [-> | [Hlt Hdash]]; [reflexivity |].
  destruct rest as [| c t]; [done |]. simpl in Hlt.
  unfold dash_line, Opt. rewrite mt_Seq, mt_Alt.
  assert (Hsecond :
    mt Eps (c :: t) cap (fun s1 c1 => mt (Seq (Chr "-") (Star true Dot)) s1 c1 k) = None).
  { rewrite mt_Eps, mt_Seq, mt_Chr_cons. by rewrite (line_terminator_not_dash c Hlt). }
  rewrite Hsecond. rewrite mt_Chr_cons.
  destruct (line_terminator_cases c Hlt) as [-> | Hc]; [| by rewrite Hc].
  change (Ascii.eqb nl nl) with true. cbv beta iota.
  cbn [starts_with] in Hdash. change (Ascii.eqb nl nl) with true in Hdash.
  cbn [andb] in Hdash.
  destruct t as [| d t]; [reflexivity |].
  rewrite andb_true_r in Hdash.
  rewrite mt_Seq, mt_Chr_cons, (Ascii.eqb_sym d "-"). by rewrite Hdash.
Qed.

(** A dash line at the head of the input is taken up to its end. *)
Lemma mt_dash_line_first run rest cap k x :
  no_line_terminator run ->
  head_is (fun c => negb (is_line_terminator c)) rest = false ->
  k rest cap = Some x ->
  mt dash_line ("-"%char :: run ++ rest) cap k = Some x.
Proof.
  intros Hrun Hrest Hk.
  unfold dash_line, Opt. rewrite mt_Seq, mt_Alt, mt_Chr_cons.
  change (Ascii.eqb "-" nl) with false. cbv iota.
  rewrite mt_Eps, mt_Seq, mt_Chr_cons. change (Ascii.eqb "-" "-") with true. cbv iota.
  rewrite mt_Star. unfold Dot.
  apply star_greedy_cls; [| done | done | done].
  eapply Forall_impl; [exact Hrun |]. intros c Hc. simpl in Hc. by rewrite Hc.
Qed.

(** So is a dash line on the next line. *)
Lemma mt_dash_line_next run rest cap k x :
  no_line_terminator run ->
  head_is (fun c => negb (is_line_terminator c)) rest = false ->
  k rest cap = Some x ->
  mt dash_line (nl :: "-"%char :: run ++ rest) cap k = Some x.
Proof.
  intros Hrun Hrest Hk.
  unfold dash_line, Opt. rewrite mt_Seq, mt_Alt, mt_Chr_cons.
  change (Ascii.eqb nl nl) with true. cbv iota.
  rewrite mt_Seq, mt_Chr_cons. change (Ascii.eqb "-" "-") with true. cbv iota.
  rewrite mt_Star. unfold Dot.
  rewrite star_greedy_cls with (x := x); [done | | done | done | done].
  eapply Forall_impl; [exact Hrun |]. intros c Hc. simpl in Hc. by rewrite Hc.
Qed.

Lemma line_ok_run line : line_ok line -> no_line_terminator (line.1 ++ chars line.2).
Proof. intros (_ & H1 & _ & H2). by apply Forall_app. Qed.

Lemma more_lines_head lines rest :
  line_end rest ->
  head_is (fun c => negb (is_line_terminator c)) (more_lines lines ++ rest) = false.
Proof.
  intros Hrest. destruct lines as [| line lines]; [by apply line_end_head | done].
Qed.

(** The repetition of the dash line takes all the lines there are. *)
Lemma dash_loop k cap x rest : forall lines n,
  Forall line_ok lines ->
  line_end rest ->
  length (more_lines lines ++ rest) <= n ->
  k rest cap = Some x ->
  star_loop (mt dash_line) true k n (more_lines lines ++ rest) cap = Some x.
Proof.
  induction lines as [| line lines IH]; intros n Hok Hrest Hn Hk;
    rewrite star_loop_unfold; cbv zeta.
  - cbn [more_lines map concat app].
    destruct n; [by rewrite Hk |]. by rewrite mt_dash_line_stop, Hk.
  - inversion Hok as [| ? ? Hline Hok']; subst.
    destruct n as [| n]; [simpl in Hn; lia |].
    assert (Hshape : more_lines (line :: lines) ++ rest
                     = nl :: "-"%char :: (line.1 ++ chars line.2) ++ (more_lines lines ++ rest)).
    { unfold more_lines, dash_text. simpl. by rewrite <- !app_assoc. }
    rewrite Hshape in Hn |- *.
    rewrite mt_dash_line_next with (x := x);
      [done | by apply line_ok_run | by apply more_lines_head |].
    assert (Hlt : (length (more_lines lines ++ rest)
                   <? length (nl :: "-"%char :: (line.1 ++ chars line.2)
                                 ++ more_lines lines ++ rest)) = true).
    { apply Nat.ltb_lt. simpl. rewrite !length_app. lia. }
    rewrite Hlt. apply IH; [done | done | | done].
    simpl in Hn. rewrite !length_app in Hn. rewrite length_app. lia.
Qed.

(** The suggestions pattern, after the label, on blanks and dash lines:
    group 1 is the block of dash lines. *)
Lemma mt_suggestions_tail ws lines rest :
  Forall (fun c => is_space c = true) ws ->
  lines <> [] ->
  Forall line_ok lines ->
  line_end rest ->
  mt (Seq (Star true Space) (Group (Plus dash_line)))
     (ws ++ dash_block lines ++ rest) None accept
    = Some (rest, Some (dash_block lines)).
Proof.
  intros Hws Hne Hok Hrest.
  destruct lines as [| line lines]; [done |].
  inversion Hok as [| ? ? Hline Hok']; subst.
  rewrite mt_Seq, mt_Star. apply star_greedy_cls; [done | done | done |].
  rewrite mt_Group. unfold Plus. rewrite mt_Seq.
  assert (Hshape : dash_block (line :: lines) ++ rest
                   = "-"%char :: (line.1 ++ chars line.2) ++ (more_lines lines ++ rest)).
  { unfold dash_block, dash_text. simpl. by rewrite <- !app_assoc. }
  rewrite Hshape at 1.
  apply mt_dash_line_first; [by apply line_ok_run | by apply more_lines_head |].
  rewrite mt_Star. apply dash_loop; [done | done | done |].
  unfold accept. by rewrite take_captured.
Qed.

Lemma split_on_line l s :
  Forall (fun c => Ascii.eqb c nl = false) l ->
  split_on nl (l ++ nl :: s) = l :: split_on nl s.
Proof.
  induction 1 as [| c l Hc _ IH]; simpl; [done |]. by rewrite Hc, IH.
Qed.

Lemma split_on_last l :
  Forall (fun c => Ascii.eqb c nl = false) l -> split_on nl l = [l].
Proof.
  induction 1 as [| c l Hc _ IH]; simpl; [done |]. by rewrite Hc, IH.
Qed.

Lemma dash_text_no_nl line :
  line_ok line -> Forall (fun c => Ascii.eqb c nl = false) (dash_text line).
Proof.
  intros Hline%line_ok_run. unfold dash_text. constructor; [done |].
  eapply Forall_impl; [exact Hline |]. intros c. apply not_line_terminator_nl.
Qed.

(** [split('\n')] gives the dash lines back. *)
Lemma split_on_dash_lines : forall lines line,
  Forall line_ok (line :: lines) ->
  split_on nl (dash_text line ++ more_lines lines) = map dash_text (line :: lines).
Proof.
  induction lines as [| line' lines IH]; intros line Hok;
    inversion Hok as [| ? ? Hline Hok']; subst.
  - change (more_lines []) with (@nil ascii). rewrite app_nil_r.
    by apply split_on_last, dash_text_no_nl.
  - change (more_lines (line' :: lines))
      with ((nl :: dash_text line') ++ more_lines lines).
    cbn [app]. rewrite split_on_line by by apply dash_text_no_nl.
    rewrite IH by done. reflexivity.
Qed.

Lemma dash_text_kept line :
  starts_with ["-"%char] (trim_chars (dash_text line)) = true.
Proof.
  unfold dash_text.
  destruct (trim_chars_head "-" (line.1 ++ chars line.2)) as [l' ->]; done.
Qed.

Lemma strip_dash_text line :
  line_ok line -> str (trim_chars (strip_dash (dash_text line))) = line.2.
Proof.
  intros (Hgap & _ & Htrim & _). unfold strip_dash, dash_text.
  rewrite mt_Seq, mt_Chr_cons. change (Ascii.eqb "-" "-") with true. cbv iota.
  rewrite mt_Star.
  rewrite (star_greedy_cls is_space accept None (chars line.2, None) line.1);
    [| done | by apply trimmed_head | done | done].
  unfold trimmed in Htrim. rewrite Htrim. apply str_chars.
Qed.

Lemma items_of_dash_texts lines :
  Forall line_ok lines ->
  map (fun line => str (trim_chars (strip_dash line)))
      (List.filter (fun line => starts_with ["-"%char] (trim_chars line))
                   (map dash_text lines))
  = map snd lines.
Proof.
  induction 1 as [| l ls Hl _ IH]; [done |].
  cbn [map List.filter]. rewrite dash_text_kept. cbn [map].
  by rewrite strip_dash_text, IH.
Qed.

Lemma dash_items_block lines :
  lines <> [] -> Forall line_ok lines -> dash_items (dash_block lines) = map snd lines.
Proof.
  intros Hne Hok. destruct lines as [| line lines]; [done |].
  unfold dash_items, dash_block. rewrite split_on_dash_lines by done.
  by apply items_of_dash_texts.
Qed.

Lemma suggestions_labeled items response :
  labels_suggestions items response ->
  improvementSuggestions (parseAnalysisResponse response) = take 5 items.
Proof.
  intros (pre & ws & lines & rest & -> & Hne & Hresp & Hidx & Hws & Hok & Hrest).
  unfold parseAnalysisResponse. cbn [improvementSuggestions].
  unfold capture, suggestions_re.
  rewrite (exec_Lit_first (chars "IMPROVEMENT_SUGGESTIONS:") _ rest
             (Some (dash_block lines)) (chars response) (length pre) Hidx).
  - cbn [m_group default from_option id]. by rewrite dash_items_block.
  - rewrite Hresp, <- length_app, app_assoc, drop_app_length.
    by apply mt_suggestions_tail.
Qed.

Lemma suggestions_default response :
  exec suggestions_re (chars response) = None ->
  improvementSuggestions (parseAnalysisResponse response)
    = improvementSuggestions defaultValues.
Proof.
  intros H. unfold parseAnalysisResponse. cbn [improvementSuggestions].
  unfold capture. by rewrite H.
Qed.

(** A no-break space between a label and its value is whitespace to the
    patterns and to [trim]. *)
Example parseAnalysisResponse_no_break_space :
  awkwardnessScore
    (parseAnalysisResponse (str (chars "AWKWARDNESS_SCORE:" ++ nbsp :: chars "85")))
    = 85%N /\
  nathanObservation
    (parseAnalysisResponse
       (str (chars "NATHAN_OBSERVATION: " ++ nbsp :: chars "Good." ++ [nbsp])))
    = "Good."%string.
Proof. split; vm_compute; reflexivity. Qed.

(** C6.  On a block that labels a value well-formedly, the parser extracts
    that value, for each of the seven scores, the observation and the
    suggestions (of which it keeps the first five); and where the pattern of
    a field has no match in the block, the field is its default. *)
Theorem parseAnalysisResponse_fields response :
  let a := parseAnalysisResponse response in
  (forall n, labels_score "AWKWARDNESS_SCORE:" n response -> awkwardnessScore a = n) /\
  (forall n, labels_score "COMPLEXITY_RATING:" n response -> complexityRating a = n) /\
  (forall n, labels_score "OPTIMALITY_SCORE:" n response -> optimalityScore a = n) /\
  (forall n, labels_score "DIALOGUE_QUALITY:" n response ->
             dialogueQuality (breakdown a) = n) /\
  (forall n, labels_score "PREPARATION_LEVEL:" n response ->
             preparationLevel (breakdown a) = n) /\
  (forall n, labels_score "AWKWARDNESS_AUTHENTICITY:" n response ->
             awkwardnessAuthenticity (breakdown a) = n) /\
  (forall n, labels_score "STATISTICAL_CREDIBILITY:" n response ->
             statisticalCredibility (breakdown a) = n) /\
  (forall text, labels_observation text response -> nathanObservation a = text) /\
  (forall items, labels_suggestions items response ->
                 improvementSuggestions a = take 5 items /\
                 (length items <= 5 -> improvementSuggestions a = items)) /\
  (exec (score_re "AWKWARDNESS_SCORE:") (chars response) = None ->
   awkwardnessScore a = 73%N) /\
  (exec (score_re "COMPLEXITY_RATING:") (chars response) = None ->
   complexityRating a = 67%N) /\
  (exec (score_re "OPTIMALITY_SCORE:") (chars response) = None ->
   optimalityScore a = 81%N) /\
  (exec (score_re "DIALOGUE_QUALITY:") (chars response) = None ->
   dialogueQuality (breakdown a) = 75%N) /\
  (exec (score_re "PREPARATION_LEVEL:") (chars response) = None ->
   preparationLevel (breakdown a) = 68%N) /\
  (exec (score_re "AWKWARDNESS_AUTHENTICITY:") (chars response) = None ->
   awkwardnessAuthenticity (breakdown a) = 82%N) /\
  (exec (score_re "STATISTICAL_CREDIBILITY:") (chars response) = None ->
   statisticalCredibility (breakdown a) = 45%N) /\
  (exec observation_re (chars response) = None ->
   nathanObservation a =
   "This script shows promise but needs more statistical backing and at least 47 additional rehearsals."%string) /\
  (exec suggestions_re (chars response) = None ->
   improvementSuggestions a =
   [ "Add more specific timing for awkward pauses";
     "Include backup dialogue for when the first option fails";
     "Consider building a scale model of the location" ]%string).
Proof.
  intros a. subst a.
  repeat match goal with |- _ /\ _ => split end;
    try (intros n Hn; exact (score_labeled _ _ n response Hn));
    try (intros Hnone; exact (score_default _ _ response Hnone)).
  - intros text. apply observation_labeled.
  - intros items Hitems. pose proof (suggestions_labeled items response Hitems) as H.
    split; [exact H |]. intros Hlen. rewrite H. by apply take_ge.
  - apply observation_default.
  - apply suggestions_default.
Qed.

(** [ex_block] labels the score [n] at the index [i]. *)
Ltac score_at i j :=
  exists (take i (chars ex_block)), [" "%char], (drop j (chars ex_block));
  split; [vm_compute; reflexivity |];
  split; [vm_compute; reflexivity |];
  split; [repeat constructor |];
  split; [vm_compute; reflexivity | vm_compute; discriminate].

Lemma parseAnalysisResponse_fields_witness :
  parseAnalysisResponse ex_block = ex_analysis /\
  parseAnalysisResponse ex_unlabeled = defaultValues.
Proof.
  split.
  - destruct (parseAnalysisResponse_fields ex_block)
      as (H1 & H2 & H3 & H4 & H5 & H6 & H7 & H8 & H9 & _).
    specialize (H1 85%N ltac:(score_at 0 21)).
    specialize (H2 70%N ltac:(score_at 22 43)).
    specialize (H3 90%N ltac:(score_at 44 64)).
    specialize (H4 80%N ltac:(score_at 66 86)).
    specialize (H5 75%N ltac:(score_at 87 108)).
    specialize (H6 88%N ltac:(score_at 109 137)).
    specialize (H7 60%N ltac:(score_at 138 165)).
    assert (Hobs : labels_observation "This reminds me of rehearsal attempt 147." ex_block).
    { exists (take 167 (chars ex_block)), [" "%char], (drop 228 (chars ex_block)).
      split; [vm_compute; reflexivity |].
      split; [vm_compute; reflexivity |].
      split; [repeat constructor |].
      split; [discriminate |].
      split; [vm_compute; reflexivity |].
      split; [repeat constructor |].
      right. left. vm_compute; reflexivity. }
    assert (Hsug : labels_suggestions
                     [ "Add a 3.7 second pause"; "Build a replica of the room";
                       "Hire 73 actors" ]%string ex_block).
    { exists (take 230 (chars ex_block)), [nl],
        [ ([" "%char], "Add a 3.7 second pause"%string);
          ([" "%char], "Build a replica of the room"%string);
          ([" "%char], "Hire 73 actors"%string) ], [].
      split; [reflexivity |].
      split; [discriminate |].
      split; [vm_compute; reflexivity |].
      split; [vm_compute; reflexivity |].
      split; [repeat constructor |].
      split; [| by left].
      repeat (constructor;
              [ split; [repeat constructor |];
                split; [repeat constructor |];
                split; [vm_compute; reflexivity | repeat constructor] |]).
      constructor. }
    specialize (H8 _ Hobs). destruct (H9 _ Hsug) as [_ H9'].
    specialize (H9' ltac:(simpl; lia)).
    destruct (parseAnalysisResponse ex_block) as [f1 f2 f3 f4 f5 [b1 b2 b3 b4]].
    simpl in *. subst. reflexivity.
  - destruct (parseAnalysisResponse_fields ex_unlabeled)
      as (_ & _ & _ & _ & _ & _ & _ & _ & _ &
          H1 & H2 & H3 & H4 & H5 & H6 & H7 & H8 & H9).
    specialize (H1 ltac:(vm_compute; reflexivity)).
    specialize (H2 ltac:(vm_compute; reflexivity)).
    specialize (H3 ltac:(vm_compute; reflexivity)).
    specialize (H4 ltac:(vm_compute; reflexivity)).
    specialize (H5 ltac:(vm_compute; reflexivity)).
    specialize (H6 ltac:(vm_compute; reflexivity)).
    specialize (H7 ltac:(vm_compute; reflexivity)).
    specialize (H8 ltac:(vm_compute; reflexivity)).
    specialize (H9 ltac:(vm_compute; reflexivity)).
    destruct (parseAnalysisResponse ex_unlabeled) as [f1 f2 f3 f4 f5 [b1 b2 b3 b4]].
    simpl in *. subst. reflexivity.
Defined.

End AIServiceSpec.

(** ** The application around the engine *)

Module AppSpec.
Import Js Conversation App ConversationSpec.

(** What [displayScene] leaves alone, and the one thing it may add. *)
Lemma displayScene_frame now scene st :
  let st' := (displayScene now scene st).1 in
  currentScenario st' = currentScenario st /\
  currentScene st' = currentScene st /\
  playerStats st' = playerStats st /\
  scenarios st' = scenarios st /\
  rehearsalAttempts st' = rehearsalAttempts st /\
  (breakthroughs st' = breakthroughs st \/
   exists b, breakthroughs st' = breakthroughs st ++ [b] /\
             b_scenario b = currentScenario st /\ b_scene b = id scene).
Proof.
  unfold displayScene, recordBreakthrough, current_scenario, setTimeout.
  destruct (dialogue scene) as [d |]; [destruct (String.eqb d EmptyString) |];
    destruct (choices scene), (isBreakthrough scene); simpl;
    repeat match goal with
           | |- context [match ?o with Some _ => _ | None => _ end] => destruct o; simpl
           | |- context [if ?b then _ else _] => destruct b; simpl
           end;
    repeat split; eauto 8.
Qed.

Lemma makeChoice_frame now choice st :
  let st' := (makeChoice now choice st).1 in
  currentScenario st' = currentScenario st /\
  scenarios st' = scenarios st /\
  rehearsalAttempts st' = rehearsalAttempts st /\
  breakthroughs st' = breakthroughs st /\
  (currentScene st' = currentScene st \/
   exists sc s, current_scenario st = Some sc /\ s ∈ scenes sc /\
                currentScene st' = SceneId (id s)).
Proof.
  unfold makeChoice. rewrite current_scenario_after_record.
  destruct (current_scenario st) as [sc |] eqn:Hsc.
  - destruct (find_scene (next choice) (scenes sc)) as [s |] eqn:Hfind.
    + apply find_some in Hfind as [Hin _]. apply list_elem_of_In in Hin.
      destruct (impact choice); simpl; repeat split; eauto 8.
    + destruct (_ || _), (impact choice); simpl; repeat split; eauto.
  - destruct (impact choice); simpl; repeat split; eauto.
Qed.

Lemma fire_frame now i st :
  let st' := fire now i st in
  currentScenario st' = currentScenario st /\
  currentScene st' = currentScene st /\
  playerStats st' = playerStats st /\
  scenarios st' = scenarios st /\
  rehearsalAttempts st' = rehearsalAttempts st /\
  (breakthroughs st' = breakthroughs st \/
   exists b, breakthroughs st' = breakthroughs st ++ [b] /\
             b_scenario b = currentScenario st).
Proof.
  unfold fire. destruct (timers st !! i) as [[s | s | cs | b] |]; simpl; try by eauto 8.
  destruct (displayScene_frame now s (with_timers (delete i (timers st)) st))
    as (H1 & H2 & H3 & H4 & H5 & H6).
  simpl in *. repeat split; try done.
  destruct H6 as [H6 | (b & H6 & H7 & _)]; eauto.
Qed.

Lemma stats_ok_zero :
  stats_ok (<["empathy"%string := Int 0]>
              (<["trust"%string := Int 0]> (<["effectiveness"%string := Int 0]> ∅))).
Proof. repeat split; exists 0%Z; (split; [vm_compute; reflexivity | lia]). Qed.

(** What [selectScenario] does for a known id. *)
Lemma selectScenario_known now scenarioId st sc :
  scenarios st !! scenarioId = Some sc ->
  let st' := (selectScenario now scenarioId st).1 in
  currentScenario st' = Some scenarioId /\
  currentScene st' = SceneId "intro" /\
  stats_ok (playerStats st') /\
  scenarios st' = scenarios st /\
  rehearsalAttempts st' =
    <[scenarioId := (default 0 (rehearsalAttempts st !! scenarioId) + 1)%Z]>
      (rehearsalAttempts st) /\
  Forall (fun b => b_scenario b = Some scenarioId) (breakthroughs st').
Proof.
  intros Hsc. unfold selectScenario, startConversation. rewrite Hsc.
  set (st0 := {| currentScenario := Some scenarioId |}).
  assert (Hframe : forall scene,
    let st' := (displayScene now scene st0).1 in
    currentScenario st' = Some scenarioId /\ currentScene st' = SceneId "intro" /\
    stats_ok (playerStats st') /\ scenarios st' = scenarios st /\
    rehearsalAttempts st' =
      <[scenarioId := (default 0 (rehearsalAttempts st !! scenarioId) + 1)%Z]>
        (rehearsalAttempts st) /\
    Forall (fun b => b_scenario b = Some scenarioId) (breakthroughs st')).
  { intros scene. destruct (displayScene_frame now scene st0)
      as (H1 & H2 & H3 & H4 & H5 & H6). simpl.
    rewrite H1, H2, H3, H4, H5.
    split; [done |]. split; [done |]. split; [apply stats_ok_zero |].
    split; [done |]. split; [done |].
    destruct H6 as [-> | (b & -> & Hb & _)]; [constructor |].
    constructor; [exact Hb | constructor]. }
  destruct (find_scene _ _); [apply Hframe |].
  destruct (scenes sc); [| apply Hframe].
  simpl. split; [done |]. split; [done |]. split; [apply stats_ok_zero |].
  split; [done |]. split; [done | constructor].
Qed.

Lemma selectScenario_unknown now scenarioId st :
  scenarios st !! scenarioId = None -> (selectScenario now scenarioId st).1 = st.
Proof. intros H. unfold selectScenario. by rewrite H. Qed.

Lemma loadedState_ok data : reachable_ok data (loadedState data).
Proof.
  split; simpl; try done.
  - repeat split; exists 5%Z; (split; [vm_compute; reflexivity | lia]).
Qed.

Lemma selectScenario_ok data now scenarioId st :
  reachable_ok data st -> reachable_ok data (selectScenario now scenarioId st).1.
Proof.
  intros Hok. destruct (scenarios st !! scenarioId) as [sc |] eqn:Hsc;
    [| by rewrite selectScenario_unknown].
  destruct (selectScenario_known now scenarioId st sc Hsc) as (H1 & H2 & H3 & H4 & H5 & H6).
  pose proof (ok_scenarios _ _ Hok) as Hdata.
  split.
  - congruence.
  - intros i Hi. rewrite H1 in Hi. injection Hi as <-. rewrite <- Hdata. eauto.
  - done.
  - intros i sc' _ _. rewrite H2. by left.
  - intros i Hi. rewrite H1 in Hi. by injection Hi as <-.
  - intros i n. rewrite H5. destruct (decide (scenarioId = i)) as [<- | Hne].
    + rewrite lookup_insert_eq. intros [= <-].
      destruct (rehearsalAttempts st !! scenarioId) as [m |] eqn:Hm; simpl; [| lia].
      pose proof (ok_attempts _ _ Hok _ _ Hm). lia.
    + rewrite lookup_insert_ne by done. apply (ok_attempts _ _ Hok).
  - intros i Hi. rewrite H1 in Hi. injection Hi as <-. rewrite H5, lookup_insert_eq. eauto.
Qed.

Lemma act_ok data st a : reachable_ok data st -> reachable_ok data (act st a).
Proof.
  intros Hok. destruct a as [now i | now | | [now c | now i]]; simpl.
  - by apply selectScenario_ok.
  - unfold tryAgain. destruct (currentScenario st); [| done].
    destruct (String.eqb _ _); [done | by apply selectScenario_ok].
  - destruct Hok. split; simpl; try done.
  - destruct (makeChoice_frame now c st) as (H1 & H2 & H3 & H4 & H5).
    destruct Hok as [Ha Hb Hc Hd He Hf Hg]. split.
    + congruence.
    + intros i. rewrite H1. apply Hb.
    + rewrite makeChoice_playerStats. destruct (impact c); [by apply applyImpact_stats_ok | done].
    + intros i sc. rewrite H1. intros Hi Hsc.
      destruct H5 as [-> | (sc' & s & Hcur & Hin & ->)]; [by eapply Hd |].
      right. exists s. split; [| done].
      unfold current_scenario in Hcur. rewrite Hi, Ha in Hcur. simpl in Hcur. congruence.
    + intros i. rewrite H1, H4. apply He.
    + intros i n. rewrite H3. apply Hf.
    + intros i. rewrite H1, H3. apply Hg.
  - destruct (fire_frame now i st) as (H1 & H2 & H3 & H4 & H5 & H6).
    destruct Hok as [Ha Hb Hc Hd He Hf Hg]. split.
    + congruence.
    + intros j. rewrite H1. apply Hb.
    + by rewrite H3.
    + intros j sc. rewrite H1, H2. apply Hd.
    + intros j. rewrite H1. intros Hj.
      destruct H6 as [-> | (b & -> & Hbs)]; [by apply He |].
      apply Forall_app. split; [by apply He |]. constructor; [congruence | constructor].
    + intros j n. rewrite H5. apply Hf.
    + intros j. rewrite H1, H5. apply Hg.
Qed.

Lemma play_ok data acts : forall st,
  reachable_ok data st -> reachable_ok data (play acts st).
Proof.
  induction acts as [| a acts IH]; intros st Hok; [done |].
  apply IH. by apply act_ok.
Qed.

(** X1.  In every state the application reaches after loading its scenarios
    (selections, restarts, returns to the list, choices and timer callbacks
    in any order) the three stats lie within [[0, 10]], and the total that
    [endConversation] reports lies within [[0, 30]].  Here and below the
    selections are by ids that are no inherited property names, see
    [selects_own]. *)
Theorem play_stats_in_range data acts :
  let st := play acts (loadedState data) in
  forallb selects_own acts = true ->
  stats_ok (playerStats st) /\
  forall r isSuccess,
    match endConversation r isSuccess st with
    | Some a => exists t, a_total a = Int t /\ (0 <= t <= 30)%Z
    | None => True
    end.
Proof.
  intros st _. pose proof (play_ok data acts _ (loadedState_ok data)) as Hok.
  fold st in Hok. pose proof (ok_stats _ _ Hok) as Hstats.
  split; [done |]. intros r isSuccess. unfold endConversation.
  destruct (current_scenario st); [| done].
  destruct Hstats as ((e & -> & He) & (t & -> & Ht) & (f & -> & Hf)).
  simpl. eexists. split; [reflexivity | lia].
Qed.

Lemma play_stats_in_range_witness :
  let st := play ex_play (loadedState ex_data) in
  stats_ok (playerStats st) /\
  match endConversation 0 true st with
  | Some a => exists t, a_total a = Int t /\ (0 <= t <= 30)%Z
  | None => True
  end.
Proof.
  intros st.
  assert (Hown : forallb selects_own ex_play = true) by (vm_compute; reflexivity).
  destruct (play_stats_in_range ex_data ex_play Hown) as [Hstats Hend].
  split; [exact Hstats | exact (Hend 0%Z true)].
Defined.



(** X3.  While a scenario is selected, [appState.currentScene] is ['intro']
    or the id of a scene of that scenario: the engine never moves to a scene
    the scenario does not have. *)
Theorem current_scene_exists data acts scenarioId sc :
  let st := play acts (loadedState data) in
  forallb selects_own acts = true ->
  currentScenario st = Some scenarioId ->
  data !! scenarioId = Some sc ->
  currentScene st = SceneId "intro" \/
  exists s, s ∈ scenes sc /\ currentScene st = SceneId (id s).
Proof.
  intros st _ Hcur Hsc. pose proof (play_ok data acts _ (loadedState_ok data)) as Hok.
  exact (ok_scene _ _ Hok _ _ Hcur Hsc).
Qed.

Lemma current_scene_exists_witness :
  let st := play (removelast ex_play) (loadedState ex_data) in
  currentScenario st = Some "friend-checkin"%string /\
  (currentScene st = SceneId "intro" \/
   exists s, s ∈ scenes ex_scenario /\ currentScene st = SceneId (id s)).
Proof.
  intros st.
  assert (Hcur : currentScenario st = Some "friend-checkin"%string)
    by (vm_compute; reflexivity).
  assert (Hown : forallb selects_own (removelast ex_play) = true) by (vm_compute; reflexivity).
  split; [exact Hcur |].
  apply (current_scene_exists ex_data (removelast ex_play) "friend-checkin" ex_scenario
           Hown Hcur).
  vm_compute; reflexivity.
Defined.

(** X4.  While a scenario is selected, its attempt counter is at least one,
    and [endConversation] reports that counter together with a confidence
    level of fifteen times the counter, capped at 95. *)
Theorem attempts_reported data acts scenarioId :
  let st := play acts (loadedState data) in
  forallb selects_own acts = true ->
  currentScenario st = Some scenarioId ->
  exists n,
    rehearsalAttempts st !! scenarioId = Some n /\ (1 <= n)%Z /\
    forall r isSuccess,
      exists a, endConversation r isSuccess st = Some a /\
                a_attempts a = n /\
                a_confidence a = Z.min (15 * n) 95 /\
                (15 <= a_confidence a <= 95)%Z.
Proof.
  intros st _ Hcur. pose proof (play_ok data acts _ (loadedState_ok data)) as Hok.
  fold st in Hok.
  destruct (ok_attempted _ _ Hok _ Hcur) as [n Hn].
  pose proof (ok_attempts _ _ Hok _ _ Hn) as Hpos.
  exists n. split; [done |]. split; [done |]. intros r isSuccess.
  destruct (ok_current _ _ Hok _ Hcur) as [sc Hsc].
  unfold endConversation, current_scenario.
  rewrite Hcur, (ok_scenarios _ _ Hok). simpl. rewrite Hsc, Hn.
  assert (Hnz : (n =? 0)%Z = false) by (apply Z.eqb_neq; lia). rewrite Hnz.
  eexists. split; [reflexivity |]. simpl. repeat split; lia.
Qed.

Lemma attempts_reported_witness :
  let st := play ex_play (loadedState ex_data) in
  currentScenario st = Some "friend-checkin"%string /\
  exists n,
    rehearsalAttempts st !! "friend-checkin"%string = Some n /\ (1 <= n)%Z /\
    forall r isSuccess,
      exists a, endConversation r isSuccess st = Some a /\
                a_attempts a = n /\
                a_confidence a = Z.min (15 * n) 95 /\
                (15 <= a_confidence a <= 95)%Z.
Proof.
  intros st.
  assert (Hcur : currentScenario st = Some "friend-checkin"%string)
    by (vm_compute; reflexivity).
  assert (Hown : forallb selects_own ex_play = true) by (vm_compute; reflexivity).
  exact (conj Hcur (attempts_reported ex_data ex_play "friend-checkin" Hown Hcur)).
Defined.

(** After one selection and one retry the counter of the example play is 2,
    and the reported confidence is 30. *)
Example attempts_after_retry :
  let st := play ex_play (loadedState ex_data) in
  rehearsalAttempts st !! "friend-checkin"%string = Some 2%Z /\
  (a_confidence <$> endConversation 0 true st) = Some 30%Z.
Proof. split; vm_compute; reflexivity. Qed.

(** X5.  An action changes the attempt counters only by adding one to the
    counter of the scenario it starts (a selection of a known scenario, or a
    retry of the selected one); choices, timer callbacks, returns to the
    list and selections of an unknown scenario leave every counter alone. *)
Theorem act_attempts st a :
  selects_own a = true ->
  rehearsalAttempts (act st a) =
  match starts st a with
  | Some scenarioId =>
      <[scenarioId := (default 0 (rehearsalAttempts st !! scenarioId) + 1)%Z]>
        (rehearsalAttempts st)
  | None => rehearsalAttempts st
  end.
Proof.
  intros _.
  assert (Hsel : forall now i,
    rehearsalAttempts (selectScenario now i st).1 =
    if bool_decide (is_Some (scenarios st !! i))
    then <[i := (default 0 (rehearsalAttempts st !! i) + 1)%Z]> (rehearsalAttempts st)
    else rehearsalAttempts st).
  { intros now i. destruct (scenarios st !! i) as [sc |] eqn:Hsc.
    - rewrite bool_decide_eq_true_2 by eauto.
      by destruct (selectScenario_known now i st sc Hsc) as (_ & _ & _ & _ & H & _).
    - rewrite bool_decide_eq_false_2 by (intros [? ?]; done).
      by rewrite selectScenario_unknown. }
  destruct a as [now i | now | | [now c | now i]]; simpl.
  - rewrite Hsel. by destruct (bool_decide _).
  - unfold tryAgain. destruct (currentScenario st) as [i |]; [| done].
    destruct (String.eqb i EmptyString) eqn:Hi.
    + apply String.eqb_eq in Hi. by rewrite bool_decide_eq_false_2 by (intros [? ?]; done).
    + apply String.eqb_neq in Hi. rewrite Hsel.
      destruct (scenarios st !! i) as [sc |] eqn:Hsc.
      * by rewrite !bool_decide_eq_true_2 by eauto.
      * rewrite !bool_decide_eq_false_2; [done | intros [_ [? ?]]; done | intros [? ?]; done].
  - done.
  - by destruct (makeChoice_frame now c st) as (_ & _ & H & _).
  - by destruct (fire_frame now i st) as (_ & _ & _ & _ & H & _).
Qed.

Lemma act_attempts_witness :
  let st := play (take 4 ex_play) (loadedState ex_data) in
  rehearsalAttempts (act st (ATryAgain 1700000009000)) =
  <["friend-checkin"%string := 2%Z]> (rehearsalAttempts st).
Proof.
  intros st.
  pose proof (act_attempts st (ATryAgain 1700000009000) eq_refl) as H.
  rewrite H. vm_compute. reflexivity.
Defined.

(** X6.  While a scenario is selected, every recorded breakthrough names
    that scenario: the breakthroughs of an earlier scenario are gone. *)
Theorem breakthroughs_of_current data acts scenarioId :
  let st := play acts (loadedState data) in
  forallb selects_own acts = true ->
  currentScenario st = Some scenarioId ->
  Forall (fun b => b_scenario b = Some scenarioId) (breakthroughs st).
Proof.
  intros st _ Hcur. pose proof (play_ok data acts _ (loadedState_ok data)) as Hok.
  exact (ok_breakthroughs _ _ Hok _ Hcur).
Qed.

Lemma breakthroughs_of_current_witness :
  let st := play (take 4 ex_play) (loadedState ex_data) in
  currentScenario st = Some "friend-checkin"%string /\
  length (breakthroughs st) = 1 /\
  Forall (fun b => b_scenario b = Some "friend-checkin"%string) (breakthroughs st).
Proof.
  intros st.
  assert (Hcur : currentScenario st = Some "friend-checkin"%string)
    by (vm_compute; reflexivity).
  assert (Hown : forallb selects_own (take 4 ex_play) = true) by (vm_compute; reflexivity).
  split; [exact Hcur |]. split; [vm_compute; reflexivity |].
  exact (breakthroughs_of_current ex_data (take 4 ex_play) "friend-checkin" Hown Hcur).
Defined.

End AppSpec.

(** ** Substrings, trimming and letter case *)

Module IncludesFacts.
Import Text TextFacts Routes.

Lemma starts_with_app t post : starts_with t (t ++ post) = true.
Proof.
  induction t as [| a t IH]; [done |]. simpl. rewrite IH.
  by rewrite (proj2 (Ascii.eqb_eq a a) eq_refl).
Qed.

Lemma starts_with_inv t : forall s,
  starts_with t s = true -> exists post, s = t ++ post.
Proof.
  induction t as [| a t IH]; intros s H; [by exists s |].
  destruct s as [| b s]; [done |]. simpl in H.
  apply andb_true_iff in H as [Hab H]. apply Ascii.eqb_eq in Hab as ->.
  destruct (IH _ H) as [post ->]. by exists post.
Qed.

Lemma includes_chars_head s t : starts_with t s = true -> includes_chars s t = true.
Proof. intros H. destruct s; cbn [includes_chars]; by rewrite H. Qed.

Lemma includes_chars_app pre t post : includes_chars (pre ++ t ++ post) t = true.
Proof.
  induction pre as [| a pre IH].
  - change ([] ++ t ++ post) with (t ++ post).
    apply includes_chars_head, starts_with_app.
  - cbn [app includes_chars]. rewrite IH. apply orb_true_r.
Qed.

Lemma includes_chars_inv t : forall s,
  includes_chars s t = true -> exists pre post, s = pre ++ t ++ post.
Proof.
  induction s as [| a s IH]; cbn [includes_chars]; intros H.
  - rewrite orb_false_r in H. apply starts_with_inv in H as [post ->].
    by exists [], post.
  - apply orb_true_iff in H as [H | H].
    + apply starts_with_inv in H as [post ->]. by exists [], post.
    + destruct (IH H) as (pre & post & ->). by exists (a :: pre), post.
Qed.

(** [s.includes(t)] holds exactly when [t] occurs in [s]. *)
Lemma includes_chars_iff s t :
  includes_chars s t = true <-> exists pre post, s = pre ++ t ++ post.
Proof.
  split; [apply includes_chars_inv |]. intros (pre & post & ->).
  apply includes_chars_app.
Qed.

Lemma drop_spaces_suffix l :
  exists ws, Forall (fun c => is_space c = true) ws /\ l = ws ++ drop_spaces l.
Proof.
  induction l as [| c l (ws & Hws & IH)]; [by exists [] |]. simpl.
  destruct (is_space c) eqn:Hc.
  - exists (c :: ws). split; [by constructor |]. simpl. by rewrite <- IH.
  - by exists [].
Qed.

Lemma drop_spaces_app_keep pre c rest :
  is_space c = false ->
  drop_spaces (pre ++ c :: rest) = drop_spaces pre ++ c :: rest.
Proof.
  intros Hc. induction pre as [| a pre IH]; simpl; [by rewrite Hc |].
  by destruct (is_space a).
Qed.

(** What [trim] strips is whitespace at the two ends. *)
Lemma trim_chars_decompose l :
  exists ws1 ws2,
    Forall (fun c => is_space c = true) ws1 /\
    Forall (fun c => is_space c = true) ws2 /\
    l = ws1 ++ trim_chars l ++ ws2.
Proof.
  unfold trim_chars.
  destruct (drop_spaces_suffix l) as (ws1 & H1 & E1).
  destruct (drop_spaces_suffix (rev (drop_spaces l))) as (ws2 & H2 & E2).
  exists ws1, (rev ws2). split; [done |]. split.
  - apply List.Forall_forall. intros c Hc. rewrite List.Forall_forall in H2.
    apply H2. by apply in_rev in Hc.
  - rewrite <- rev_app_distr, <- E2, rev_involutive. exact E1.
Qed.

(** An occurrence of a text whose first and last characters are no
    whitespace survives the trimming. *)
Lemma trim_chars_keeps_occurrence pre c mid d post :
  is_space c = false -> is_space d = false ->
  exists pre' post',
    trim_chars (pre ++ (c :: mid ++ [d]) ++ post) = pre' ++ (c :: mid ++ [d]) ++ post'.
Proof.
  intros Hc Hd. exists (drop_spaces pre), (rev (drop_spaces (rev post))).
  unfold trim_chars.
  change (pre ++ (c :: mid ++ [d]) ++ post) with (pre ++ c :: (mid ++ [d]) ++ post).
  rewrite (drop_spaces_app_keep pre c _ Hc).
  assert (E : drop_spaces pre ++ c :: (mid ++ [d]) ++ post
              = (drop_spaces pre ++ c :: mid) ++ d :: post).
  { rewrite <- !app_assoc. reflexivity. }
  rewrite E, rev_app_distr.
  change (rev (d :: post)) with (rev post ++ [d]).
  rewrite <- app_assoc.
  change ([d] ++ rev (drop_spaces pre ++ c :: mid))
    with (d :: rev (drop_spaces pre ++ c :: mid)).
  rewrite (drop_spaces_app_keep (rev post) d _ Hd).
  rewrite rev_app_distr.
  change (rev (d :: rev (drop_spaces pre ++ c :: mid)))
    with (rev (rev (drop_spaces pre ++ c :: mid)) ++ [d]).
  rewrite rev_involutive. repeat (rewrite <- app_assoc || cbn [app]). reflexivity.
Qed.

Lemma trim_chars_keeps_char pre c post :
  is_space c = false ->
  exists pre' post', trim_chars (pre ++ [c] ++ post) = pre' ++ [c] ++ post'.
Proof.
  intros Hc. exists (drop_spaces pre), (rev (drop_spaces (rev post))).
  unfold trim_chars.
  change (pre ++ [c] ++ post) with (pre ++ c :: post).
  rewrite (drop_spaces_app_keep pre c _ Hc), rev_app_distr.
  change (rev (c :: post)) with (rev post ++ [c]).
  rewrite <- app_assoc.
  change ([c] ++ rev (drop_spaces pre)) with (c :: rev (drop_spaces pre)).
  rewrite (drop_spaces_app_keep (rev post) c _ Hc).
  rewrite rev_app_distr.
  change (rev (c :: rev (drop_spaces pre))) with (rev (rev (drop_spaces pre)) ++ [c]).
  rewrite rev_involutive. repeat (rewrite <- app_assoc || cbn [app]). reflexivity.
Qed.

Lemma solid_cases t :
  solid t = true ->
  (exists c, t = [c] /\ is_space c = false) \/
  (exists c mid d, t = c :: mid ++ [d] /\ is_space c = false /\ is_space d = false).
Proof.
  unfold solid. intros [H1 H2]%andb_true_iff.
  destruct t as [| c t]; [done |]. simpl in H1. apply negb_true_iff in H1.
  cbn [rev] in H2. destruct (rev t) as [| d r] eqn:E.
  - left. apply (f_equal (@rev ascii)) in E. rewrite rev_involutive in E.
    subst t. by exists c.
  - right. apply (f_equal (@rev ascii)) in E. rewrite rev_involutive in E.
    simpl in E. subst t. exists c, (rev r), d.
    split; [done |]. split; [done |].
    simpl in H2. by apply negb_true_iff in H2.
Qed.

(** Trimming a string changes no test for a text with solid ends. *)
Lemma includes_chars_trim s t :
  solid t = true -> includes_chars (trim_chars s) t = includes_chars s t.
Proof.
  intros Ht. apply eq_true_iff_eq. rewrite !includes_chars_iff. split.
  - intros (pre & post & E).
    destruct (trim_chars_decompose s) as (ws1 & ws2 & _ & _ & Es).
    exists (ws1 ++ pre), (post ++ ws2). rewrite Es, E.
    by rewrite <- !app_assoc.
  - intros (pre & post & ->).
    destruct (solid_cases t Ht) as [(c & -> & Hc) | (c & mid & d & -> & Hc & Hd)].
    + apply trim_chars_keeps_char; done.
    + apply trim_chars_keeps_occurrence; done.
Qed.

Lemma drop_spaces_map_lower l :
  drop_spaces (map lower l) = map lower (drop_spaces l).
Proof.
  induction l as [| c l IH]; [done |]. simpl. rewrite is_space_lower.
  by destruct (is_space c).
Qed.

Lemma trim_chars_map_lower l :
  trim_chars (map lower l) = map lower (trim_chars l).
Proof.
  unfold trim_chars.
  by rewrite drop_spaces_map_lower, <- map_rev, drop_spaces_map_lower, map_rev.
Qed.

(** [trim] and [toLowerCase] commute. *)
Lemma toLowerCase_trim s : toLowerCase (trim s) = trim (toLowerCase s).
Proof.
  unfold toLowerCase, trim. by rewrite !chars_str, trim_chars_map_lower.
Qed.

Lemma includes_trim s t :
  solid (chars t) = true -> includes (trim s) t = includes s t.
Proof.
  intros Ht. unfold includes, trim. rewrite chars_str. by apply includes_chars_trim.
Qed.

Lemma includes_lower_trim s t :
  solid (chars t) = true ->
  includes (toLowerCase (trim s)) t = includes (toLowerCase s) t.
Proof. intros Ht. rewrite toLowerCase_trim. by apply includes_trim. Qed.

Lemma drop_spaces_head l : head_is is_space l = false -> drop_spaces l = l.
Proof. destruct l as [| c l]; [done |]. simpl. by intros ->. Qed.

Lemma drop_spaces_no_head l : head_is is_space (drop_spaces l) = false.
Proof.
  induction l as [| c l IH]; [done |]. simpl.
  destruct (is_space c) eqn:Hc; [done |]. simpl. done.
Qed.

(** [trim] is idempotent. *)
Lemma trim_chars_trimmed l : trimmed (trim_chars l).
Proof.
  unfold trimmed, trim_chars.
  set (m := drop_spaces (rev (drop_spaces l))).
  assert (Hm : head_is is_space m = false) by apply drop_spaces_no_head.
  assert (Hr : head_is is_space (rev m) = false).
  { destruct (drop_spaces_suffix (rev (drop_spaces l))) as (ws & Hws & E).
    fold m in E. destruct m as [| d m']; [done |].
    apply (f_equal (@rev ascii)) in E. rewrite rev_involutive, rev_app_distr in E.
    destruct (rev (d :: m')) as [| c r] eqn:Er; [done |].
    simpl in E. pose proof (drop_spaces_no_head l) as Hl. rewrite E in Hl.
    exact Hl. }
  rewrite (drop_spaces_head (rev m) Hr), rev_involutive.
  by rewrite (drop_spaces_head m Hm).
Qed.

Lemma chars_app s t : chars (s +:+ t) = chars s ++ chars t.
Proof.
  unfold chars. induction s as [| c s IH]; [done |]. simpl. by rewrite IH.
Qed.

End IncludesFacts.

(** ** The conversation routes *)

Module RoutesSpec.
Import Js Text Server Routes TextFacts JsFacts IncludesFacts.
Import QArith Qround Qminmax Lqa.
Local Close Scope Q_scope.
Local Open Scope Z_scope.

(** *** Rounding *)

Lemma Qfloor_le_iff (z : Z) (x : Q) : z <= Qfloor x <-> (inject_Z z <= x)%Q.
Proof.
  split.
  - intros H. apply Qle_trans with (inject_Z (Qfloor x));
      [by rewrite <- Zle_Qle | apply Qfloor_le].
  - intros H. rewrite <- (Qfloor_Z z). by apply Qfloor_resp_le.
Qed.

Lemma Qfloor_lt_iff (z : Z) (x : Q) : Qfloor x < z <-> (x < inject_Z z)%Q.
Proof.
  split.
  - intros H. apply Qlt_le_trans with (inject_Z (Qfloor x + 1));
      [apply Qlt_floor | rewrite <- Zle_Qle; lia].
  - intros H. destruct (Z.lt_ge_cases (Qfloor x) z) as [| Hge]; [done |].
    apply Qfloor_le_iff in Hge. exfalso. apply (Qlt_irrefl x).
    eapply Qlt_le_trans; eauto.
Qed.

Lemma Math_round_bounds (lo hi : Z) (x : Q) :
  (inject_Z lo <= x)%Q -> (x <= inject_Z hi)%Q -> lo <= Math_round x <= hi.
Proof.
  intros Hlo Hhi. unfold Math_round. split.
  - apply Qfloor_le_iff. lra.
  - apply Z.lt_succ_r, Qfloor_lt_iff. unfold Z.succ. rewrite inject_Z_plus.
    change (inject_Z 1) with 1%Q. lra.
Qed.

Lemma Math_round_mono (x y : Q) : (x <= y)%Q -> Math_round x <= Math_round y.
Proof. intros H. unfold Math_round. apply Qfloor_resp_le. lra. Qed.

Lemma Math_round_Z (z : Z) : Math_round (inject_Z z) = z.
Proof.
  pose proof (Math_round_bounds z z (inject_Z z)) as H.
  assert (z <= Math_round (inject_Z z) <= z) by (apply H; lra). lia.
Qed.

Lemma Math_round_comp (x y : Q) : (x == y)%Q -> Math_round x = Math_round y.
Proof. intros H. unfold Math_round. apply Qfloor_comp. by rewrite H. Qed.

(** Rounding a number of halves, and a number of quarters. *)
Lemma Math_round_halves (n : Z) : Math_round (n # 2) = (n + 1) / 2.
Proof.
  unfold Math_round. rewrite (Qfloor_comp _ ((n + 1) # 2)); [done |].
  unfold Qeq, Qplus. simpl. lia.
Qed.

Lemma Math_round_quarters (n : Z) : Math_round (n # 4) = (n + 2) / 4.
Proof.
  unfold Math_round. rewrite (Qfloor_comp _ ((n + 2) # 4)); [done |].
  unfold Qeq, Qplus. simpl. lia.
Qed.

(** *** The scores of [generateFeedback] *)

Lemma halves_add (x y : Z) : ((x # 2) + (y # 2) == (x + y) # 2)%Q.
Proof. unfold Qeq, Qplus. simpl. lia. Qed.

Lemma plus_no_halves (acc : Q) : (acc + (0 # 2) == acc)%Q.
Proof.
  assert (E : (0 # 2 == 0)%Q) by (unfold Qeq; reflexivity).
  rewrite E. apply Qplus_0_r.
Qed.

Lemma empathy_words_hits text (words : list string) : forall acc : Q,
  (fold_left (fun empathyScore word =>
                if includes (toLowerCase text) word
                then (empathyScore + (1 # 2))%Q else empathyScore) words acc
   == acc + (Z.of_nat (length (List.filter
               (fun word => includes (toLowerCase text) word) words)) # 2))%Q.
Proof.
  induction words as [| w words IH]; intros acc.
  - apply Qeq_sym, plus_no_halves.
  - cbn [fold_left List.filter]. rewrite IH.
    destruct (includes (toLowerCase text) w); [| reflexivity].
    cbn [length]. rewrite <- Qplus_assoc, halves_add.
    by replace (1 + Z.of_nat (length (List.filter
                 (fun word => includes (toLowerCase text) word) words)))
      with (Z.of_nat (S (length (List.filter
                 (fun word => includes (toLowerCase text) word) words)))) by lia.
Qed.

Lemma empathy_fold_hits contents : forall acc : Q,
  (fold_left (fun empathyScore text =>
      fold_left (fun empathyScore word =>
                   if includes (toLowerCase text) word
                   then (empathyScore + (1 # 2))%Q else empathyScore)
                empathyWords empathyScore) contents acc
   == acc + (Z.of_nat (empathy_hits contents) # 2))%Q.
Proof.
  unfold empathy_hits.
  induction contents as [| text contents IH]; intros acc.
  - apply Qeq_sym, plus_no_halves.
  - cbn [fold_left map]. rewrite IH, empathy_words_hits.
    rewrite <- Qplus_assoc, halves_add, <- Nat2Z.inj_add. reflexivity.
Qed.

Lemma empathy_sum_hits contents :
  (empathy_sum contents == (10 + Z.of_nat (empathy_hits contents)) # 2)%Q.
Proof.
  unfold empathy_sum. rewrite empathy_fold_hits.
  assert (E : (5 == 10 # 2)%Q) by (unfold Qeq; reflexivity).
  rewrite E. apply halves_add.
Qed.

Lemma questionScore_halves (n : nat) :
  (Qmin 10 (5 + inject_Z (Z.of_nat n) * (3 # 2))
   == Z.min 20 (10 + 3 * Z.of_nat n) # 2)%Q.
Proof.
  assert (E : (5 + inject_Z (Z.of_nat n) * (3 # 2) == (10 + 3 * Z.of_nat n) # 2)%Q).
  { unfold Qeq, Qplus, Qmult, inject_Z. simpl. lia. }
  destruct (Z.le_gt_cases 20 (10 + 3 * Z.of_nat n)) as [H | H].
  - rewrite Z.min_l by done. rewrite Q.min_l; [reflexivity |].
    rewrite E. unfold Qle. simpl. lia.
  - rewrite Z.min_r by lia. rewrite Q.min_r; [exact E |].
    rewrite E. unfold Qle. simpl. lia.
Qed.


Lemma generateFeedback_idle conversation endTime :
  userMessages conversation = [] ->
  generateFeedback conversation endTime =
  Some {| overall := 5; empathy := 5; questions := 5;
          areas := Some ["Try to engage more in the conversation"%string];
          strengths := None; improvements := None;
          messageCount := None; conversationLength := None |}.
Proof. intros H. unfold generateFeedback. by rewrite H. Qed.

(** The three scores as integer formulas of the two counts. *)
Lemma generateFeedback_scored conversation endTime contents :
  userMessages conversation <> [] ->
  mapM content (userMessages conversation) = Some contents ->
  let h := Z.of_nat (empathy_hits contents) in
  let q := Z.of_nat (question_count contents) in
  exists fb,
    generateFeedback conversation endTime = Some fb /\
    empathy fb = Z.min 10 (5 + (h + 1) / 2) /\
    questions fb = Z.min 10 (5 + (3 * q + 1) / 2) /\
    overall fb = (2 * empathy fb + Z.min 20 (10 + 3 * q) + 2) / 4 /\
    areas fb = None /\
    messageCount fb = Some (length (userMessages conversation)) /\
    conversationLength fb = Some (endTime - startTime conversation).
Proof.
  intros Hne Hmap h q. unfold generateFeedback.
  destruct (userMessages conversation) as [| m ms] eqn:Hu; [done |].
  cbn [length Nat.eqb]. rewrite Hmap. cbn [mbind option_bind].
  eexists. split; [reflexivity |]. cbn [empathy questions overall areas messageCount
                                        conversationLength].
  assert (He : Math_round (empathy_sum contents) = 5 + (h + 1) / 2).
  { rewrite (Math_round_comp _ _ (empathy_sum_hits contents)), Math_round_halves.
    fold h. Z.div_mod_to_equations. lia. }
  split; [by rewrite He |]. split.
  { rewrite (Math_round_comp _ _ (questionScore_halves _)), Math_round_halves.
    fold q. Z.div_mod_to_equations. lia. }
  split; [| done].
  set (e := Z.min 10 (Math_round (empathy_sum contents))).
  rewrite (Math_round_comp _ ((2 * e + Z.min 20 (10 + 3 * q)) # 4)).
  - apply Math_round_quarters.
  - rewrite (questionScore_halves (question_count contents)). fold q.
    generalize (Z.min 20 (10 + 3 * q)). intros halves.
    unfold Qeq, Qdiv, Qmult, Qplus, Qinv, inject_Z. simpl. lia.
Qed.

Lemma scores_between (h q e qn o : Z) :
  0 <= h -> 0 <= q ->
  e = Z.min 10 (5 + (h + 1) / 2) ->
  qn = Z.min 10 (5 + (3 * q + 1) / 2) ->
  o = (2 * e + Z.min 20 (10 + 3 * q) + 2) / 4 ->
  5 <= e <= 10 /\ 5 <= qn <= 10 /\ Z.min e qn <= o <= Z.max e qn.
Proof. intros Hh Hq -> -> ->. Z.div_mod_to_equations. lia. Qed.


(** *** Detection on the stored text *)

Lemma crisisKeywords_solid :
  forallb (fun keyword => solid (chars keyword)) crisisKeywords = true.
Proof. reflexivity. Qed.

Lemma existsb_ext_in {A} (f g : A -> bool) (l : list A) :
  (forall x, In x l -> f x = g x) -> existsb f l = existsb g l.
Proof.
  induction l as [| a l IH]; intros H; [done |]. simpl.
  rewrite (H a) by (by left). rewrite IH; [done |].
  intros x Hx. apply H. by right.
Qed.

Lemma detectCrisis_trim_eq message : detectCrisis (trim message) = detectCrisis message.
Proof.
  unfold detectCrisis. apply existsb_ext_in. intros keyword Hk.
  apply includes_lower_trim.
  pose proof crisisKeywords_solid as H. rewrite forallb_forall in H. by apply H.
Qed.

Lemma responseCategory_trim_eq message :
  responseCategory (toLowerCase (trim message)) = responseCategory (toLowerCase message).
Proof.
  unfold responseCategory. by rewrite !includes_lower_trim by reflexivity.
Qed.

(** *** The invariant of the store *)

Lemma not_empty_trim message :
  message_is_empty message = false ->
  exists m, message = Some m /\ trim m <> EmptyString.
Proof.
  destruct message as [m |]; [| done]. simpl.
  intros [_ H]%orb_false_iff. exists m. split; [done |].
  intros E. by rewrite E in H.
Qed.

Lemma stored_user_message env message m :
  message = Some m -> trim m <> EmptyString ->
  user_message {| m_id := uuid1 env; role := "user";
                  content := Some (trim (default EmptyString message));
                  timestamp := now1 env; m_isCrisis := None |}.
Proof.
  intros -> Hne. split; [done |]. exists (trim m). split; [done |]. split; [done |].
  unfold trim. rewrite chars_str. apply trim_chars_trimmed.
Qed.

Lemma possibleResponses_nonempty scenarioId sc category :
  scenarios !! scenarioId = Some sc -> possibleResponses sc category <> [].
Proof.
  intros Hsc. unfold possibleResponses.
  destruct (patterns (responses sc) !! category) as [l |] eqn:Hl; [| done].
  by apply (ServerSpec.scenarios_patterns_nonempty _ _ Hsc _ _ Hl).
Qed.

Lemma postMessage_ok env id message conversations :
  map_Forall conversation_ok conversations ->
  is_random (random env) ->
  map_Forall conversation_ok (store (postMessage env id message conversations)).
Proof.
  intros Hok Hr. unfold postMessage.
  destruct (conversations !! id) as [c |] eqn:Hc; [| done].
  destruct (message_is_empty message) eqn:Hempty; [done |].
  destruct (not_empty_trim _ Hempty) as (m & Hm & Hne).
  destruct (Hok _ _ Hc) as [Hid Hsc Hmsgs Hstate].
  pose proof (stored_user_message env message m Hm Hne) as Huser.
  destruct (detectCrisis (default EmptyString message)) eqn:Hcrisis; cbn [store].
  - apply map_Forall_insert_2; [| done].
    split; [done | done | | done]. cbn [messages push_message scenario].
    rewrite <- app_assoc. apply exchanges_snoc; [done | done |].
    eexists. split; [reflexivity |]. rewrite detectCrisis_trim_eq, Hcrisis. done.
  - apply map_Forall_insert_2; [| done].
    split; [done | done | | done]. cbn [messages push_message scenario].
    rewrite <- app_assoc. apply exchanges_snoc; [done | done |].
    eexists. split; [reflexivity |]. rewrite detectCrisis_trim_eq, Hcrisis.
    split; [done |]. split; [done |]. cbn [content].
    rewrite responseCategory_trim_eq. subst message. cbn [default].
    destruct (ServerSpec.generateAIResponse_elem (random env)
                (push_message
                   {| m_id := uuid1 env; role := "user"; content := Some (trim m);
                      timestamp := now1 env; m_isCrisis := None |} c) m Hr)
      as (x & Hx & Hin).
    + cbn [scenario push_message]. by eapply possibleResponses_nonempty.
    + exists x. split; [exact Hx | exact Hin].
Qed.

Lemma handle_ok st rq :
  store_exchanges st -> well_formed rq -> store_exchanges (handle st rq).1.
Proof.
  unfold store_exchanges. intros Hok Hrq.
  destruct rq as [uuid now scenarioId | env id message | id | now id]; simpl.
  - unfold postStart, startConversation.
    destruct (scenarios !! scenarioId) as [sc |] eqn:Hsc; [| done]. simpl.
    apply map_Forall_insert_2; [| done].
    split; [done | done | constructor | by left].
  - by apply postMessage_ok.
  - unfold getConversation. by destruct (conversations st !! id).
  - unfold postEnd. destruct (conversations st !! id) as [c |] eqn:Hc; [| done].
    assert (Hnew : map_Forall conversation_ok
                     (<[id := with_state "completed" c]> (conversations st))).
    { apply map_Forall_insert_2; [| done].
      destruct (Hok _ _ Hc) as [Hid Hsc Hmsgs Hstate].
      split; [done | done | done | by right]. }
    by destruct (generateFeedback _ _).
Qed.

Lemma serve_ok rqs : forall st,
  store_exchanges st -> Forall well_formed rqs -> store_exchanges (serve rqs st).
Proof.
  induction rqs as [| rq rqs IH]; intros st Hok Hrqs; [done |].
  inversion Hrqs as [| ? ? Hrq Hrest]; subst.
  apply IH; [by apply handle_ok | done].
Qed.

Lemma emptyStore_ok : store_exchanges emptyStore.
Proof. apply map_Forall_empty. Qed.

(** The user messages of a list of exchanges: every second message, each
    with a text. *)
Lemma exchanges_users sc l :
  exchanges sc l ->
  length l = (2 * length (List.filter (fun msg => String.eqb (role msg) "user") l))%nat
  /\ Forall (fun msg => is_Some (content msg))
            (List.filter (fun msg => String.eqb (role msg) "user") l).
Proof.
  induction 1 as [| l u r _ [IHlen IHall] [Hrole (text & Htext & _)] Hreply].
  - done.
  - rewrite List.filter_app, !length_app. cbn [List.filter].
    rewrite Hrole. cbn [String.eqb Ascii.eqb].
    assert (Hr : String.eqb (role r) "user" = false).
    { destruct Hreply as (t & _ & Hcase).
      destruct (detectCrisis t).
      - by destruct Hcase as (-> & _).
      - by destruct Hcase as (-> & _). }
    rewrite Hr. simpl. split; [lia |].
    apply Forall_app. split; [done |]. constructor; [| done]. by rewrite Htext.
Qed.


Lemma ex_requests_well_formed : Forall well_formed ex_requests.
Proof. repeat constructor; vm_compute; done. Qed.

Lemma generateFeedback_with_state s c endTime :
  generateFeedback (with_state s c) endTime = generateFeedback c endTime.
Proof. reflexivity. Qed.

Lemma mapM_contents (l : list Message) :
  Forall (fun msg => is_Some (content msg)) l -> exists contents, mapM content l = Some contents.
Proof. intros H. by apply (mapM_is_Some_2 content l). Qed.

Lemma postMessage_other env id message conversations id' :
  id <> id' ->
  store (postMessage env id message conversations) !! id' = conversations !! id'.
Proof.
  intros Hne. unfold postMessage.
  destruct (conversations !! id) as [c |]; [| done].
  destruct (message_is_empty message); [done |].
  destruct (detectCrisis _); cbn [store]; by rewrite lookup_insert_ne.
Qed.

(** X7.  Whatever requests the server has handled, the messages of every
    stored conversation are exchanges: a user message with a trimmed text
    that is not empty, followed by its reply, which is the crisis notice
    when the stored text has a crisis keyword and otherwise one of the
    responses for the category of the stored text.  The conversation is
    stored under its own id, with the scenario of the table that its
    scenario id names. *)
Theorem serve_exchanges rqs id c :
  Forall well_formed rqs ->
  conversations (serve rqs emptyStore) !! id = Some c ->
  c_id c = id /\
  scenarios !! scenarioId c = Some (scenario c) /\
  exchanges (scenario c) (messages c) /\
  (state c = "active"%string \/ state c = "completed"%string).
Proof.
  intros Hrqs Hc.
  destruct (serve_ok rqs emptyStore emptyStore_ok Hrqs _ _ Hc) as [H1 H2 H3 H4].
  done.
Qed.

Lemma serve_exchanges_witness :
  exists c,
    conversations (serve ex_requests emptyStore) !! "c-1"%string = Some c /\
    length (messages c) = 6%nat /\
    exchanges (scenario c) (messages c).
Proof.
  destruct (conversations (serve ex_requests emptyStore) !! "c-1"%string) as [c |] eqn:Hc;
    [| vm_compute in Hc; discriminate].
  exists c. split; [reflexivity |]. split.
  - vm_compute in Hc. injection Hc as <-. reflexivity.
  - exact (proj1 (proj2 (proj2 (serve_exchanges ex_requests "c-1" c
                                  ex_requests_well_formed Hc)))).
Defined.

(** X8.  Ending a stored conversation never fails: the end route answers
    with a feedback object, the duration since the start, and a message
    count that is twice the number of user messages, which is the count the
    feedback object itself reports when there was any message. *)
Theorem postEnd_summary rqs now id c :
  Forall well_formed rqs ->
  conversations (serve rqs emptyStore) !! id = Some c ->
  exists fb,
    (postEnd now id (serve rqs emptyStore)).2 =
      REnded fb (now - startTime c) (length (messages c)) (title (scenario c)) /\
    length (messages c) = (2 * length (userMessages c))%nat /\
    (messages c <> [] -> messageCount fb = Some (length (userMessages c))) /\
    (messages c = [] ->
     overall fb = 5 /\
     areas fb = Some ["Try to engage more in the conversation"%string]).
Proof.
  intros Hrqs Hc.
  destruct (serve_ok rqs emptyStore emptyStore_ok Hrqs _ _ Hc) as [_ _ Hmsgs _].
  destruct (exchanges_users _ _ Hmsgs) as [Hlen Hall]. fold (userMessages c) in Hlen, Hall.
  unfold postEnd. rewrite Hc, generateFeedback_with_state.
  destruct (userMessages c) as [| u us] eqn:Hu.
  - rewrite (generateFeedback_idle c now Hu). eexists. split; [reflexivity |].
    split; [done |]. split; [| done].
    intros Hne. destruct (messages c); [done | simpl in Hlen; lia].
  - destruct (mapM_contents _ Hall) as [contents Hmap]. rewrite <- Hu in Hmap.
    destruct (generateFeedback_scored c now contents) as (fb & -> & _ & _ & _ & _ & Hcount & _);
      [by rewrite Hu | done |].
    exists fb. split; [reflexivity |]. split; [done |]. rewrite Hu in Hcount.
    split; [done |]. intros Hnil. rewrite Hnil in Hlen. simpl in Hlen. lia.
Qed.

Lemma postEnd_summary_witness :
  exists c fb,
    conversations (serve (take 4 ex_requests) emptyStore) !! "c-1"%string = Some c /\
    (postEnd 1700000090000 "c-1" (serve (take 4 ex_requests) emptyStore)).2 =
      REnded fb 90000 4 "Checking on a Friend" /\
    messageCount fb = Some 2%nat.
Proof.
  destruct (conversations (serve (take 4 ex_requests) emptyStore) !! "c-1"%string)
    as [c |] eqn:Hc; [| vm_compute in Hc; discriminate].
  assert (Hrqs : Forall well_formed (take 4 ex_requests))
    by (apply Forall_take, ex_requests_well_formed).
  destruct (postEnd_summary (take 4 ex_requests) 1700000090000 "c-1" c Hrqs Hc)
    as (fb & Hend & Hlen & Hsome & _).
  exists c, fb. vm_compute in Hc. injection Hc as <-.
  split; [reflexivity |]. split; [exact Hend |]. by apply Hsome.
Defined.

(** X9.  When every user message of a conversation has a text,
    [generateFeedback] returns, with an empathy score and a question score
    between 5 and 10 and an overall score between the two. *)
Theorem generateFeedback_scores conversation endTime :
  Forall (fun msg => is_Some (content msg)) (userMessages conversation) ->
  exists fb,
    generateFeedback conversation endTime = Some fb /\
    5 <= empathy fb <= 10 /\ 5 <= questions fb <= 10 /\
    Z.min (empathy fb) (questions fb) <= overall fb
      <= Z.max (empathy fb) (questions fb).
Proof.
  intros Hall. destruct (userMessages conversation) as [| u us] eqn:Hu.
  - rewrite (generateFeedback_idle conversation endTime Hu).
    eexists. split; [reflexivity |]. simpl. lia.
  - destruct (mapM_contents _ Hall) as [contents Hmap]. rewrite <- Hu in Hmap.
    destruct (generateFeedback_scored conversation endTime contents)
      as (fb & Hfb & He & Hq & Ho & _); [by rewrite Hu | done |].
    exists fb. split; [done |].
    apply (scores_between (Z.of_nat (empathy_hits contents))
                          (Z.of_nat (question_count contents))); [lia | lia | done..].
Qed.

Lemma generateFeedback_scores_witness :
  exists fb,
    generateFeedback ex_talk 1700000090000 = Some fb /\
    5 <= empathy fb <= 10 /\ 5 <= questions fb <= 10 /\
    Z.min (empathy fb) (questions fb) <= overall fb
      <= Z.max (empathy fb) (questions fb).
Proof.
  apply generateFeedback_scores. vm_compute. repeat constructor; eauto.
Defined.

(** X10.  The scores of a conversation with user messages, as integer
    formulas of the number [h] of (message, empathy word) hits and the
    number [q] of messages with a question mark: the empathy score is 5
    plus half of [h] rounded up, the question score 5 plus one and a half
    times [q] rounded to the nearest integer (a half going up), each capped
    at 10, and the overall score is the rounded mean of the empathy score
    and the capped, unrounded question score. *)
Theorem generateFeedback_formulas conversation endTime contents :
  userMessages conversation <> [] ->
  mapM content (userMessages conversation) = Some contents ->
  let h := Z.of_nat (empathy_hits contents) in
  let q := Z.of_nat (question_count contents) in
  exists fb,
    generateFeedback conversation endTime = Some fb /\
    empathy fb = Z.min 10 (5 + (h + 1) / 2) /\
    questions fb = Z.min 10 (5 + (3 * q + 1) / 2) /\
    overall fb = (2 * empathy fb + Z.min 20 (10 + 3 * q) + 2) / 4.
Proof.
  intros Hne Hmap h q.
  destruct (generateFeedback_scored conversation endTime contents Hne Hmap)
    as (fb & Hfb & He & Hq & Ho & _).
  by exists fb.
Qed.


Lemma generateFeedback_formulas_witness :
  exists fb,
    generateFeedback ex_talk 1700000090000 = Some fb /\
    empathy fb = 7 /\ questions fb = 8 /\ overall fb = 8.
Proof.
  assert (Hne : userMessages ex_talk <> []) by (vm_compute; discriminate).
  assert (Hmap : mapM content (userMessages ex_talk) = Some ex_talk_contents)
    by (vm_compute; reflexivity).
  destruct (generateFeedback_formulas ex_talk 1700000090000 ex_talk_contents Hne Hmap)
    as (fb & Hfb & He & Hq & Ho).
  exists fb. split; [exact Hfb |].
  rewrite Ho, He, Hq. vm_compute. done.
Defined.

(** X11.  [detectCrisis] finds a keyword written in any letter case and
    anywhere in the message. *)
Theorem detectCrisis_any_case pre word post keyword :
  keyword ∈ crisisKeywords ->
  toLowerCase word = keyword ->
  detectCrisis (pre +:+ word +:+ post) = true.
Proof.
  intros Hk Hw. apply (ServerSpec.detectCrisis_true _ keyword Hk).
  unfold includes. rewrite chars_toLowerCase, !chars_app, !map_app.
  rewrite <- Hw, chars_toLowerCase. apply includes_chars_app.
Qed.

Lemma detectCrisis_any_case_witness :
  detectCrisis "Some days I just want to GIVE UP on everything" = true.
Proof.
  apply (detectCrisis_any_case "Some days I just want to " "GIVE UP" " on everything"
                               "give up").
  - apply list_elem_of_In. do 13 right. left. reflexivity.
  - reflexivity.
Defined.

(** X12.  The message route tests the message as it was sent and stores it
    trimmed; the two never disagree.  The trimmed text has a crisis keyword
    exactly when the message has one, and it falls into the same response
    category. *)
Theorem stored_text_classifies message :
  detectCrisis (trim message) = detectCrisis message /\
  responseCategory (toLowerCase (trim message)) = responseCategory (toLowerCase message).
Proof. split; [apply detectCrisis_trim_eq | apply responseCategory_trim_eq]. Qed.

(** A message of no-break spaces alone is rejected, and one wrapped in them
    is stored without them. *)
Example postMessages_no_break_space :
  let st := serve (take 1 ex_requests) emptyStore in
  (postMessages ex_env "c-1" (Some (str [nbsp; nbsp])) st).2
    = RMessage (ReplyError 400 "Message cannot be empty") /\
  (messages <$>
     conversations
       (postMessages ex_env "c-1"
          (Some (str (nbsp :: chars "I feel hopeless" ++ [nbsp]))) st).1
       !! "c-1"%string)
    = Some [ {| m_id := uuid1 ex_env; role := "user";
                content := Some "I feel hopeless"%string;
                timestamp := now1 ex_env; m_isCrisis := None |};
             {| m_id := uuid2 ex_env; role := "system";
                content := Some crisisContent;
                timestamp := now2 ex_env; m_isCrisis := Some true |} ].
Proof. split; vm_compute; reflexivity. Qed.

(** X13.  A request changes no conversation other than the one it is
    addressed to (for a start request: the one it creates).  Here and below
    the request is one the embedding describes, see [well_formed]. *)
Theorem handle_other_conversations st rq id :
  well_formed rq ->
  target rq <> id ->
  conversations (handle st rq).1 !! id = conversations st !! id /\
  endTimes (handle st rq).1 !! id = endTimes st !! id.
Proof.
  intros _ Hne.
  destruct rq as [uuid now scenarioId | env id' message | id' | now id']; simpl in *.
  - unfold postStart, startConversation.
    destruct (scenarios !! scenarioId); [| done]. simpl.
    by rewrite lookup_insert_ne, lookup_delete_ne.
  - split; [by apply postMessage_other | done].
  - unfold getConversation. by destruct (conversations st !! id').
  - unfold postEnd. destruct (conversations st !! id') as [c |]; [| done].
    destruct (generateFeedback _ _); simpl; by rewrite !lookup_insert_ne.
Qed.

Lemma handle_other_conversations_witness :
  let st := serve (take 4 ex_requests) emptyStore in
  conversations (handle st (PostStart "c-2" 1700000050000 "crisis-response")).1
    !! "c-1"%string
  = conversations st !! "c-1"%string.
Proof.
  intros st.
  apply (handle_other_conversations st
           (PostStart "c-2" 1700000050000 "crisis-response") "c-1").
  - reflexivity.
  - discriminate.
Defined.

(** X14.  A request that is answered with status 400 or 404 leaves the
    store as it was. *)
Theorem rejected_keeps_store st rq status error :
  well_formed rq ->
  (handle st rq).2 = RError status error \/
  (handle st rq).2 = RMessage (ReplyError status error) ->
  status = 400 \/ status = 404 ->
  (handle st rq).1 = st.
Proof.
  intros _ Hreply Hstatus. destruct st as [cs ets].
  destruct rq as [uuid now scenarioId | env id message | id | now id]; simpl in *.
  - unfold postStart, startConversation in *. simpl in *.
    destruct (scenarios !! scenarioId); [| done].
    simpl in Hreply. by destruct Hreply.
  - destruct Hreply as [Hreply | Hreply]; [done |].
    injection Hreply as Hreply. unfold postMessages. simpl. f_equal.
    unfold postMessage in *. destruct (cs !! id); [| done].
    destruct (message_is_empty message); [done |].
    by destruct (detectCrisis _).
  - unfold getConversation in *. simpl in *. by destruct (cs !! id).
  - unfold postEnd in *. simpl in *. destruct (cs !! id) as [c |]; [| done].
    destruct (generateFeedback _ _); simpl in Hreply.
    + by destruct Hreply.
    + destruct Hreply as [[= <- _] | ?]; [lia | done].
Qed.

Lemma rejected_keeps_store_witness :
  let st := serve (take 3 ex_requests) emptyStore in
  (handle st (PostMessages ex_env "c-2" (Some "Hello"%string))).1 = st.
Proof.
  intros st.
  apply (rejected_keeps_store st (PostMessages ex_env "c-2" (Some "Hello"%string))
           404 "Conversation not found").
  - unfold well_formed, is_random. simpl. lia.
  - right. vm_compute. reflexivity.
  - by right.
Defined.

Lemma postMessage_reply_state s id c env id' message conversations :
  conversations !! id = Some c ->
  reply (postMessage env id' message (<[id := with_state s c]> conversations))
  = reply (postMessage env id' message conversations).
Proof.
  intros Hc. unfold postMessage.
  destruct (decide (id = id')) as [<- | Hne].
  - rewrite lookup_insert_eq, Hc.
    destruct (message_is_empty message); [done |].
    by destruct (detectCrisis _).
  - rewrite lookup_insert_ne by done.
    destruct (conversations !! id'); [| done].
    destruct (message_is_empty message); [done |].
    by destruct (detectCrisis _).
Qed.

Lemma postEnd_store now id st :
  (postEnd now id st).1 =
  match conversations st !! id with
  | None => st
  | Some c =>
      {| conversations := <[id := with_state "completed" c]> (conversations st);
         endTimes := <[id := now]> (endTimes st) |}
  end.
Proof.
  unfold postEnd. destruct (conversations st !! id) as [c |]; [| done].
  by destruct (generateFeedback _ _).
Qed.

(** X15.  No route reads the [state] of a conversation: after a
    conversation was ended, every request other than a read of the stored
    conversation is answered as it would have been before.  In particular
    an ended conversation still takes messages. *)
Theorem end_does_not_close now id st rq :
  well_formed rq ->
  (forall id', rq <> GetConversation id') ->
  (handle (postEnd now id st).1 rq).2 = (handle st rq).2.
Proof.
  intros _ Hrq. rewrite postEnd_store.
  destruct (conversations st !! id) as [c |] eqn:Hc; [| done].
  destruct rq as [uuid now' scenarioId | env id' message | id' | now' id']; simpl.
  - unfold postStart, startConversation.
    by destruct (scenarios !! scenarioId).
  - unfold postMessages. simpl. f_equal. by apply postMessage_reply_state.
  - by destruct (Hrq id').
  - unfold postEnd. simpl.
    destruct (decide (id = id')) as [<- | Hne].
    + rewrite lookup_insert_eq, Hc. simpl.
      change (generateFeedback (with_state "completed" (with_state "completed" c)) now')
        with (generateFeedback c now').
      change (generateFeedback (with_state "completed" c) now')
        with (generateFeedback c now').
      destruct (generateFeedback c now'); reflexivity.
    + rewrite lookup_insert_ne by done.
      destruct (conversations st !! id') as [c' |]; [| done].
      by destruct (generateFeedback _ _).
Qed.

Lemma end_does_not_close_witness :
  let st := serve (take 4 ex_requests) emptyStore in
  let rq := PostMessages ex_env "c-1" (Some "I feel hopeless too"%string) in
  (handle (postEnd 1700000090000 "c-1" st).1 rq).2 = (handle st rq).2.
Proof.
  intros st rq. apply end_does_not_close.
  - unfold well_formed, is_random. simpl. lia.
  - intros id'. discriminate.
Defined.

End RoutesSpec.

(** ** The script routes *)

Module ScriptRoutesSpec.
Import Js Text Scripts ScriptRoutes TextFacts.
Local Open Scope Z_scope.

Lemma length_nonempty (s : string) : (1 <=? String.length s)%nat = true -> s <> EmptyString.
Proof. by destruct s. Qed.

Lemma truthy_Some o s : truthy o = Some s -> o = Some s /\ s <> EmptyString.
Proof.
  destruct o as [t |]; [| done]. simpl.
  destruct (String.eqb t EmptyString) eqn:E; [done |].
  intros [= ->]. split; [done |]. by apply String.eqb_neq.
Qed.

Lemma findFirst_Some scriptId user db s :
  findFirst scriptId user db = Some s <-> db !! scriptId = Some s /\ userId s = user.
Proof.
  unfold findFirst. destruct (db !! scriptId) as [s0 |].
  - destruct (String.eqb (userId s0) user) eqn:E.
    + apply String.eqb_eq in E. split; [by intros [= <-] | by intros [[= <-] _]].
    + apply String.eqb_neq in E. split; [done | by intros [[= <-] ?]].
  - split; [done | by intros [? _]].
Qed.

Lemma findFirst_other scriptId user db s :
  db !! scriptId = Some s -> userId s <> user -> findFirst scriptId user db = None.
Proof.
  intros Hs Hne. unfold findFirst. rewrite Hs.
  by apply String.eqb_neq in Hne as ->.
Qed.

(** [PUT], read through [findFirst]. *)
Lemma putScript_cases now user scriptId body db :
  putScript now user scriptId body db =
  if negb (updateScriptSchema body) then (PutError "VALIDATION_ERROR" 400, db)
  else match findFirst scriptId user db with
       | Some existingScript =>
           let updatedScript := apply_updates now body existingScript in
           (PutOk {| r_id := id updatedScript; r_title := title updatedScript;
                     r_nathanLevel := nathanLevel updatedScript;
                     r_draftNumber := draftNumber updatedScript;
                     r_updatedAt := updatedAt updatedScript |},
            <[scriptId := updatedScript]> db)
       | None => (PutError "SCRIPT_NOT_FOUND" 404, db)
       end.
Proof.
  unfold putScript, findFirst. destruct (negb _); [done |].
  destruct (db !! scriptId) as [s |]; [| done]. by destruct (String.eqb _ _).
Qed.

Lemma apply_updates_ok now body scriptId s :
  updateScriptSchema body = true ->
  script_ok scriptId s -> script_ok scriptId (apply_updates now body s).
Proof.
  intros Hschema [Hid Hlevel Hdraft Htitle Htext Htemplate Hstatus].
  apply andb_true_iff in Hschema as [Ht Hs].
  split; cbn [apply_updates id nathanLevel draftNumber title originalScript template status];
    try done.
  - destruct (u_enhancements body); [apply ScriptsSpec.calculateNathanLevel_range | done].
  - destruct (truthy (u_originalScript body)), (truthy (u_enhancedScript body)); lia.
  - destruct (truthy (u_title body)) as [t |] eqn:E; [| done].
    by apply truthy_Some in E as [_ ?].
  - destruct (truthy (u_originalScript body)) as [t |] eqn:E; [| done].
    apply truthy_Some in E as [E _]. rewrite E in Hs. simpl. lia.
Qed.

Lemma handle_script_ok db rq :
  map_Forall script_ok db -> map_Forall script_ok (handle db rq).2.
Proof.
  intros Hok. destruct rq as [user [newId now body | scriptId | now scriptId body
                                    | now scriptId body ai | scriptId]];
    cbn [handle fst snd].
  - unfold postScript. destruct (createScriptSchema body) eqn:Hschema; [| done].
    cbn [negb]. destruct (db !! newId); [done |]. cbn [snd].
    apply andb_true_iff in Hschema as [Ht Hs].
    apply map_Forall_insert_2; [| done]. split; cbn; try done.
    + apply ScriptsSpec.calculateNathanLevel_range.
    + by apply length_nonempty.
    + lia.
    + destruct (truthy (n_template body)) as [t |] eqn:E; [| done].
      by apply truthy_Some in E as [_ ?].
  - unfold getScript. by destruct (findFirst _ _ _).
  - rewrite putScript_cases. destruct (updateScriptSchema body) eqn:Hschema; [| done].
    cbn [negb]. destruct (findFirst scriptId user db) as [s |] eqn:Hs; [| done].
    apply findFirst_Some in Hs as [Hs _]. cbn [snd].
    apply map_Forall_insert_2; [| done].
    apply apply_updates_ok; [done | by apply Hok].
  - unfold postEnhance. destruct (negb _); [done |].
    destruct (findFirst scriptId user db) as [s |] eqn:Hs; [| done].
    destruct ai as [content |]; [| done].
    apply findFirst_Some in Hs as [Hs _]. cbn [snd].
    apply map_Forall_insert_2; [| done].
    destruct (Hok _ _ Hs) as [Hid Hlevel Hdraft Htitle Htext Htemplate Hstatus].
    split; cbn; try done; lia.
  - unfold deleteScript. destruct (findFirst _ _ _); [| done].
    by apply map_Forall_delete.
Qed.

Lemma serve_script_ok rqs : forall db,
  map_Forall script_ok db -> map_Forall script_ok (serve rqs db).
Proof.
  induction rqs as [| rq rqs IH]; intros db Hok; [done |].
  apply IH. by apply handle_script_ok.
Qed.

(** X16.  Whatever requests the service has handled, every stored script
    has a Nathan level between 20 and 100, a draft number of at least one, a
    title and a template name that are not empty, a text of 10 to 10000
    characters and the status ['DRAFT'], and is stored under its own id. *)
Theorem serve_scripts_ok rqs scriptId s :
  serve rqs ∅ !! scriptId = Some s ->
  id s = scriptId /\
  20 <= nathanLevel s <= 100 /\
  1 <= draftNumber s /\
  title s <> EmptyString /\
  10 <= Z.of_nat (String.length (originalScript s)) <= 10000 /\
  template s <> EmptyString /\
  status s = "DRAFT"%string.
Proof.
  intros Hs.
  destruct (serve_script_ok rqs ∅ (map_Forall_empty _) _ _ Hs) as [H1 H2 H3 H4 H5 H6 H7].
  done.
Qed.

Lemma serve_scripts_ok_witness :
  exists s,
    serve ex_script_requests ∅ !! "s-1"%string = Some s /\
    nathanLevel s = 52 /\ draftNumber s = 3 /\
    20 <= nathanLevel s <= 100 /\ 1 <= draftNumber s.
Proof.
  destruct (serve ex_script_requests ∅ !! "s-1"%string) as [s |] eqn:Hs;
    [| vm_compute in Hs; discriminate].
  exists s. split; [reflexivity |].
  destruct (serve_scripts_ok ex_script_requests "s-1" s Hs) as (_ & Hl & Hd & _).
  vm_compute in Hs. injection Hs as <-. done.
Defined.

Lemma handle_other_user user rq db scriptId s :
  db !! scriptId = Some s -> userId s <> user ->
  (handle db (user, rq)).2 !! scriptId = Some s.
Proof.
  intros Hs Hne.
  destruct rq as [newId now body | scriptId' | now scriptId' body
                  | now scriptId' body ai | scriptId']; cbn [handle fst snd].
  - unfold postScript. destruct (negb _); [done |].
    destruct (db !! newId) eqn:Hnew; [done |]. cbn [snd].
    rewrite lookup_insert_ne; [done |]. intros ->. congruence.
  - unfold getScript. by destruct (findFirst _ _ _).
  - rewrite putScript_cases. destruct (negb _); [done |].
    destruct (findFirst scriptId' user db) as [s0 |] eqn:H0; [| done]. cbn [snd].
    rewrite lookup_insert_ne; [done |]. intros ->.
    by rewrite (findFirst_other _ _ _ _ Hs Hne) in H0.
  - unfold postEnhance. destruct (negb _); [done |].
    destruct (findFirst scriptId' user db) as [s0 |] eqn:H0; [| done].
    destruct ai; [| done]. cbn [snd].
    rewrite lookup_insert_ne; [done |]. intros ->.
    by rewrite (findFirst_other _ _ _ _ Hs Hne) in H0.
  - unfold deleteScript.
    destruct (findFirst scriptId' user db) as [s0 |] eqn:H0; [| done]. cbn [snd].
    rewrite lookup_delete_ne; [done |]. intros ->.
    by rewrite (findFirst_other _ _ _ _ Hs Hne) in H0.
Qed.

(** X17.  A request of one user never changes, and never deletes, a script
    of another user. *)
Theorem other_users_scripts user rq db scriptId s :
  db !! scriptId = Some s -> userId s <> user ->
  (handle db (user, rq)).2 !! scriptId = Some s.
Proof. apply handle_other_user. Qed.

Lemma other_users_scripts_witness :
  let db := serve (take 4 ex_script_requests) ∅ in
  exists s, db !! "s-1"%string = Some s /\
            (handle db ("u-2"%string, DeleteScript "s-1")).2 !! "s-1"%string = Some s.
Proof.
  intros db.
  destruct (db !! "s-1"%string) as [s |] eqn:Hs; [| vm_compute in Hs; discriminate].
  exists s. split; [reflexivity |].
  apply other_users_scripts; [exact Hs |].
  vm_compute in Hs. injection Hs as <-. discriminate.
Defined.

(** X18.  A request never changes the owner, the creation date, the
    template, the status or the id of a stored script, and it leaves the
    draft number as it is or adds one to it: draft numbers never go down. *)
Theorem handle_frame db rq scriptId s s' :
  db !! scriptId = Some s ->
  (handle db rq).2 !! scriptId = Some s' ->
  id s' = id s /\ userId s' = userId s /\ createdAt s' = createdAt s /\
  template s' = template s /\ status s' = status s /\
  (draftNumber s' = draftNumber s \/ draftNumber s' = draftNumber s + 1).
Proof.
  intros Hs.
  assert (Hsame : db !! scriptId = Some s' ->
    id s' = id s /\ userId s' = userId s /\ createdAt s' = createdAt s /\
    template s' = template s /\ status s' = status s /\
    (draftNumber s' = draftNumber s \/ draftNumber s' = draftNumber s + 1)).
  { rewrite Hs. intros [= <-]. tauto. }
  destruct rq as [user [newId now body | scriptId' | now scriptId' body
                        | now scriptId' body ai | scriptId']]; cbn [handle fst snd].
  - unfold postScript. destruct (negb _); [done |].
    destruct (db !! newId) eqn:Hnew; [done |]. cbn [snd].
    rewrite lookup_insert_ne; [done |]. intros ->. congruence.
  - unfold getScript. by destruct (findFirst _ _ _).
  - rewrite putScript_cases. destruct (negb _); [done |].
    destruct (findFirst scriptId' user db) as [s0 |] eqn:H0; [| done]. cbn [snd].
    destruct (decide (scriptId' = scriptId)) as [-> | Hne];
      [| by rewrite lookup_insert_ne].
    apply findFirst_Some in H0 as [H0 _]. rewrite Hs in H0. injection H0 as <-.
    rewrite lookup_insert_eq. intros [= <-]. cbn.
    repeat (split; [done |]).
    destruct (truthy (u_originalScript body)), (truthy (u_enhancedScript body)); tauto.
  - unfold postEnhance. destruct (negb _); [done |].
    destruct (findFirst scriptId' user db) as [s0 |] eqn:H0; [| done].
    destruct ai; [| done]. cbn [snd].
    destruct (decide (scriptId' = scriptId)) as [-> | Hne];
      [| by rewrite lookup_insert_ne].
    apply findFirst_Some in H0 as [H0 _]. rewrite Hs in H0. injection H0 as <-.
    rewrite lookup_insert_eq. intros [= <-]. cbn. tauto.
  - unfold deleteScript.
    destruct (findFirst scriptId' user db) as [s0 |] eqn:H0; [| done]. cbn [snd].
    destruct (decide (scriptId' = scriptId)) as [-> | Hne].
    + by rewrite lookup_delete_eq.
    + by rewrite lookup_delete_ne.
Qed.

Lemma handle_frame_witness :
  let db := serve (take 3 ex_script_requests) ∅ in
  exists s s',
    db !! "s-1"%string = Some s /\
    (handle db ("u-1"%string,
                PostEnhance 1700000300000 "s-1" ex_enhance
                  (Some "So... um, 73 percent of plans need practice."%string))).2
      !! "s-1"%string = Some s' /\
    userId s' = userId s /\ draftNumber s' = draftNumber s + 1.
Proof.
  intros db.
  destruct (db !! "s-1"%string) as [s |] eqn:Hs; [| vm_compute in Hs; discriminate].
  destruct ((handle db ("u-1"%string,
                PostEnhance 1700000300000 "s-1" ex_enhance
                  (Some "So... um, 73 percent of plans need practice."%string))).2
              !! "s-1"%string) as [s' |] eqn:Hs'; [| vm_compute in Hs'; discriminate].
  exists s, s'. split; [reflexivity |]. split; [reflexivity |].
  destruct (handle_frame db _ "s-1" s s' Hs Hs') as (_ & Hu & _ & _ & _ & Hd).
  split; [exact Hu |].
  vm_compute in Hs, Hs'. injection Hs as <-. injection Hs' as <-. reflexivity.
Defined.


Lemma calculateNathanLevel_cons script e enhancements :
  calculateNathanLevel script (e :: enhancements)
  = Z.min 100 (calculateNathanLevel script enhancements + 5).
Proof.
  unfold calculateNathanLevel. cbn [length]. rewrite Nat2Z.inj_succ.
  destruct (includes script "flowchart" || includes script "diagram"),
           (includes script "replica" || includes script "build"),
           (includes script "147" || includes script "73"); lia.
Qed.

(** X19.  The five points that the enhance route adds to the level, capped
    at 100, are the bonus of [calculateNathanLevel] for one more enhancement:
    for a script whose stored level is the computed one, the level after
    the route is the level computed with the enhancement added to the list.
    The route leaves the stored list as it is. *)
Theorem postEnhance_level now user scriptId body content db s :
  enhanceScriptSchema body = true ->
  findFirst scriptId user db = Some s ->
  nathanLevel s = calculateNathanLevel (originalScript s) (enhancements s) ->
  exists s',
    (postEnhance now user scriptId body (Some content) db).2 !! scriptId = Some s' /\
    (postEnhance now user scriptId body (Some content) db).1
      = Enhanced content (nathanLevel s') (draftNumber s') /\
    nathanLevel s'
      = calculateNathanLevel (originalScript s) (enhancementType body :: enhancements s) /\
    enhancements s' = enhancements s /\
    enhancedScript s' = Some content.
Proof.
  intros Hschema Hs Hlevel. unfold postEnhance. rewrite Hschema, Hs. cbn [negb fst snd].
  rewrite lookup_insert_eq. eexists. split; [reflexivity |]. cbn.
  split; [done |]. split; [| done].
  by rewrite calculateNathanLevel_cons, Hlevel.
Qed.

Lemma postEnhance_level_witness :
  let db := serve (take 1 ex_script_requests) ∅ in
  exists s',
    (postEnhance 1700000300000 "u-1" "s-1" ex_enhance (Some "So... um."%string) db).2
      !! "s-1"%string = Some s' /\
    nathanLevel s' = 48.
Proof.
  intros db.
  destruct (findFirst "s-1" "u-1" db) as [s |] eqn:Hs; [| vm_compute in Hs; discriminate].
  assert (Hlevel : nathanLevel s = calculateNathanLevel (originalScript s) (enhancements s)).
  { vm_compute in Hs. injection Hs as <-. vm_compute. reflexivity. }
  destruct (postEnhance_level 1700000300000 "u-1" "s-1" ex_enhance "So... um." db s
              eq_refl Hs Hlevel) as (s' & Hs' & _ & Hl & _).
  exists s'. split; [exact Hs' |]. rewrite Hl.
  vm_compute in Hs. injection Hs as <-. vm_compute. reflexivity.
Defined.

(** X20.  A deleted script is gone for everyone: after a successful delete,
    reading, updating, enhancing or deleting that id is answered with an
    error, whoever asks, and changes nothing. *)
Theorem deleted_is_gone user scriptId db user' rq :
  (deleteScript user scriptId db).1 = Deleted scriptId ->
  match rq with
  | GetScript i | PutScript _ i _ | PostEnhance _ i _ _ | DeleteScript i => i = scriptId
  | PostScript _ _ _ => False
  end ->
  let db' := (deleteScript user scriptId db).2 in
  (handle db' (user', rq)).2 = db' /\
  ((handle db' (user', rq)).1 = Failed "SCRIPT_NOT_FOUND" 404 \/
   (handle db' (user', rq)).1 = Failed "VALIDATION_ERROR" 400).
Proof.
  intros Hdel Hrq db'.
  assert (Hgone : forall u, findFirst scriptId u db' = None).
  { intros u. unfold db', deleteScript in *.
    destruct (findFirst scriptId user db); [| done]. cbn [snd].
    unfold findFirst. by rewrite lookup_delete_eq. }
  clearbody db'.
  destruct rq as [newId now body | i | now i body | now i body ai | i];
    [done | subst i ..]; cbn [handle fst snd].
  - unfold getScript. rewrite Hgone. by split; [| left].
  - rewrite putScript_cases. destruct (negb _); [by split; [| right] |].
    rewrite Hgone. by split; [| left].
  - unfold postEnhance. destruct (negb _); [by split; [| right] |].
    rewrite Hgone. by split; [| left].
  - unfold deleteScript. rewrite Hgone. by split; [| left].
Qed.

Lemma deleted_is_gone_witness :
  let db := serve (take 4 ex_script_requests) ∅ in
  let db' := (deleteScript "u-1" "s-1" db).2 in
  (handle db' ("u-1"%string, PutScript 1700000400000 "s-1" ex_update_text)).2 = db' /\
  (handle db' ("u-1"%string, PutScript 1700000400000 "s-1" ex_update_text)).1
    = Failed "SCRIPT_NOT_FOUND" 404.
Proof.
  intros db db'.
  assert (Hdel : (deleteScript "u-1" "s-1" db).1 = Deleted "s-1")
    by (vm_compute; reflexivity).
  destruct (deleted_is_gone "u-1" "s-1" db "u-1"
              (PutScript 1700000400000 "s-1" ex_update_text) Hdel eq_refl)
    as [Hsame Hreply].
  split; [exact Hsame |].
  destruct Hreply as [Hreply | Hreply]; [exact Hreply |].
  exfalso. vm_compute in Hreply. discriminate.
Defined.

End ScriptRoutesSpec.

(** ** Authentication and routing *)

Module ApiSpec.
Import Js Text RegExp Scripts Auth Api TextFacts IncludesFacts.
Local Open Scope Z_scope.

Lemma split_on_space_first (l s : list ascii) :
  Forall (fun c => Ascii.eqb c " "%char = false) l ->
  split_on " "%char (l ++ " "%char :: s) = l :: split_on " "%char s.
Proof.
  induction 1 as [| c l Hc _ IH]; simpl; [done |]. by rewrite Hc, IH.
Qed.

Lemma split_on_space_last (l : list ascii) :
  Forall (fun c => Ascii.eqb c " "%char = false) l -> split_on " "%char l = [l].
Proof.
  induction 1 as [| c l Hc _ IH]; simpl; [done |]. by rewrite Hc, IH.
Qed.

(** The token is the second word of the header, whatever the first is. *)
Lemma bearer_token_second scheme token :
  Forall (fun c => Ascii.eqb c " "%char = false) (chars scheme) ->
  Forall (fun c => Ascii.eqb c " "%char = false) (chars token) ->
  token <> EmptyString ->
  bearer_token (Some (scheme +:+ " " +:+ token)) = Some token.
Proof.
  intros Hscheme Htoken Hne. unfold bearer_token.
  assert (Hh : String.eqb (scheme +:+ " " +:+ token) EmptyString = false).
  { apply String.eqb_neq. intros E. apply (f_equal chars) in E.
    rewrite !chars_app in E. by destruct (chars scheme). }
  rewrite Hh, !chars_app. change (chars " ") with [" "%char]. cbn [app].
  rewrite split_on_space_first by done. rewrite split_on_space_last by done.
  cbn. rewrite str_chars. by apply String.eqb_neq in Hne as ->.
Qed.

(** X21.  [authenticateToken] never looks at the scheme of the
    [Authorization] header: the token is the second word, and a header with
    any other first word, or none, is treated as the header
    ['Bearer <token>']. *)
Theorem authenticateToken_any_scheme verify iJ iE secret scheme token :
  Forall (fun c => Ascii.eqb c " "%char = false) (chars scheme) ->
  Forall (fun c => Ascii.eqb c " "%char = false) (chars token) ->
  token <> EmptyString ->
  authenticateToken verify iJ iE secret (Some (scheme +:+ " " +:+ token))
  = authenticateToken verify iJ iE secret (Some ("Bearer" +:+ " " +:+ token)).
Proof.
  intros Hscheme Htoken Hne. unfold authenticateToken.
  rewrite (bearer_token_second scheme token Hscheme Htoken Hne).
  rewrite (bearer_token_second "Bearer" token); [done | | done | done].
  repeat constructor.
Qed.

Lemma authenticateToken_any_scheme_witness :
  authenticateToken ex_verify jwt_instanceof_JsonWebTokenError
    jwt_instanceof_TokenExpiredError (Some "s3cret"%string) (Some "Basic tok-1"%string)
  = Next (Some ex_user).
Proof.
  change "Basic tok-1"%string with ("Basic" +:+ " " +:+ "tok-1")%string.
  rewrite (authenticateToken_any_scheme ex_verify jwt_instanceof_JsonWebTokenError
             jwt_instanceof_TokenExpiredError (Some "s3cret"%string) "Basic" "tok-1").
  - vm_compute. reflexivity.
  - repeat constructor.
  - repeat constructor.
  - discriminate.
Defined.

(** X22.  When an expired-token error is a token error, as the classes of
    the package are, [authenticateToken] never reports ['TOKEN_EXPIRED']:
    the first test of the [catch] block takes the expired token, which is
    rejected as ['INVALID_TOKEN']. *)
Theorem expired_token_reported_invalid verify iJ iE secret authHeader :
  (forall e, iE e = true -> iJ e = true) ->
  (forall code statusCode,
     authenticateToken verify iJ iE secret authHeader = Rejected code statusCode ->
     code <> "TOKEN_EXPIRED"%string) /\
  (forall token sec e,
     bearer_token authHeader = Some token -> truthy secret = Some sec ->
     verify token sec = inr e -> iE e = true ->
     authenticateToken verify iJ iE secret authHeader = Rejected "INVALID_TOKEN" 401).
Proof.
  intros Hsub. unfold authenticateToken. split.
  - intros code statusCode.
    destruct (bearer_token authHeader) as [token |]; [| by intros [= <- _]].
    destruct (truthy secret) as [sec |]; [| by intros [= <- _]].
    destruct (verify token sec) as [decoded | e]; [done |].
    destruct (iJ e) eqn:HJ; [by intros [= <- _] |].
    destruct (iE e) eqn:HE; [| done].
    apply Hsub in HE. congruence.
  - intros token sec e -> -> -> HE. by rewrite (Hsub e HE).
Qed.

Lemma expired_token_reported_invalid_witness :
  authenticateToken ex_verify jwt_instanceof_JsonWebTokenError
    jwt_instanceof_TokenExpiredError (Some "s3cret"%string) (Some "Bearer tok-old"%string)
  = Rejected "INVALID_TOKEN" 401.
Proof.
  assert (Hsub : forall e, jwt_instanceof_TokenExpiredError e = true ->
                           jwt_instanceof_JsonWebTokenError e = true)
    by (by intros []).
  apply (proj2 (expired_token_reported_invalid ex_verify _ _ (Some "s3cret"%string)
                  (Some "Bearer tok-old"%string) Hsub)
           "tok-old"%string "s3cret"%string TokenExpiredError); reflexivity.
Defined.

(** X23.  [optionalAuth] never rejects a request, and it attaches a user
    exactly when [authenticateToken] lets the request through, the same
    user. *)
Theorem optionalAuth_agrees verify iJ iE secret authHeader :
  (exists user, optionalAuth verify secret authHeader = Next user) /\
  (forall user,
     optionalAuth verify secret authHeader = Next (Some user) <->
     authenticateToken verify iJ iE secret authHeader = Next (Some user)).
Proof.
  unfold optionalAuth, authenticateToken.
  destruct (bearer_token authHeader) as [token |]; [| split; [eauto | done]].
  destruct (truthy secret) as [sec |]; [| split; [eauto | done]].
  destruct (verify token sec) as [decoded | e]; [split; [eauto | done] |].
  split; [eauto |]. intros user. by destruct (iJ e), (iE e).
Qed.

(** X24.  A request changes a stored script only when its [Authorization]
    header carries a token that [verify] accepts under the configured
    secret and whose payload names the owner of the script. *)
Theorem api_requires_owner_token verify iJ iE secret authHeader rq db scriptId s :
  db !! scriptId = Some s ->
  (forall token sec user,
     bearer_token authHeader = Some token -> truthy secret = Some sec ->
     verify token sec = inl user -> user_id user <> userId s) ->
  (api verify iJ iE secret authHeader rq db).2 !! scriptId = Some s.
Proof.
  intros Hs Hno. unfold api, authenticateToken.
  destruct (bearer_token authHeader) as [token |]; [| done].
  destruct (truthy secret) as [sec |]; [| done].
  destruct (verify token sec) as [user | e] eqn:Hv.
  - apply ScriptRoutesSpec.handle_other_user; [done |].
    intros E. by apply (Hno token sec user).
  - by destruct (iJ e), (iE e).
Qed.

Lemma api_requires_owner_token_witness :
  let db := ScriptRoutes.serve (take 4 ScriptRoutes.ex_script_requests) ∅ in
  exists s,
    db !! "s-1"%string = Some s /\
    (api ex_verify jwt_instanceof_JsonWebTokenError jwt_instanceof_TokenExpiredError
         (Some "s3cret"%string) (Some "Bearer tok-2"%string)
         (ScriptRoutes.DeleteScript "s-1") db).2 !! "s-1"%string = Some s.
Proof.
  intros db.
  destruct (db !! "s-1"%string) as [s |] eqn:Hs; [| vm_compute in Hs; discriminate].
  exists s. split; [reflexivity |].
  apply api_requires_owner_token; [exact Hs |].
  intros token sec user Htoken Hsec Hv.
  vm_compute in Htoken. injection Htoken as <-.
  vm_compute in Hsec. injection Hsec as <-.
  vm_compute in Hv. discriminate.
Defined.

(** X25.  No request reaches the handler of the route [GET /templates]: the
    route is registered after [GET /:id], which matches every path of one
    segment. *)
Theorem templates_never_dispatched m path : dispatch m path <> Some ListTemplates.
Proof.
  unfold dispatch, routes.
  destruct m, path as [| seg [| seg' path]];
    cbn [List.find fst snd Method_eqb matches andb negb]; try done.
  all: destruct (String.eqb seg EmptyString) eqn:E;
    cbn [List.find fst snd Method_eqb matches andb negb]; try done.
  all: try (apply String.eqb_eq in E as ->; vm_compute; done).
  all: rewrite ?andb_false_r; cbn [List.find fst snd Method_eqb matches andb negb];
    try done.
  destruct (String.eqb (toLowerCase "enhance") (toLowerCase seg') && _); [done |].
  by destruct (String.eqb (toLowerCase "analyze") (toLowerCase seg') && _).
Qed.

End ApiSpec.

(** ** The most frequent item *)

Module AnalyticsSpec.
Import Js Analytics.
Local Open Scope Z_scope.

Lemma countOccurrences_snoc seen item x :
  countOccurrences (seen ++ [item]) x
  = (countOccurrences seen x + if String.eqb item x then 1 else 0)%nat.
Proof.
  unfold countOccurrences. rewrite List.filter_app, length_app. simpl.
  by destruct (String.eqb item x).
Qed.

Lemma tally_ok_nil first :
  tally_ok [] {| frequency := ∅; maxCount := 0; mostFrequent := first |}.
Proof. split; [done | done | done | done]. Qed.

Lemma tally_ok_step seen t item :
  tally_ok seen t -> tally_ok (seen ++ [item]) (tally t item).
Proof.
  intros [Hfreq Hmax Hempty Hmost].
  assert (Hnil : seen ++ [item] = [] -> False) by (by destruct seen).
  assert (Hcount : forall x,
    default 0 (<[item := default 0 (frequency t !! item) + 1]> (frequency t) !! x)
    = Z.of_nat (countOccurrences (seen ++ [item]) x)).
  { intros x. rewrite countOccurrences_snoc.
    destruct (String.eqb item x) eqn:E.
    - apply String.eqb_eq in E as <-. rewrite lookup_insert_eq. simpl.
      rewrite Hfreq. lia.
    - apply String.eqb_neq in E. rewrite lookup_insert_ne by done.
      rewrite Hfreq. lia. }
  assert (Hitem : Z.of_nat (countOccurrences (seen ++ [item]) item)
                  = default 0 (frequency t !! item) + 1).
  { rewrite countOccurrences_snoc, String.eqb_refl, Hfreq. lia. }
  unfold tally.
  destruct (maxCount t <? default 0 (frequency t !! item) + 1) eqn:Hlt.
  - apply Z.ltb_lt in Hlt. split; cbn; [done | | by intros ?%Hnil |].
    + intros x. rewrite countOccurrences_snoc. pose proof (Hmax x).
      destruct (String.eqb item x) eqn:E; [| lia].
      apply String.eqb_eq in E as <-. rewrite Hfreq. lia.
    + intros _. exists item. split; [done |]. split.
      { apply elem_of_app. right. by apply list_elem_of_singleton. }
      split; [by rewrite Hitem |].
      exists seen, []. split; [done |]. split; [by rewrite Hitem |].
      intros x. pose proof (Hmax x). lia.
  - apply Z.ltb_ge in Hlt. split; cbn; [done | | by intros ?%Hnil |].
    + intros x. rewrite countOccurrences_snoc. pose proof (Hmax x).
      destruct (String.eqb item x) eqn:E; [| lia].
      apply String.eqb_eq in E as <-. rewrite Hfreq in Hlt. lia.
    + intros _. destruct seen as [| a seen'].
      { rewrite Hfreq, (Hempty eq_refl) in Hlt. simpl in Hlt. lia. }
      destruct (Hmost ltac:(done)) as (m & Hm & Hin & Heq & before & after & Hsplit & Hfirst & Hless).
      exists m. split; [done |]. split; [apply elem_of_app; by left |]. split.
      * rewrite countOccurrences_snoc.
        destruct (String.eqb item m) eqn:E; [| lia].
        apply String.eqb_eq in E as <-. rewrite Hfreq in Hlt. lia.
      * exists before, (after ++ [item]). split; [| done].
        by rewrite Hsplit, <- app_assoc.
Qed.

Lemma fold_tally_ok rest : forall seen t,
  tally_ok seen t -> tally_ok (seen ++ rest) (fold_left tally rest t).
Proof.
  induction rest as [| item rest IH]; intros seen t Hok.
  - by rewrite app_nil_r.
  - cbn [fold_left]. replace (seen ++ item :: rest) with ((seen ++ [item]) ++ rest)
      by (by rewrite <- app_assoc).
    apply IH. by apply tally_ok_step.
Qed.

(** X26.  For a non-empty array of strings, none of them an inherited
    property name, [getMostFrequent] returns an item of the array that no
    other item outnumbers, and among such items the one whose count is the
    first to reach that number. *)
Theorem getMostFrequent_mode array :
  array <> [] -> forallb own_key array = true ->
  exists item,
    getMostFrequent array = Some item /\ item ∈ array /\
    (forall x, (countOccurrences array x <= countOccurrences array item)%nat) /\
    exists before after,
      array = before ++ item :: after /\
      countOccurrences (before ++ [item]) item = countOccurrences array item /\
      forall x, (countOccurrences before x < countOccurrences array item)%nat.
Proof.
  intros Hne _. unfold getMostFrequent.
  pose proof (fold_tally_ok array [] _ (tally_ok_nil (head array))) as [_ Hmax _ Hmost].
  cbn [app] in *.
  destruct (Hmost Hne) as (item & Hitem & Hin & Heq & before & after & Hsplit & Hfirst & Hless).
  exists item. split; [done |]. split; [done |]. split.
  - intros x. pose proof (Hmax x). lia.
  - exists before, after. split; [done |]. split; [lia |].
    intros x. pose proof (Hless x). lia.
Qed.

Lemma getMostFrequent_mode_witness :
  let scenarios :=
    map data_scenario
        (List.filter (fun e => String.eqb (type e) "scenario_selected") ex_events) in
  getMostAttemptedScenario (Some ex_events) = Some "crisis-response"%string /\
  forall x, (countOccurrences scenarios x <= 2)%nat.
Proof.
  intros scenarios.
  assert (Hne : scenarios <> []) by (intros H; vm_compute in H; discriminate).
  assert (Hown : forallb own_key scenarios = true) by (vm_compute; reflexivity).
  destruct (getMostFrequent_mode scenarios Hne Hown) as (item & Hitem & _ & Hmode & _).
  assert (E : item = "crisis-response"%string).
  { vm_compute in Hitem. by injection Hitem as <-. }
  subst item. split; [vm_compute; reflexivity | exact Hmode].
Defined.

End AnalyticsSpec.

(** ** The production notes *)

Module ProductionNotesSpec.
Import Text RegExp AIService ProductionNotes TextFacts RegExpFacts IncludesFacts.

Lemma space_not_dash c : is_space c = true -> Ascii.eqb c "-" = false.
Proof. destruct c as [[] [] [] [] [] [] [] []]; (reflexivity || discriminate). Qed.

Lemma strip_dash_indented w l : is_space w = true -> strip_dash (w :: l) = w :: l.
Proof.
  intros Hw. unfold strip_dash. by rewrite mt_Seq, mt_Chr_cons, (space_not_dash w Hw).
Qed.

Lemma trim_chars_indented ws l :
  Forall (fun c => is_space c = true) ws -> trim_chars (ws ++ "-"%char :: l) = trim_chars ("-"%char :: l).
Proof.
  intros Hws. unfold trim_chars.
  rewrite (drop_spaces_app_keep ws "-" l eq_refl), (drop_spaces_all ws Hws). reflexivity.
Qed.

(** X27.  [generateProductionNotes] always returns between one and five
    notes, and for a response made of dash lines it returns the trimmed
    texts of the first five of them. *)
Theorem generateProductionNotes_count response :
  (1 <= length (generateProductionNotes response) <= 5) /\
  forall lines,
    lines <> [] -> Forall line_ok lines -> chars response = dash_block lines ->
    generateProductionNotes response = take 5 (map snd lines).
Proof.
  split.
  - unfold generateProductionNotes.
    destruct (0 <? length (take 5 (dash_items (chars response)))) eqn:E.
    + apply Nat.ltb_lt in E. split; [lia |]. rewrite length_take. lia.
    + simpl. lia.
  - intros lines Hne Hok Hresp. unfold generateProductionNotes.
    rewrite Hresp, (AIServiceSpec.dash_items_block lines Hne Hok).
    destruct lines as [| line lines']; [done |]. reflexivity.
Qed.

Lemma generateProductionNotes_count_witness :
  generateProductionNotes
    (str (dash_block [([" "%char], "Build a replica"%string);
                      ([nbsp; "009"%char], "Hire 73 actors"%string)]))
  = ["Build a replica"; "Hire 73 actors"]%string.
Proof.
  apply (proj2 (generateProductionNotes_count _)
           [([" "%char], "Build a replica"%string);
            ([nbsp; "009"%char], "Hire 73 actors"%string)]).
  - discriminate.
  - repeat constructor.
  - apply chars_str.
Defined.

(** A no-break space after the text of a note is trimmed away, and one
    before the dash indents the line. *)
Example generateProductionNotes_no_break_space :
  generateProductionNotes (str (chars "- note" ++ [nbsp])) = ["note"%string] /\
  generateProductionNotes (str (nbsp :: chars "- note")) = ["- note"%string].
Proof. split; vm_compute; reflexivity. Qed.

(** X28.  A dash line that is indented keeps its dash: the line passes the
    filter, which trims it first, and the pattern that removes the dash is
    anchored at the start of the line as it is.  The note is the trimmed
    line, dash included. *)
Theorem generateProductionNotes_indented ws rest :
  ws <> [] ->
  Forall (fun c => is_space c = true) ws ->
  Forall (fun c => Ascii.eqb c nl = false) (ws ++ "-"%char :: rest) ->
  exists tail,
    trim_chars ("-"%char :: rest) = "-"%char :: tail /\
    generateProductionNotes (str (ws ++ "-"%char :: rest)) = [str ("-"%char :: tail)].
Proof.
  intros Hne Hws Hnl.
  destruct (trim_chars_head "-" rest eq_refl) as [tail Htail].
  exists tail. split; [done |].
  unfold generateProductionNotes, dash_items.
  rewrite chars_str, (AIServiceSpec.split_on_last _ Hnl).
  cbn [List.filter]. rewrite (trim_chars_indented ws rest Hws), Htail.
  cbn [starts_with Ascii.eqb Bool.eqb andb map].
  destruct ws as [| w ws']; [done |]. inversion Hws as [| ? ? Hw Hws']; subst.
  change ((w :: ws') ++ "-"%char :: rest) with (w :: ws' ++ "-"%char :: rest).
  rewrite (strip_dash_indented w _ Hw).
  change (w :: ws' ++ "-"%char :: rest) with ((w :: ws') ++ "-"%char :: rest).
  rewrite (trim_chars_indented (w :: ws') rest Hws), Htail. reflexivity.
Qed.

Lemma generateProductionNotes_indented_witness :
  generateProductionNotes
    (str ([" "%char; nbsp] ++ "-"%char :: chars " Hire 73 background actors" ++ [nbsp]))
  = ["- Hire 73 background actors"%string].
Proof.
  destruct (generateProductionNotes_indented
              [" "%char; nbsp] (chars " Hire 73 background actors" ++ [nbsp]))
    as (tail & Htail & Hnotes).
  - discriminate.
  - repeat constructor.
  - repeat constructor.
  - rewrite Hnotes, <- Htail. vm_compute. reflexivity.
Defined.

End ProductionNotesSpec.

(** ** The local script analysis *)

Module ScriptAnalysisSpec.
Import Js Text ScriptAnalysis JsFacts.
Import QArith Qround.
Local Close Scope Q_scope.
Local Open Scope Z_scope.

Lemma random_floor_range r n :
  is_random r -> 0 < n -> 0 <= random_floor r n < n.
Proof.
  unfold is_random, random_floor. intros Hr Hn. split.
  - apply Z.div_pos; lia.
  - apply Z.div_lt_upper_bound; nia.
Qed.

Lemma complexity_sum_floor (len n r : Z) :
  0 <= len -> 0 <= n -> 0 <= r ->
  n * 5 <= Qfloor ((len # 100) + inject_Z (n * 5) + (r * 15 # 2 ^ 53))%Q.
Proof.
  intros Hlen Hn Hr. rewrite <- (Qfloor_Z (n * 5)) at 1. apply Qfloor_resp_le.
  assert (H1 : (0 <= len # 100)%Q) by (unfold Qle; simpl; lia).
  assert (H2 : (0 <= r * 15 # 2 ^ 53)%Q) by (unfold Qle; simpl; lia).
  rewrite <- (Qplus_0_r (inject_Z (n * 5))) at 1.
  rewrite <- (Qplus_0_l (inject_Z (n * 5) + 0)).
  rewrite <- Qplus_assoc.
  apply Qplus_le_compat; [done |]. apply Qplus_le_compat; [apply Qle_refl | done].
Qed.

(** X29.  The ranges of [generateScriptAnalysis], for draws in [[0, 1)]:
    the awkwardness score lies between 47 and 100, the complexity rating is
    at least five times the number of enhancements, the rehearsal count is
    at least 73, the optimality score lies between 0 and 100 and is 100
    exactly for 147 rehearsals, the observation is one of the six texts, and
    the suggestions are the first three, four or five of the six. *)
Theorem generateScriptAnalysis_ranges r1 r2 r3 r4 r5 script enhancements :
  is_random r1 -> is_random r2 -> is_random r3 -> is_random r4 -> is_random r5 ->
  let a := generateScriptAnalysis r1 r2 r3 r4 r5 script enhancements in
  47 <= awkwardnessScore a <= 100 /\
  Z.of_nat (length enhancements) * 5 <= complexityRating a /\
  73 + 2 * complexityRating a <= rehearsalCount a <= 122 + 2 * complexityRating a /\
  0 <= optimalityScore a <= 100 /\
  (optimalityScore a = 100 <-> rehearsalCount a = 147) /\
  (exists text, nathanObservation a = Some text /\ text ∈ observations) /\
  (exists k, (3 <= k <= 5)%nat /\ improvementSuggestions a = take k suggestions).
Proof.
  intros H1 H2 H3 H4 H5 a.
  pose proof (random_floor_range r1 20 H1 ltac:(lia)) as Hf1.
  pose proof (random_floor_range r3 50 H3 ltac:(lia)) as Hf3.
  pose proof (random_floor_range r5 3 H5 ltac:(lia)) as Hf5.
  assert (Hc : Z.of_nat (length enhancements) * 5 <= complexityRating a).
  { apply complexity_sum_floor; [lia | lia |]. unfold is_random in H2. lia. }
  subst a. cbn [awkwardnessScore complexityRating rehearsalCount optimalityScore
                 nathanObservation improvementSuggestions generateScriptAnalysis] in *.
  set (c := Qfloor _) in *.
  split; [lia |]. split; [done |]. split; [lia |]. split; [lia |].
  split; [lia |]. split.
  - by apply random_pick_elem.
  - exists (Z.to_nat (3 + random_floor r5 3)). split; [lia | done].
Qed.

Lemma generateScriptAnalysis_ranges_witness :
  let a := generateScriptAnalysis (2 ^ 52) 0 (2 ^ 52) 0 (2 ^ 52)
             "So... um, I made a plan to practice this talk 147 times."
             ["awkwardness"%string] in
  47 <= awkwardnessScore a <= 100 /\ 73 <= rehearsalCount a /\
  length (improvementSuggestions a) = 4%nat.
Proof.
  intros a.
  assert (Hr : forall r, r = 0 \/ r = 2 ^ 52 -> is_random r)
    by (intros r [-> | ->]; unfold is_random; lia).
  destruct (generateScriptAnalysis_ranges (2 ^ 52) 0 (2 ^ 52) 0 (2 ^ 52)
              "So... um, I made a plan to practice this talk 147 times."
              ["awkwardness"%string])
    as (Ha & Hc & Hr3 & _); try (apply Hr; tauto).
  fold a in Ha, Hc, Hr3. split; [exact Ha |]. split; [lia |].
  vm_compute. reflexivity.
Defined.

(** X30.  For a complexity rating that the analysis parser returns, which
    is not negative, and that is small enough for the count to be a number
    a double holds exactly, [calculateRehearsalCount] never falls back on
    its lower bound of 47: the count is 73 plus twice the rating plus the
    random part, the formula of [generateScriptAnalysis], and so at least
    73. *)
Theorem calculateRehearsalCount_parsed r response :
  is_random r ->
  let rating := Z.of_N (AIService.complexityRating
                          (AIService.parseAnalysisResponse response)) in
  2 * rating + 122 <= 2 ^ 53 ->
  calculateRehearsalCount r rating = 73 + rating * 2 + random_floor r 50 /\
  73 + 2 * rating <= calculateRehearsalCount r rating <= 122 + 2 * rating /\
  calculateRehearsalCount r rating <= 2 ^ 53.
Proof.
  intros Hr rating Hbound. unfold calculateRehearsalCount.
  pose proof (random_floor_range r 50 Hr ltac:(lia)) as Hf.
  assert (0 <= rating) by (unfold rating; lia). lia.
Qed.

Lemma calculateRehearsalCount_parsed_witness :
  let rating := Z.of_N (AIService.complexityRating
                          (AIService.parseAnalysisResponse AIService.ex_block)) in
  rating = 70 /\
  calculateRehearsalCount (2 ^ 52) rating = 73 + rating * 2 + 25.
Proof.
  intros rating.
  assert (Hrating : rating = 70) by (vm_compute; reflexivity).
  split; [exact Hrating |].
  assert (Hr : is_random (2 ^ 52)) by (unfold is_random; lia).
  assert (Hbound : 2 * rating + 122 <= 2 ^ 53) by (rewrite Hrating; lia).
  exact (proj1 (calculateRehearsalCount_parsed (2 ^ 52) AIService.ex_block Hr Hbound)).
Defined.

End ScriptAnalysisSpec.
